(** * CarIntel vehicles API: the edge function [vehicles/index.ts]

    A shallow embedding of the router and the request handlers of the
    vehicle data service (VIN decode, VIN lookup, lookup by year, make and
    model, spec search, warranty, market value, maintenance, cached lists,
    search), with the properties its specification states about them and
    properties of the service as a whole: routing, caching, error handling.

    Conventions of the embedding.
    - A JavaScript string is a [string]: a sequence of code units below 256
      (the Latin-1 range).  Path segments are taken from [URL.pathname],
      which is percent-encoded and therefore ASCII.
    - A JavaScript number is a [jsnum]: an integer or [NaN], with exact
      integer arithmetic.  The code computes in IEEE 754 binary64, which is
      exact on integers up to 2^53 only; the statements about arithmetic
      therefore bound the mileage, the two years and the stored cents
      ([mileage_limit], [year_limit], [cents_limit]).  The one non-integer
      computation (the mileage adjustment) is carried out on exact
      rationals; [mileage_adjustment_binary64] and [binary64_add] evaluate
      the same expressions in binary64, and the two are proved equal within
      the bounds.
    - [await]ed calls are sequenced in a state monad whose state holds the
      Redis store and the trace of external calls made so far.
    - The Supabase client is a query engine ([run_query]) over a [Database]:
      each relation is a list of rows, or fails every query with an error
      code. *)

From Stdlib Require Import ZArith QArith Qround List Bool Ascii String DecimalString
  Sorted SpecFloat Lia.
From stdpp Require Import gmap strings.

Close Scope Q_scope.
Local Open Scope string_scope.
Local Open Scope list_scope.
Local Open Scope Z_scope.

(** ** JavaScript values *)

Inductive jsnum :=
  | Num (z : Z)
  | NaN.

(** Truthiness of a number: [NaN] and [0] are falsy. *)
Definition truthy_num (n : jsnum) : bool :=
  match n with Num z => negb (z =? 0) | NaN => false end.

(** Truthiness of a string: only the empty string is falsy. *)
Definition truthy_str (s : string) : bool :=
  match s with EmptyString => false | String _ _ => true end.

(** Truthiness of a nullable string ([string | null]). *)
Definition truthy_ostr (o : option string) : bool :=
  match o with Some s => truthy_str s | None => false end.

(** [a || b] on nullable strings. *)
Definition or_else (a b : option string) : option string :=
  if truthy_ostr a then a else b.

Definition jsnum_sub (a b : jsnum) : jsnum :=
  match a, b with Num x, Num y => Num (x - y) | _, _ => NaN end.

Definition jsnum_add (a b : jsnum) : jsnum :=
  match a, b with Num x, Num y => Num (x + y) | _, _ => NaN end.

(** [Math.min] of a number and an integer constant. *)
Definition Math_min (a : jsnum) (b : Z) : jsnum :=
  match a with Num x => Num (Z.min x b) | NaN => NaN end.

(** [Math.round] rounds to the nearest integer, ties towards +infinity. *)
Definition Math_round (q : Q) : Z := Qfloor (Qplus q (1 # 2)).

(** Template-literal rendering of an integer. *)
Definition string_of_Z (z : Z) : string := NilEmpty.string_of_int (Z.to_int z).

Definition string_of_jsnum (n : jsnum) : string :=
  match n with Num z => string_of_Z z | NaN => "NaN" end.

(** ** Characters and strings *)

Definition code (c : ascii) : N := N_of_ascii c.

Definition in_range (lo hi : ascii) (c : ascii) : bool :=
  ((code lo <=? code c) && (code c <=? code hi))%N.

(** WhiteSpace and LineTerminator below 256: TAB, LF, VT, FF, CR, SP, NBSP.
    The same set is matched by [\s], stripped by [trim] and skipped by
    [parseInt]. *)
Definition is_ws (c : ascii) : bool :=
  ((9 <=? code c) && (code c <=? 13) || (code c =? 32) || (code c =? 160))%N.

Definition is_digit (c : ascii) : bool := in_range "0" "9" c.
Definition is_upper (c : ascii) : bool := in_range "A" "Z" c.
Definition is_lower (c : ascii) : bool := in_range "a" "z" c.

Definition shift_code (d : Z) (c : ascii) : ascii :=
  ascii_of_N (Z.to_N (Z.of_N (code c) + d)).

(** [toLowerCase] on one code unit: A-Z, and the Latin-1 capitals
    U+00C0..U+00DE except the multiplication sign U+00D7. *)
Definition lower_char (c : ascii) : ascii :=
  if is_upper c then shift_code 32 c
  else if ((192 <=? code c) && (code c <=? 222) && negb (code c =? 215))%N
       then shift_code 32 c
       else c.

(** [toUpperCase] on one ASCII code unit. *)
Definition upper_char (c : ascii) : ascii :=
  if is_lower c then shift_code (-32) c else c.

Fixpoint map_string (f : ascii -> ascii) (s : string) : string :=
  match s with
  | EmptyString => EmptyString
  | String c s' => String (f c) (map_string f s')
  end.

Definition toLowerCase : string -> string := map_string lower_char.

(** [toUpperCase] is only applied to a path segment, which is ASCII. *)
Definition toUpperCase : string -> string := map_string upper_char.

Fixpoint forall_chars (p : ascii -> bool) (s : string) : bool :=
  match s with
  | EmptyString => true
  | String c s' => p c && forall_chars p s'
  end.

Fixpoint trimStart (s : string) : string :=
  match s with
  | EmptyString => EmptyString
  | String c s' => if is_ws c then trimStart s' else s
  end.

Fixpoint trimEnd (s : string) : string :=
  match s with
  | EmptyString => EmptyString
  | String c s' =>
      match trimEnd s' with
      | EmptyString => if is_ws c then EmptyString else String c EmptyString
      | r => String c r
      end
  end.

(** [s.trim()] *)
Definition js_trim (s : string) : string := trimEnd (trimStart s).

(** [s.split(sep)] for a one-character separator: never empty. *)
Fixpoint split_on (sep : ascii) (s : string) : list string :=
  match s with
  | EmptyString => [EmptyString]
  | String c s' =>
      if Ascii.eqb c sep then EmptyString :: split_on sep s'
      else match split_on sep s' with
           | h :: t => String c h :: t
           | [] => [String c EmptyString]
           end
  end.

(** [s.split(/\s+/)]: every maximal run of whitespace is one separator;
    a run at either end leaves an empty token there. *)
Fixpoint split_ws_from (prev_ws : bool) (s : string) : list string :=
  match s with
  | EmptyString => [EmptyString]
  | String c s' =>
      if is_ws c then
        if prev_ws then split_ws_from true s'
        else EmptyString :: split_ws_from true s'
      else match split_ws_from false s' with
           | h :: t => String c h :: t
           | [] => [String c EmptyString]
           end
  end.

Definition split_ws (s : string) : list string := split_ws_from false s.

(** [s.replace(/-/g, '%')] *)
Definition replace_hyphens : string -> string :=
  map_string (fun c => if Ascii.eqb c "-" then "%"%char else c).

(** *** parseInt *)

(** Value of a digit in the given radix, if it is one. *)
Definition digit_val (radix : Z) (c : ascii) : option Z :=
  let v :=
    if is_digit c then Some (Z.of_N (code c) - 48)
    else if is_lower c then Some (Z.of_N (code c) - 87)
    else if is_upper c then Some (Z.of_N (code c) - 55)
    else None in
  match v with
  | Some d => if d <? radix then Some d else None
  | None => None
  end.

(** The longest prefix of radix digits, accumulated; [None] while no digit
    has been read. *)
Fixpoint parse_digits (radix : Z) (s : string) (acc : option Z) : option Z :=
  match s with
  | EmptyString => acc
  | String c s' =>
      match digit_val radix c with
      | Some d => parse_digits radix s' (Some (radix * default 0 acc + d))
      | None => acc
      end
  end.

(** An optional sign. *)
Definition strip_sign (s : string) : Z * string :=
  match s with
  | String c r =>
      if Ascii.eqb c "-" then (-1, r)
      else if Ascii.eqb c "+" then (1, r)
      else (1, s)
  | EmptyString => (1, s)
  end.

(** An optional [0x] or [0X] prefix selects radix 16. *)
Definition strip_radix (s : string) : Z * string :=
  match s with
  | String c (String x r) =>
      if Ascii.eqb c "0" && (Ascii.eqb x "x" || Ascii.eqb x "X") then (16, r)
      else (10, s)
  | _ => (10, s)
  end.

(** [parseInt(s)] with no radix argument: leading whitespace, a sign, an
    optional [0x] prefix, then the longest digit prefix; [NaN] when that
    prefix is empty.  (Integers beyond 2^53 are not rounded here.) *)
Definition parseInt (s : string) : jsnum :=
  let '(sign, s2) := strip_sign (trimStart s) in
  let '(radix, s3) := strip_radix s2 in
  match parse_digits radix s3 None with
  | Some n => Num (sign * n)
  | None => NaN
  end.

(** ** Validation patterns *)

(** [/^[A-HJ-NPR-Z0-9]{17}$/.test(s)] *)
Definition vin_char (c : ascii) : bool :=
  in_range "A" "H" c || in_range "J" "N" c || Ascii.eqb c "P"
  || in_range "R" "Z" c || is_digit c.

Definition vin_regex (s : string) : bool :=
  (String.length s =? 17)%nat && forall_chars vin_char s.

(** [/^[0-9a-f]{8}-[0-9a-f]{4}-[0-9a-f]{4}-[0-9a-f]{4}-[0-9a-f]{12}$/i.test(s)] *)
Definition hex_char (c : ascii) : bool :=
  is_digit c || in_range "a" "f" c || in_range "A" "F" c.

Fixpoint uuid_shape (groups : list nat) (n : nat) (s : string) : bool :=
  match n, s with
  | O, EmptyString => match groups with [] => true | _ => false end
  | O, String c s' =>
      match groups with
      | g :: gs => Ascii.eqb c "-" && uuid_shape gs g s'
      | [] => false
      end
  | S n', String c s' => hex_char c && uuid_shape groups n' s'
  | S _, EmptyString => false
  end.

Definition uuid_regex (s : string) : bool := uuid_shape [4; 4; 4; 12]%nat 8%nat s.

(** ** The relational store behind the Supabase client *)

(** *** LIKE patterns *)

(** PostgreSQL [LIKE]: [%] matches any sequence, [_] any one character,
    a backslash quotes the next pattern character.  A pattern ending in a
    lone backslash matches nothing here; PostgreSQL refuses it with
    SQLSTATE 22025, an error this engine does not raise, so statements
    about a failing query are made on the result of the query and not on
    the table. *)
Fixpoint like (p : string) : string -> bool :=
  match p with
  | EmptyString => fun s => match s with EmptyString => true | _ => false end
  | String c p' =>
      if Ascii.eqb c "%" then
        fix star (s : string) : bool :=
          like p' s || match s with EmptyString => false | String _ s' => star s' end
      else if Ascii.eqb c "_" then
        fun s => match s with EmptyString => false | String _ s' => like p' s' end
      else if Ascii.eqb c "\" then
        match p' with
        | EmptyString => fun _ => false
        | String e p'' =>
            fun s => match s with
                     | EmptyString => false
                     | String d s' => Ascii.eqb d e && like p'' s'
                     end
        end
      else
        fun s => match s with
                 | EmptyString => false
                 | String d s' => Ascii.eqb d c && like p' s'
                 end
  end.

(** PostgREST reads [*] in a like/ilike operand as [%]. *)
Definition postgrest_pattern : string -> string :=
  map_string (fun c => if Ascii.eqb c "*" then "%"%char else c).

(** [column ILIKE pattern] as sent by [.ilike(column, pattern)]. *)
Definition ilike_match (pattern s : string) : bool :=
  like (toLowerCase (postgrest_pattern pattern)) (toLowerCase s).

(** *** Rows and tables *)

Inductive value :=
  | VNull
  | VInt (z : Z)
  | VStr (s : string).

Definition of_ostr (o : option string) : value :=
  match o with Some s => VStr s | None => VNull end.

Definition of_oint (o : option Z) : value :=
  match o with Some z => VInt z | None => VNull end.

(** A row type with named columns. *)
Class Table (T : Type) := column : T -> string -> value.

Record VehicleSpec := {
  spec_id : string;
  spec_year : Z;
  spec_make : string;
  spec_model : string;
  spec_trim : option string;
  spec_sample_vin : option string;
}.

Record WarrantyRecord := {
  vehicle_spec_id : string;
  coverage : string;
}.

Record MarketValueRecord := {
  mv_year : Z;
  mv_make : string;
  mv_model : string;
  mv_trim : option string;
  mv_condition : string;
  mv_trade_in_cents : option Z;
  mv_private_party_cents : option Z;
  mv_dealer_retail_cents : option Z;
}.

Record MaintenanceItem := {
  ms_year : Z;
  ms_make : string;
  ms_model : string;
  ms_trim : option string;
  mileage : Z;
  service : string;
}.

Record YearRow := { yr_year : Z }.
Record MakeRow := { mk_year : Z; mk_make : string }.
Record ModelRow := { md_year : Z; md_make : string; md_model : string }.

Record AutocompleteRecord := {
  ac_year : Z;
  ac_make : string;
  ac_model : string;
  display_text : string;
  sample_vin : option string;
}.

(** Column lookup by name from a list of named cells. *)
Fixpoint cell (cells : list (string * value)) (c : string) : value :=
  match cells with
  | [] => VNull
  | (k, v) :: rest => if String.eqb k c then v else cell rest c
  end.

#[export] Instance VehicleSpec_table : Table VehicleSpec := fun r =>
  cell [("id", VStr (spec_id r)); ("year", VInt (spec_year r));
        ("make", VStr (spec_make r)); ("model", VStr (spec_model r));
        ("trim", of_ostr (spec_trim r)); ("sample_vin", of_ostr (spec_sample_vin r))].

#[export] Instance WarrantyRecord_table : Table WarrantyRecord := fun r =>
  cell [("vehicle_spec_id", VStr (vehicle_spec_id r)); ("coverage", VStr (coverage r))].

#[export] Instance MarketValueRecord_table : Table MarketValueRecord := fun r =>
  cell [("year", VInt (mv_year r)); ("make", VStr (mv_make r));
        ("model", VStr (mv_model r)); ("trim", of_ostr (mv_trim r));
        ("condition", VStr (mv_condition r));
        ("trade_in_cents", of_oint (mv_trade_in_cents r));
        ("private_party_cents", of_oint (mv_private_party_cents r));
        ("dealer_retail_cents", of_oint (mv_dealer_retail_cents r))].

#[export] Instance MaintenanceItem_table : Table MaintenanceItem := fun r =>
  cell [("year", VInt (ms_year r)); ("make", VStr (ms_make r));
        ("model", VStr (ms_model r)); ("trim", of_ostr (ms_trim r));
        ("mileage", VInt (mileage r)); ("service", VStr (service r))].

#[export] Instance YearRow_table : Table YearRow := fun r =>
  cell [("year", VInt (yr_year r))].

#[export] Instance MakeRow_table : Table MakeRow := fun r =>
  cell [("year", VInt (mk_year r)); ("make", VStr (mk_make r))].

#[export] Instance ModelRow_table : Table ModelRow := fun r =>
  cell [("year", VInt (md_year r)); ("make", VStr (md_make r));
        ("model", VStr (md_model r))].

#[export] Instance AutocompleteRecord_table : Table AutocompleteRecord := fun r =>
  cell [("year", VInt (ac_year r)); ("make", VStr (ac_make r));
        ("model", VStr (ac_model r)); ("display_text", VStr (display_text r));
        ("sample_vin", of_ostr (sample_vin r))].

(** A relation either answers with its rows or fails every query with an
    error code: ["42P01"] (PostgreSQL, undefined table) and ["PGRST205"]
    (PostgREST, relation not in the schema cache) say that the relation does
    not exist; any other code is a generic failure. *)
Inductive relation (T : Type) :=
  | Rows (rows : list T)
  | Failing (code : string).
Arguments Rows {T} rows.
Arguments Failing {T} code.

Record Database := {
  vehicle_specs : relation VehicleSpec;
  vehicle_warranties : relation WarrantyRecord;
  vehicle_market_values : relation MarketValueRecord;
  vehicle_maintenance_schedules : relation MaintenanceItem;
  vehicle_years : relation YearRow;
  vehicle_makes : relation MakeRow;
  vehicle_models : relation ModelRow;
  vehicle_autocomplete : relation AutocompleteRecord;
}.

(** *** Queries *)

Inductive literal :=
  | LNum (n : jsnum)
  | LStr (s : string).

Inductive filter :=
  | FEq (col : string) (v : literal)
  | FIlike (col pattern : string)
  | FGte (col : string) (n : jsnum)
  | FOrIlike (alts : list (string * string)).

(** What a chain of builder calls on [supabase.from(t).select(..)] denotes. *)
Record query := {
  q_filters : list filter;
  q_order : list (string * bool);
  q_limit : option jsnum;
}.

Definition select : query := {| q_filters := []; q_order := []; q_limit := None |}.

Definition add_filter (f : filter) (q : query) : query :=
  {| q_filters := q_filters q ++ [f]; q_order := q_order q; q_limit := q_limit q |}.

Definition eq (col : string) (v : literal) : query -> query := add_filter (FEq col v).
Definition ilike (col pattern : string) : query -> query := add_filter (FIlike col pattern).
Definition gte (col : string) (n : jsnum) : query -> query := add_filter (FGte col n).
Definition or_ilike (alts : list (string * string)) : query -> query :=
  add_filter (FOrIlike alts).

Definition order (col : string) (ascending : bool) (q : query) : query :=
  {| q_filters := q_filters q; q_order := q_order q ++ [(col, ascending)];
     q_limit := q_limit q |}.

Definition limit (n : jsnum) (q : query) : query :=
  {| q_filters := q_filters q; q_order := q_order q; q_limit := Some n |}.

Notation "q '|>' f" := (f q) (at level 45, left associativity, only parsing).

(** [{ data, error }] of an awaited query. *)
Record QueryResult (T : Type) := {
  data : option (list T);
  error : option string;
}.
Arguments data {T} _.
Arguments error {T} _.

(** [{ data, error }] of a query ended by [.single()]. *)
Record SingleResult (T : Type) := {
  row : option T;
  row_error : option string;
}.
Arguments row {T} _.
Arguments row_error {T} _.

Definition failed {T} (code : string) : QueryResult T :=
  {| data := None; error := Some code |}.

Section Engine.
Context {T : Type} `{Table T}.

(** One filter on one row.  A NULL cell satisfies no filter; identifiers
    are compared as the strings stored. *)
Definition eval_filter (f : filter) (r : T) : bool :=
  match f with
  | FEq c (LNum (Num z)) =>
      match column r c with VInt z' => z' =? z | _ => false end
  | FEq c (LNum NaN) => false
  | FEq c (LStr s) =>
      match column r c with VStr s' => String.eqb s' s | _ => false end
  | FIlike c p =>
      match column r c with VStr s => ilike_match p s | _ => false end
  | FGte c (Num z) =>
      match column r c with VInt z' => z <=? z' | _ => false end
  | FGte c NaN => false
  | FOrIlike alts =>
      existsb (fun '(c, p) =>
                 match column r c with VStr s => ilike_match p s | _ => false end)
              alts
  end.

(** All filters of a query are conjoined. *)
Definition matches (fs : list filter) (r : T) : bool :=
  forallb (fun f => eval_filter f r) fs.

(** Ascending comparison of two cells, NULLs last. *)
Definition value_compare (a b : value) : comparison :=
  match a, b with
  | VInt x, VInt y => x ?= y
  | VStr x, VStr y => String.compare x y
  | VNull, VNull => Eq
  | VNull, _ => Gt
  | _, VNull => Lt
  | VInt _, VStr _ => Lt
  | VStr _, VInt _ => Gt
  end.

Fixpoint row_compare (keys : list (string * bool)) (a b : T) : comparison :=
  match keys with
  | [] => Eq
  | (c, asc) :: rest =>
      match value_compare (column a c) (column b c) with
      | Eq => row_compare rest a b
      | o => if asc then o else CompOpp o
      end
  end.

Definition row_leb (keys : list (string * bool)) (a b : T) : bool :=
  match row_compare keys a b with Gt => false | _ => true end.

Fixpoint insert_sorted (leb : T -> T -> bool) (x : T) (l : list T) : list T :=
  match l with
  | [] => [x]
  | y :: l' => if leb x y then x :: l else y :: insert_sorted leb x l'
  end.

(** A stable sort stands for ORDER BY; without keys the table order is
    kept. *)
Fixpoint sort_by (leb : T -> T -> bool) (l : list T) : list T :=
  match l with
  | [] => []
  | x :: l' => insert_sorted leb x (sort_by leb l')
  end.

Definition order_rows (keys : list (string * bool)) (l : list T) : list T :=
  sort_by (row_leb keys) l.

(** A literal that does not parse as the column's type makes the whole
    statement fail (SQLSTATE 22P02). *)
Definition well_typed (f : filter) : bool :=
  match f with
  | FEq _ (LNum NaN) => false
  | FGte _ NaN => false
  | _ => true
  end.

(** WHERE, then ORDER BY, then LIMIT.  PostgREST ignores a limit that is
    not an integer and refuses a negative one (PGRST103).  Without an
    ORDER BY the rows come in the order of the table, which PostgreSQL does
    not promise. *)
Definition run_query (r : relation T) (q : query) : QueryResult T :=
  match r with
  | Failing c => failed c
  | Rows rows =>
      if negb (forallb well_typed (q_filters q)) then failed "22P02"
      else
        let selected := order_rows (q_order q) (List.filter (matches (q_filters q)) rows) in
        match q_limit q with
        | Some (Num n) =>
            if n <? 0 then failed "PGRST103"
            else {| data := Some (firstn (Z.to_nat n) selected); error := None |}
        | _ => {| data := Some selected; error := None |}
        end
  end.
End Engine.

(** [.single()]: exactly one row, or the error PGRST116. *)
Definition single {T} (r : QueryResult T) : SingleResult T :=
  match error r with
  | Some e => {| row := None; row_error := Some e |}
  | None =>
      match data r with
      | Some [x] => {| row := Some x; row_error := None |}
      | _ => {| row := None; row_error := Some "PGRST116" |}
      end
  end.

(** [data || []] *)
Definition rows_or_empty {T} (r : QueryResult T) : list T := default [] (data r).

(** ** Request and response data *)

(** [url.searchParams] *)
Record URL := { searchParams : list (string * string) }.

(** [url.searchParams.get(name)]: the first value under that name. *)
Definition searchParams_get (url : URL) (name : string) : option string :=
  snd <$> List.find (fun kv => String.eqb (fst kv) name) (searchParams url).

Record NHTSAResult := {
  Variable_ : string;
  Value : option string;
  VariableId : Z;
  ValueId : string;
}.

Record Engine := {
  cylinders : option Z;
  displacement : option string;
  horsepower : option Z;
  fuel_type : option string;
}.

Record DecodedVin := {
  vin : string;
  year : option Z;
  make : option string;
  model : option string;
  trim : option string;
  body_type : option string;
  vehicle_type : option string;
  doors : option Z;
  engine : Engine;
  drivetrain : option string;
  transmission : option string;
  manufacturer : option string;
  plant_country : option string;
  plant_city : option string;
  error_code : option string;
  error_text : option string;
}.

(** One entry of the object built by [formatMarketValues]; a field is
    [null] ([None]), a number, or [NaN] after an adjustment by [NaN]. *)
Record ValueSet := {
  condition : string;
  trade_in_cents : option jsnum;
  private_party_cents : option jsnum;
  dealer_retail_cents : option jsnum;
}.

Record VinLookupResult := {
  vin_info : DecodedVin;
  specs : option VehicleSpec;
  warranty : list WarrantyRecord;
  market_values : gmap string ValueSet;
  maintenance : list MaintenanceItem;
}.

(** The JSON bodies the handlers produce (and Redis stores). *)
Inductive payload :=
  | PDecoded (d : DecodedVin)
  | PDecodedWarning (d : DecodedVin) (warning : option string)
  | PVinLookup (r : VinLookupResult)
  | PWarranties (l : list WarrantyRecord)
  | PMarketValues (m : gmap string ValueSet)
  | PSchedules (l : list MaintenanceItem)
  | PStrings (l : list string)
  | PYears (l : list Z)
  | PSearch (l : list AutocompleteRecord).

(** Modelled from the spec: the response helpers of [_shared/response.ts],
    which is not part of the sources at hand.  Each helper is kept as the
    call the handler makes; [errorResponse] takes an optional status.  The
    specification gives the envelope ([{data}] with 200, [{error: {code,
    message}}] otherwise) and the codes [not_found] (404) and
    [internal_error] (500) listed in its error taxonomy. *)
Inductive Response :=
  | successResponse (body : payload)
  | errorResponse (code message : string) (status : option Z)
  | notFoundResponse (message : string)
  | internalErrorResponse.

(** Modelled from the spec: the error code carried by a response. *)
Definition response_code (r : Response) : option string :=
  match r with
  | successResponse _ => None
  | errorResponse c _ _ => Some c
  | notFoundResponse _ => Some "not_found"
  | internalErrorResponse => Some "internal_error"
  end.

Definition is_success (r : Response) : bool :=
  match r with successResponse _ => true | _ => false end.

(** ** The world outside the function *)

Inductive Event :=
  | EFetch (url : string)
  | ECacheGet (key : string)
  | ECacheSet (key : string) (ttl : Z)
  | EQuery (table : string).

(** What a request can observe: the database, the NHTSA service (a failed
    call, [None], is an exception at the call site), whether Redis answers,
    and the clock. *)
Record World := {
  db : Database;
  nhtsa : string -> option (list NHTSAResult);
  redis_up : bool;
  current_year : Z;
}.

(** What a request can change: the Redis store; [trace] records the
    external calls in the order they were made. *)
Record St := {
  redis : gmap string payload;
  trace : list Event;
}.

Definition M (A : Type) : Type := St -> A * St.

Definition ret {A} (a : A) : M A := fun s => (a, s).

Definition bind {A B} (m : M A) (k : A -> M B) : M B :=
  fun s => let '(a, s') := m s in k a s'.

Notation "'let*' x ':=' m 'in' k" := (bind m (fun x => k))
  (at level 10, x name, m at level 100, k at level 200, only parsing).

Definition emit (e : Event) : M unit :=
  fun s => (tt, {| redis := redis s; trace := trace s ++ [e] |}).

(** [await supabase.from(table)...]: one round trip to the database. *)
Definition from {T} `{Table T} (table : string) (r : relation T) (q : query)
  : M (QueryResult T) :=
  let* _ := emit (EQuery table) in ret (run_query r q).

(** [try { cached = await redis.get(key); if (cached) ... } catch { }]:
    the cached body, or [None] on a miss or when the read throws. *)
Definition cache_read (w : World) (key : string) : M (option payload) :=
  let* _ := emit (ECacheGet key) in
  fun s => (if redis_up w then redis s !! key else None, s).

(** [try { await redis.set(key, JSON.stringify(v), { ex: ttl }) } catch { }] *)
Definition cache_write (w : World) (key : string) (v : payload) (ttl : Z) : M unit :=
  let* _ := emit (ECacheSet key ttl) in
  fun s => (tt, if redis_up w
                then {| redis := <[key := v]> (redis s); trace := trace s |}
                else s).

Definition CACHE_TTL_YEARS : Z := 86400.
Definition CACHE_TTL_MAKES : Z := 86400.
Definition CACHE_TTL_MODELS : Z := 86400.
Definition CACHE_TTL_SEARCH : Z := 3600.

(** ** NHTSA VIN decoder *)

Section Decode.
Variable results : list NHTSAResult.

Definition getValue (variableName : string) : option string :=
  match List.find (fun r => String.eqb (Variable_ r) variableName) results with
  | Some r => if truthy_ostr (Value r) then Value r else None
  | None => None
  end.

Definition getNumericValue (variableName : string) : option Z :=
  match getValue variableName with
  | Some val =>
      if truthy_str val
      then match parseInt val with Num n => Some n | NaN => None end
      else None
  | None => None
  end.

Definition decoded_of (vin : string) : DecodedVin :=
  {| vin := vin;
     year := getNumericValue "Model Year";
     make := getValue "Make";
     model := getValue "Model";
     trim := getValue "Trim";
     body_type := getValue "Body Class";
     vehicle_type := getValue "Vehicle Type";
     doors := getNumericValue "Doors";
     engine :=
       {| cylinders := getNumericValue "Engine Number of Cylinders";
          displacement := getValue "Displacement (L)";
          horsepower := getNumericValue "Engine Brake (hp) From";
          fuel_type := getValue "Fuel Type - Primary" |};
     drivetrain := getValue "Drive Type";
     transmission := getValue "Transmission Style";
     manufacturer := getValue "Manufacturer Name";
     plant_country := getValue "Plant Country";
     plant_city := getValue "Plant City";
     error_code := getValue "Error Code";
     error_text := getValue "Error Text" |}.
End Decode.

(** [decodeVinWithNHTSA]: one fetch; [None] when the call throws (transport
    failure, a status that is not ok, or a body that is not the expected
    JSON). *)
Definition decodeVinWithNHTSA (w : World) (vin : string) : M (option DecodedVin) :=
  let* _ := emit (EFetch ("https://vpic.nhtsa.dot.gov/api/vehicles/decodevin/"
                          ++ vin ++ "?format=json")) in
  ret (match nhtsa w vin with
       | Some results => Some (decoded_of results vin)
       | None => None
       end).

(** ** Helpers of the handlers *)

Definition new_ValueSet (v : MarketValueRecord) : ValueSet :=
  {| condition := mv_condition v;
     trade_in_cents := Num <$> mv_trade_in_cents v;
     private_party_cents := Num <$> mv_private_party_cents v;
     dealer_retail_cents := Num <$> mv_dealer_retail_cents v |}.

(** [formatMarketValues]: [result[v.condition] = {...}] for each row in
    turn. *)
Definition formatMarketValues (values : list MarketValueRecord) : gmap string ValueSet :=
  fold_left (fun result v => <[mv_condition v := new_ValueSet v]> result) values ∅.

(** [if (field) field += adjustment] *)
Definition adjust_field (adjustment : jsnum) (field : option jsnum) : option jsnum :=
  match field with
  | Some n => if truthy_num n then Some (jsnum_add n adjustment) else field
  | None => None
  end.

(** The body of the loop over [Object.keys(result)]. *)
Definition adjust_condition (adjustment : jsnum) (conditionData : ValueSet) : ValueSet :=
  {| condition := condition conditionData;
     trade_in_cents := adjust_field adjustment (trade_in_cents conditionData);
     private_party_cents := adjust_field adjustment (private_party_cents conditionData);
     dealer_retail_cents := adjust_field adjustment (dealer_retail_cents conditionData) |}.

(** [Math.round(mileageDiff * -0.10 * 100)] with
    [mileageDiff = mileageInt - vehicleAge * 12000]. *)
Definition mileage_adjustment (currentYear vehicleYear : Z) (mileageInt : jsnum) : jsnum :=
  let vehicleAge := currentYear - vehicleYear in
  let expectedMileage := vehicleAge * 12000 in
  match jsnum_sub mileageInt (Num expectedMileage) with
  | Num mileageDiff =>
      Num (Math_round (Qmult (Qmult (inject_Z mileageDiff) (Qopp (10 # 100))) (inject_Z 100)))
  | NaN => NaN
  end.

(** [decoded.trim.split('/')[0].trim()] *)
Definition primaryTrimOf (trim : string) : string :=
  js_trim (hd EmptyString (split_on "/" trim)).

(** [[...new Set(l)]]: first occurrences, in order. *)
Fixpoint dedupe {A} (eqb : A -> A -> bool) (seen l : list A) : list A :=
  match l with
  | [] => []
  | x :: l' =>
      if existsb (eqb x) seen then dedupe eqb seen l'
      else x :: dedupe eqb (x :: seen) l'
  end.

(** [[...new Set(l)].sort()] on strings: code-unit order. *)
Definition distinct_sorted (l : list string) : list string :=
  sort_by String.leb (dedupe String.eqb [] l).

(** The codes by which [handleVehicleSearch] recognises a missing view. *)
Definition relation_missing (e : option string) : bool :=
  match e with
  | Some c => String.eqb c "42P01" || String.eqb c "PGRST205"
  | None => false
  end.

(** One iteration of the tokenizer loop of [handleVehicleSearch]. *)
Definition tokenize_step (st : option Z * list string) (token : string)
  : option Z * list string :=
  let '(yearFilter, textTokens) := st in
  let otherwise :=
    if (2 <=? String.length token)%nat then (yearFilter, textTokens ++ [token])
    else (yearFilter, textTokens) in
  match parseInt token with
  | Num numVal =>
      if (String.length token =? 4)%nat && (1990 <=? numVal) && (numVal <=? 2030)
      then (Some numVal, textTokens)
      else otherwise
  | NaN => otherwise
  end.

Definition tokenize (tokens : list string) : option Z * list string :=
  fold_left tokenize_step tokens (None, []).

Definition apply_year (yearFilter : option Z) (q : query) : query :=
  match yearFilter with
  | Some y => if y =? 0 then q else q |> eq "year" (LNum (Num y))
  | None => q
  end.

Definition to_autocomplete (vehicle : VehicleSpec) : AutocompleteRecord :=
  {| ac_year := spec_year vehicle;
     ac_make := spec_make vehicle;
     ac_model := spec_model vehicle;
     display_text := (string_of_Z (spec_year vehicle) ++ " " ++ spec_make vehicle
                      ++ " " ++ spec_model vehicle)%string;
     sample_vin := spec_sample_vin vehicle |}.

(** [dedupedResults.length >= limit] *)
Definition reached (n : nat) (limit : jsnum) : bool :=
  match limit with Num l => l <=? Z.of_nat n | NaN => false end.

(** The deduplication loop of the search fallback. *)
Fixpoint dedupe_vehicles (limit : jsnum) (seen : gset string)
    (dedupedResults : list AutocompleteRecord) (vehicles : list VehicleSpec)
  : list AutocompleteRecord :=
  match vehicles with
  | [] => dedupedResults
  | vehicle :: rest =>
      let key := (string_of_Z (spec_year vehicle) ++ "-" ++ spec_make vehicle
                  ++ "-" ++ spec_model vehicle)%string in
      if decide (key ∈ seen) then dedupe_vehicles limit seen dedupedResults rest
      else
        let dedupedResults' := dedupedResults ++ [to_autocomplete vehicle] in
        if reached (length dedupedResults') limit then dedupedResults'
        else dedupe_vehicles limit ({[key]} ∪ seen) dedupedResults' rest
  end.

Definition jsnum_times (n : jsnum) (k : Z) : jsnum :=
  match n with Num z => Num (z * k) | NaN => NaN end.

(** ** Handler functions *)

Definition handleVinDecode (w : World) (vin : string) : M Response :=
  if negb (truthy_str vin) || negb (String.length vin =? 17)%nat then
    ret (errorResponse "invalid_vin" "VIN must be exactly 17 characters" None)
  else
    let vinUpper := toUpperCase vin in
    if negb (vin_regex vinUpper) then
      ret (errorResponse "invalid_vin" "VIN contains invalid characters" None)
    else
      let* d := decodeVinWithNHTSA w vinUpper in
      match d with
      | None => ret internalErrorResponse
      | Some decoded =>
          match error_code decoded with
          | Some c =>
              if truthy_str c && negb (String.eqb c "0") then
                ret (successResponse (PDecodedWarning decoded (error_text decoded)))
              else ret (successResponse (PDecoded decoded))
          | None => ret (successResponse (PDecoded decoded))
          end
      end.

Definition handleWarranty (w : World) (vehicleId : string) : M Response :=
  let isUuid := uuid_regex vehicleId in
  if negb isUuid then
    ret (errorResponse "invalid_params" "Vehicle ID must be a valid UUID" None)
  else
    let* r := from "vehicle_warranties" (vehicle_warranties (db w))
                (select |> eq "vehicle_spec_id" (LStr vehicleId)) in
    match error r with
    | Some _ => ret internalErrorResponse
    | None =>
        match data r with
        | None | Some [] =>
            ret (notFoundResponse "No warranty information found for this vehicle")
        | Some warranties => ret (successResponse (PWarranties warranties))
        end
    end.

Definition handleMarketValue (w : World) (vehicleId : string) (url : URL) : M Response :=
  let condition := searchParams_get url "condition" in
  let mileage := searchParams_get url "mileage" in
  let* s := from "vehicle_specs" (vehicle_specs (db w))
              (select |> eq "id" (LStr vehicleId)) in
  match row (single s) with
  | None => ret (notFoundResponse "Vehicle not found")
  | Some specs =>
      let query := select |> eq "year" (LNum (Num (spec_year specs)))
                          |> ilike "make" (spec_make specs)
                          |> ilike "model" (spec_model specs) in
      let query := match spec_trim specs with
                   | Some t => if truthy_str t then query |> ilike "trim" t else query
                   | None => query
                   end in
      let query := match condition with
                   | Some c => if truthy_str c then query |> eq "condition" (LStr c) else query
                   | None => query
                   end in
      let* r := from "vehicle_market_values" (vehicle_market_values (db w)) query in
      match error r with
      | Some _ => ret internalErrorResponse
      | None =>
          let result := formatMarketValues (rows_or_empty r) in
          if truthy_ostr mileage && truthy_num (Num (spec_year specs)) then
            let mileageInt := parseInt (default EmptyString mileage) in
            let adjustment := mileage_adjustment (current_year w) (spec_year specs) mileageInt in
            ret (successResponse (PMarketValues (adjust_condition adjustment <$> result)))
          else ret (successResponse (PMarketValues result))
      end
  end.

Definition handleMaintenance (w : World) (vehicleId : string) (url : URL) : M Response :=
  let currentMileage := searchParams_get url "current_mileage" in
  let* s := from "vehicle_specs" (vehicle_specs (db w))
              (select |> eq "id" (LStr vehicleId)) in
  match row (single s) with
  | None => ret (notFoundResponse "Vehicle not found")
  | Some specs =>
      let query := select |> eq "year" (LNum (Num (spec_year specs)))
                          |> ilike "make" (spec_make specs)
                          |> ilike "model" (spec_model specs)
                          |> order "mileage" true in
      let query := match spec_trim specs with
                   | Some t => if truthy_str t then query |> ilike "trim" (t ++ "%")%string else query
                   | None => query
                   end in
      let query := match currentMileage with
                   | Some m => if truthy_str m then query |> gte "mileage" (parseInt m) else query
                   | None => query
                   end in
      let* r := from "vehicle_maintenance_schedules" (vehicle_maintenance_schedules (db w))
                  (query |> limit (Num 50)) in
      match error r with
      | Some _ => ret internalErrorResponse
      | None => ret (successResponse (PSchedules (rows_or_empty r)))
      end
  end.

Definition handleVinLookup (w : World) (vin : string) (url : URL) : M Response :=
  if negb (truthy_str vin) || negb (String.length vin =? 17)%nat then
    ret (errorResponse "invalid_vin" "VIN must be exactly 17 characters" None)
  else
    let vinUpper := toUpperCase vin in
    if negb (vin_regex vinUpper) then
      ret (errorResponse "invalid_vin" "VIN contains invalid characters" None)
    else
      let* d := decodeVinWithNHTSA w vinUpper in
      match d with
      | None => ret internalErrorResponse
      | Some decoded =>
          match year decoded, make decoded, model decoded with
          | Some decoded_year, Some decoded_make, Some decoded_model =>
              if negb (truthy_num (Num decoded_year)) || negb (truthy_str decoded_make)
                 || negb (truthy_str decoded_model)
              then ret (errorResponse "decode_failed"
                          "Could not decode vehicle information from VIN" None)
              else
                let modelPattern := replace_hyphens decoded_model in
                let base := select |> ilike "make" decoded_make
                                   |> ilike "model" modelPattern
                                   |> eq "year" (LNum (Num decoded_year)) in
                (* clean up the trim once; the source repeats the expression *)
                let primaryTrim :=
                  match trim decoded with
                  | Some t => if truthy_str t then Some (primaryTrimOf t) else None
                  | None => None
                  end in
                (* specs: first with the trim, then without *)
                let* specs :=
                  match trim decoded with
                  | Some t =>
                      if truthy_str t then
                        let* r := from "vehicle_specs" (vehicle_specs (db w))
                                    (base |> ilike "trim" (primaryTrimOf t ++ "%")%string
                                          |> limit (Num 1)) in
                        ret (row (single r))
                      else ret None
                  | None => ret None
                  end in
                let* specs :=
                  match specs with
                  | Some _ => ret specs
                  | None =>
                      let* r := from "vehicle_specs" (vehicle_specs (db w))
                                  (base |> limit (Num 1)) in
                      ret (row (single r))
                  end in
                let* warranties :=
                  match specs with
                  | Some sp =>
                      let* r := from "vehicle_warranties" (vehicle_warranties (db w))
                                  (select |> eq "vehicle_spec_id" (LStr (spec_id sp))) in
                      ret (rows_or_empty r)
                  | None => ret []
                  end in
                let* marketValues :=
                  match primaryTrim with
                  | Some p =>
                      if truthy_str p then
                        let* r := from "vehicle_market_values" (vehicle_market_values (db w))
                                    (base |> ilike "trim" (p ++ "%")%string) in
                        ret (rows_or_empty r)
                      else ret []
                  | None => ret []
                  end in
                let* marketValues :=
                  match marketValues with
                  | [] =>
                      let* r := from "vehicle_market_values" (vehicle_market_values (db w))
                                  (base |> limit (Num 20)) in
                      ret (rows_or_empty r)
                  | _ => ret marketValues
                  end in
                let* maintenance :=
                  match primaryTrim with
                  | Some p =>
                      if truthy_str p then
                        let* r := from "vehicle_maintenance_schedules"
                                    (vehicle_maintenance_schedules (db w))
                                    (base |> ilike "trim" (p ++ "%")%string
                                          |> order "mileage" true |> limit (Num 50)) in
                        ret (rows_or_empty r)
                      else ret []
                  | None => ret []
                  end in
                let* maintenance :=
                  match maintenance with
                  | [] =>
                      let* r := from "vehicle_maintenance_schedules"
                                  (vehicle_maintenance_schedules (db w))
                                  (base |> order "mileage" true |> limit (Num 50)) in
                      ret (rows_or_empty r)
                  | _ => ret maintenance
                  end in
                ret (successResponse (PVinLookup
                       {| vin_info := decoded;
                          specs := specs;
                          warranty := warranties;
                          market_values := formatMarketValues marketValues;
                          maintenance := maintenance |}))
          | _, _, _ =>
              ret (errorResponse "decode_failed"
                     "Could not decode vehicle information from VIN" None)
          end
      end.

Definition handleMakes (w : World) (url : URL) : M Response :=
  let year := searchParams_get url "year" in
  let cacheKey := if truthy_ostr year
                  then ("vehicles:makes:" ++ default EmptyString year)%string
                  else "vehicles:makes:all" in
  let* cached := cache_read w cacheKey in
  match cached with
  | Some body => ret (successResponse body)
  | None =>
      let* makes :=
        if truthy_ostr year then
          (* query from the materialized view *)
          let yearInt := parseInt (default EmptyString year) in
          let* r := from "vehicle_makes" (vehicle_makes (db w))
                      (select |> eq "year" (LNum yearInt) |> order "make" true) in
          match error r with
          | Some _ =>
              (* fallback to a direct query if the view doesn't exist *)
              let* f := from "vehicle_specs" (vehicle_specs (db w))
                          (select |> eq "year" (LNum yearInt)) in
              match error f with
              | Some _ => ret None
              | None => ret (Some (distinct_sorted (List.map spec_make (rows_or_empty f))))
              end
          | None => ret (Some (List.map mk_make (rows_or_empty r)))
          end
        else
          (* all makes from the materialized view *)
          let* r := from "vehicle_makes" (vehicle_makes (db w))
                      (select |> order "make" true) in
          match error r with
          | Some _ =>
              let* f := from "vehicle_specs" (vehicle_specs (db w)) select in
              match error f with
              | Some _ => ret None
              | None => ret (Some (distinct_sorted (List.map spec_make (rows_or_empty f))))
              end
          | None => ret (Some (distinct_sorted (List.map mk_make (rows_or_empty r))))
          end in
      match makes with
      | None => ret internalErrorResponse
      | Some makes =>
          let* _ := cache_write w cacheKey (PStrings makes) CACHE_TTL_MAKES in
          ret (successResponse (PStrings makes))
      end
  end.

Definition handleModels (w : World) (make : string) (url : URL) : M Response :=
  let year := searchParams_get url "year" in
  let cacheKey := if truthy_ostr year
                  then ("vehicles:models:" ++ default EmptyString year ++ ":"
                        ++ toLowerCase make)%string
                  else ("vehicles:models:all:" ++ toLowerCase make)%string in
  let* cached := cache_read w cacheKey in
  match cached with
  | Some body => ret (successResponse body)
  | None =>
      let* models :=
        if truthy_ostr year then
          let yearInt := parseInt (default EmptyString year) in
          let* r := from "vehicle_models" (vehicle_models (db w))
                      (select |> eq "year" (LNum yearInt) |> ilike "make" make
                              |> order "model" true) in
          match error r with
          | Some _ =>
              let* f := from "vehicle_specs" (vehicle_specs (db w))
                          (select |> eq "year" (LNum yearInt) |> ilike "make" make) in
              match error f with
              | Some _ => ret None
              | None => ret (Some (distinct_sorted (List.map spec_model (rows_or_empty f))))
              end
          | None => ret (Some (List.map md_model (rows_or_empty r)))
          end
        else
          let* r := from "vehicle_models" (vehicle_models (db w))
                      (select |> ilike "make" make |> order "model" true) in
          match error r with
          | Some _ =>
              let* f := from "vehicle_specs" (vehicle_specs (db w))
                          (select |> ilike "make" make) in
              match error f with
              | Some _ => ret None
              | None => ret (Some (distinct_sorted (List.map spec_model (rows_or_empty f))))
              end
          | None => ret (Some (distinct_sorted (List.map md_model (rows_or_empty r))))
          end in
      match models with
      | None => ret internalErrorResponse
      | Some models =>
          let* _ := cache_write w cacheKey (PStrings models) CACHE_TTL_MODELS in
          ret (successResponse (PStrings models))
      end
  end.

Definition handleYears (w : World) : M Response :=
  let cacheKey := "vehicles:years" in
  let* cached := cache_read w cacheKey in
  match cached with
  | Some body => ret (successResponse body)
  | None =>
      let* r := from "vehicle_years" (vehicle_years (db w))
                  (select |> order "year" false) in
      match error r with
      | Some _ =>
          let* f := from "vehicle_specs" (vehicle_specs (db w))
                      (select |> order "year" false) in
          match error f with
          | Some _ => ret internalErrorResponse
          | None =>
              let years := sort_by (fun a b => b <=? a)
                             (dedupe Z.eqb [] (List.map spec_year (rows_or_empty f))) in
              ret (successResponse (PYears years))
          end
      | None =>
          let years := List.map yr_year (rows_or_empty r) in
          let* _ := cache_write w cacheKey (PYears years) CACHE_TTL_YEARS in
          ret (successResponse (PYears years))
      end
  end.

(** [url.searchParams.get('q') || url.searchParams.get('query') || ''] *)
Definition search_query (url : URL) : string :=
  default EmptyString
    (or_else (or_else (searchParams_get url "q") (searchParams_get url "query"))
             (Some EmptyString)).

Definition handleVehicleSearch (w : World) (url : URL) : M Response :=
  let query := search_query url in
  let limit_ := Math_min (parseInt (default "20"
                            (or_else (searchParams_get url "limit") (Some "20")))) 50 in
  if negb (truthy_str query) || (String.length query <? 2)%nat then
    ret (errorResponse "invalid_params" "Search query must be at least 2 characters" None)
  else
    let normalizedQuery := toLowerCase (js_trim query) in
    let cacheKey := ("vehicles:search:" ++ normalizedQuery ++ ":"
                     ++ string_of_jsnum limit_)%string in
    let* cached := cache_read w cacheKey in
    match cached with
    | Some body => ret (successResponse body)
    | None =>
        let tokens := split_ws normalizedQuery in
        let '(yearFilter, textTokens) := tokenize tokens in
        (* the materialized view first *)
        let dbQuery :=
          fold_left (fun q token => q |> ilike "display_text" ("%" ++ token ++ "%")%string)
                    textTokens (apply_year yearFilter select) in
        let* result := from "vehicle_autocomplete" (vehicle_autocomplete (db w))
                         (dbQuery |> order "year" false |> order "make" true
                                  |> order "model" true |> limit limit_) in
        let useAutocompleteView := negb (relation_missing (error result)) in
        if negb useAutocompleteView || relation_missing (error result) then
          (* fallback to a direct query on vehicle_specs *)
          let dbQuery :=
            fold_left (fun q token =>
                         let pattern := ("%" ++ token ++ "%")%string in
                         q |> or_ilike [("make", pattern); ("model", pattern)])
                      textTokens (apply_year yearFilter select) in
          let* result := from "vehicle_specs" (vehicle_specs (db w))
                           (dbQuery |> order "year" false |> order "make" true
                                    |> order "model" true |> limit (jsnum_times limit_ 3)) in
          match error result with
          | Some _ => ret internalErrorResponse
          | None =>
              let results := dedupe_vehicles limit_ ∅ [] (rows_or_empty result) in
              let* _ := cache_write w cacheKey (PSearch results) CACHE_TTL_SEARCH in
              ret (successResponse (PSearch results))
          end
        else
          match error result with
          | Some _ => ret internalErrorResponse
          | None =>
              let results := rows_or_empty result in
              let* _ := cache_write w cacheKey (PSearch results) CACHE_TTL_SEARCH in
              ret (successResponse (PSearch results))
          end
    end.

(** ** The remaining handlers *)

(** The body of [handleLookup]: the lookup result without [vin_info]. *)
Record LookupResult := {
  lookup_specs : option VehicleSpec;
  lookup_warranty : list WarrantyRecord;
  lookup_market_values : gmap string ValueSet;
  lookup_maintenance : list MaintenanceItem;
}.

(** Modelled from the spec: the helpers [unauthorizedResponse] and
    [rateLimitResponse] of [_shared/response.ts] and the answer of
    [handleCors] of [_shared/cors.ts], next to [successResponse] on the
    bodies that [payload] does not list.  [Plain] is one of the responses
    above. *)
Inductive Reply :=
  | Plain (r : Response)
  | lookupResponse (body : LookupResult)
  | specsResponse (body : list VehicleSpec)
  | specResponse (body : VehicleSpec)
  | unauthorizedResponse (message : string)
  | rateLimitResponse (retryAfter : Z)
  | corsResponse.

(** A handler that answers with one of the responses above. *)
Definition plain (m : M Response) : M Reply :=
  let* r := m in ret (Plain r).

Definition handleLookup (w : World) (url : URL) : M Reply :=
  let year := searchParams_get url "year" in
  let make := searchParams_get url "make" in
  let model := searchParams_get url "model" in
  let trim := searchParams_get url "trim" in
  if negb (truthy_ostr year) || negb (truthy_ostr make) || negb (truthy_ostr model) then
    ret (Plain (errorResponse "missing_params" "year, make, and model are required" None))
  else
    let make := default EmptyString make in
    let model := default EmptyString model in
    match parseInt (default EmptyString year) with
    | NaN => ret (Plain (errorResponse "invalid_params" "year must be a number" None))
    | Num yearInt =>
        (* normalize the model name: "CR-V" against "CR V" *)
        let modelPattern := replace_hyphens model in
        let base := select |> ilike "make" make |> ilike "model" modelPattern
                           |> eq "year" (LNum (Num yearInt)) in
        let with_trim (q : query) : query :=
          match trim with
          | Some t => if truthy_str t then q |> ilike "trim" (t ++ "%")%string else q
          | None => q
          end in
        let* r := from "vehicle_specs" (vehicle_specs (db w))
                    (with_trim base |> limit (Num 1)) in
        let specs := row (single r) in
        let specsError := row_error (single r) in
        if match specsError with
           | Some code => negb (String.eqb code "PGRST116")
           | None => false
           end
        then ret (Plain internalErrorResponse)
        else
          let* warranties :=
            match specs with
            | Some sp =>
                let* r := from "vehicle_warranties" (vehicle_warranties (db w))
                            (select |> eq "vehicle_spec_id" (LStr (spec_id sp))) in
                ret (rows_or_empty r)
            | None => ret []
            end in
          let* marketValues := from "vehicle_market_values" (vehicle_market_values (db w))
                                 (with_trim base) in
          let* maintenance := from "vehicle_maintenance_schedules"
                                (vehicle_maintenance_schedules (db w))
                                (with_trim (base |> order "mileage" true)
                                 |> limit (Num 50)) in
          match specs, warranties, rows_or_empty marketValues, rows_or_empty maintenance with
          | None, [], [], [] =>
              ret (Plain (notFoundResponse
                            "No vehicle data found for the specified year, make, model"))
          | _, _, _, _ =>
              ret (lookupResponse
                     {| lookup_specs := specs;
                        lookup_warranty := warranties;
                        lookup_market_values :=
                          formatMarketValues (rows_or_empty marketValues);
                        lookup_maintenance := rows_or_empty maintenance |})
          end
    end.

(** [if (p) query = query.f(p)] for an optional parameter. *)
Definition when_given (p : option string) (f : string -> query -> query) (q : query) : query :=
  match p with
  | Some v => if truthy_str v then f v q else q
  | None => q
  end.

Definition handleSpecsSearch (w : World) (url : URL) : M Reply :=
  let year := searchParams_get url "year" in
  let make := searchParams_get url "make" in
  let model := searchParams_get url "model" in
  let trim := searchParams_get url "trim" in
  let limit_ := Math_min (parseInt (default "50"
                            (or_else (searchParams_get url "limit") (Some "50")))) 100 in
  let query := select
               |> when_given year (fun y => eq "year" (LNum (parseInt y)))
               |> when_given make (ilike "make")
               |> when_given model (ilike "model")
               |> when_given trim (ilike "trim") in
  let* r := from "vehicle_specs" (vehicle_specs (db w)) (query |> limit limit_) in
  match error r with
  | Some _ => ret (Plain internalErrorResponse)
  | None => ret (specsResponse (rows_or_empty r))
  end.

Definition handleSpecsById (w : World) (id : string) : M Reply :=
  let* r := from "vehicle_specs" (vehicle_specs (db w)) (select |> eq "id" (LStr id)) in
  match row_error (single r) with
  | Some code =>
      if String.eqb code "PGRST116" then ret (Plain (notFoundResponse "Vehicle not found"))
      else ret (Plain internalErrorResponse)
  | None =>
      match row (single r) with
      | Some sp => ret (specResponse sp)
      | None => ret (Plain internalErrorResponse)
      end
  end.

(** The non-empty trims of the rows, in order. *)
Definition trims_of (rows : list VehicleSpec) : list string :=
  omap (fun d => match spec_trim d with
                 | Some t => if truthy_str t then Some t else None
                 | None => None
                 end) rows.

Definition handleTrims (w : World) (make model : string) (url : URL) : M Response :=
  let year := searchParams_get url "year" in
  let cacheKey := if truthy_ostr year
                  then ("vehicles:trims:" ++ default EmptyString year ++ ":"
                        ++ toLowerCase make ++ ":" ++ toLowerCase model)%string
                  else ("vehicles:trims:all:" ++ toLowerCase make ++ ":"
                        ++ toLowerCase model)%string in
  let* cached := cache_read w cacheKey in
  match cached with
  | Some body => ret (successResponse body)
  | None =>
      let query := select |> ilike "make" make |> ilike "model" model
                          |> when_given year (fun y => eq "year" (LNum (parseInt y))) in
      let* r := from "vehicle_specs" (vehicle_specs (db w)) query in
      match error r with
      | Some _ => ret internalErrorResponse
      | None =>
          let trims := distinct_sorted (trims_of (rows_or_empty r)) in
          let* _ := cache_write w cacheKey (PStrings trims) CACHE_TTL_MODELS in
          ret (successResponse (PStrings trims))
      end
  end.

(** ** The router *)

Record Request := {
  method : string;
  pathname : string;
  req_url : URL;
  X_Client_Source : option string;
}.

(** Modelled from the spec: the results of [authenticateRequest] and
    [checkRateLimit] of [_shared/auth.ts], of which the router reads these
    fields. *)
Record AuthResult := {
  isValid : bool;
  auth_error : option string;
  apiKeyId : string;
  organizationId : string;
  rateLimit : Z;
}.

Record RateLimitCheck := {
  allowed : bool;
  retryAfter : Z;
}.

(** The collaborators the router calls before a handler: the CORS
    preflight (does it answer the request itself?), authentication and the
    rate limiter. *)
Record Collaborators := {
  handleCors : Request -> bool;
  authenticateRequest : Request -> AuthResult;
  checkRateLimit : string -> Z -> RateLimitCheck;
}.

(** What [logUsage] is called with. *)
Record UsageRecord := {
  usage_apiKeyId : string;
  usage_organizationId : string;
  usage_endpoint : string;
  usage_method : string;
  usage_source : string;
  usage_response : Reply;
}.

(** [url.pathname.split('/').filter(Boolean)] *)
Definition pathParts_of (pathname : string) : list string :=
  List.filter truthy_str (split_on "/" pathname).

(** [a === 'literal'] on an array element that may be [undefined]. *)
Definition equals (a : option string) (literal : string) : bool :=
  match a with Some v => String.eqb v literal | None => false end.

(** Truthiness of an array element. *)
Definition given (a : option string) : bool := truthy_ostr a.

(** The [if]/[else if] cascade of the router: the response and the
    endpoint label that is logged. *)
Definition route (w : World) (req : Request) (pathParts : list string)
  : M (Reply * string) :=
  let part (i : nat) : option string := nth_error pathParts i in
  let arg (i : nat) : string := default EmptyString (part i) in
  let labelled (endpoint : string) (m : M Reply) : M (Reply * string) :=
    let* response := m in ret (response, endpoint) in
  if negb (String.eqb (method req) "GET") then
    ret (Plain (errorResponse "method_not_allowed" "Only GET requests are supported"
                  (Some 405)), pathname req)
  else if equals (part 0%nat) "vehicles" then
    if equals (part 1%nat) "years" then
      labelled "/vehicles/years" (plain (handleYears w))
    else if equals (part 1%nat) "search" then
      labelled "/vehicles/search" (plain (handleVehicleSearch w (req_url req)))
    else if equals (part 1%nat) "vin" && given (part 2%nat) then
      labelled "/vehicles/vin/:vin" (plain (handleVinLookup w (arg 2%nat) (req_url req)))
    else if equals (part 1%nat) "decode" && given (part 2%nat) then
      labelled "/vehicles/decode/:vin" (plain (handleVinDecode w (arg 2%nat)))
    else if equals (part 1%nat) "lookup" then
      labelled "/vehicles/lookup" (handleLookup w (req_url req))
    else if equals (part 1%nat) "specs" && negb (given (part 2%nat)) then
      labelled "/vehicles/specs" (handleSpecsSearch w (req_url req))
    else if equals (part 1%nat) "makes" then
      if negb (given (part 2%nat)) then
        labelled "/makes" (plain (handleMakes w (req_url req)))
      else if equals (part 3%nat) "models" && negb (given (part 4%nat)) then
        labelled "/makes/:make/models" (plain (handleModels w (arg 2%nat) (req_url req)))
      else if equals (part 3%nat) "models" && equals (part 5%nat) "trims" then
        labelled "/makes/:make/models/:model/trims"
                 (plain (handleTrims w (arg 2%nat) (arg 4%nat) (req_url req)))
      else
        ret (Plain (notFoundResponse "Unknown makes endpoint"), pathname req)
    else if equals (part 2%nat) "specs" then
      labelled "/vehicles/:id/specs" (handleSpecsById w (arg 1%nat))
    else if equals (part 2%nat) "warranty" then
      labelled "/vehicles/:id/warranty" (plain (handleWarranty w (arg 1%nat)))
    else if equals (part 2%nat) "market-value" then
      labelled "/vehicles/:id/market-value" (plain (handleMarketValue w (arg 1%nat) (req_url req)))
    else if equals (part 2%nat) "maintenance" then
      labelled "/vehicles/:id/maintenance" (plain (handleMaintenance w (arg 1%nat) (req_url req)))
    else
      ret (Plain (notFoundResponse "Unknown endpoint"), pathname req)
  else
    ret (Plain (notFoundResponse "Unknown endpoint"), pathname req).

(** What one request leaves behind: the response, the state after the
    handler, and the usage record handed to [logUsage], if any. *)
Record Served := {
  response : Reply;
  after : St;
  usage : option UsageRecord;
}.

(** The body of [Deno.serve].  No handler of the model raises, so the
    [catch] of the router is not reached. *)
Definition serve (c : Collaborators) (w : World) (req : Request) (s : St) : Served :=
  if handleCors c req then {| response := corsResponse; after := s; usage := None |}
  else
    let pathParts := pathParts_of (pathname req) in
    let source := default "api" (or_else (X_Client_Source req) (Some "api")) in
    let auth := authenticateRequest c req in
    if negb (isValid auth) then
      {| response := unauthorizedResponse
                       (default "Unauthorized"
                          (or_else (auth_error auth) (Some "Unauthorized")));
         after := s; usage := None |}
    else
      let rateLimitCheck := checkRateLimit c (organizationId auth) (rateLimit auth) in
      if negb (allowed rateLimitCheck) then
        {| response := rateLimitResponse (retryAfter rateLimitCheck);
           after := s; usage := None |}
      else
        let '(response, endpoint, s') := route w req pathParts s in
        {| response := response;
           after := s';
           usage := Some {| usage_apiKeyId := apiKeyId auth;
                            usage_organizationId := organizationId auth;
                            usage_endpoint := endpoint;
                            usage_method := method req;
                            usage_source := source;
                            usage_response := response |} |}.

(** ** The adjustment in binary64 *)

Definition binary64_of_Z (z : Z) : spec_float := binary_normalize 53 1024 z 0 false.

Definition binary64_mul : spec_float -> spec_float -> spec_float := SFmul 53 1024.

(** The literal [-0.10]: the double nearest to one tenth, negated. *)
Definition minus_tenth : spec_float := S754_finite true 7205759403792794 (-56).

(** The rational a finite double stands for. *)
Definition Q_of_binary64 (x : spec_float) : option Q :=
  match x with
  | S754_zero _ => Some (0 # 1)%Q
  | S754_finite s m e =>
      let n := if s then Zneg m else Zpos m in
      Some (match e with
            | Zneg p => (n # 2 ^ p)%Q
            | _ => (n * 2 ^ e # 1)%Q
            end)
  | _ => None
  end.

(** [Math.round(mileageDiff * -0.10 * 100)] evaluated in binary64; [None]
    when the product is not finite. *)
Definition adjustment_binary64 (mileageDiff : Z) : option Z :=
  Math_round <$> Q_of_binary64
    (binary64_mul (binary64_mul (binary64_of_Z mileageDiff) minus_tenth)
                  (binary64_of_Z 100)).

Definition binary64_add : spec_float -> spec_float -> spec_float := SFadd 53 1024.

Definition binary64_sub : spec_float -> spec_float -> spec_float := SFsub 53 1024.

(** The adjustment as the handler computes it, every operation in binary64:
    [vehicleAge = currentYear - specs.year],
    [expectedMileage = vehicleAge * 12000],
    [mileageDiff = mileageInt - expectedMileage],
    [adjustment = Math.round(mileageDiff * -0.10 * 100)]. *)
Definition mileage_adjustment_binary64 (currentYear vehicleYear mileageInt : Z) : option Z :=
  let vehicleAge := binary64_sub (binary64_of_Z currentYear) (binary64_of_Z vehicleYear) in
  let expectedMileage := binary64_mul vehicleAge (binary64_of_Z 12000) in
  let mileageDiff := binary64_sub (binary64_of_Z mileageInt) expectedMileage in
  Math_round <$> Q_of_binary64
    (binary64_mul (binary64_mul mileageDiff minus_tenth) (binary64_of_Z 100)).

(** What [n] right shifts of the mantissa [m] leave behind: the quotient,
    the round bit (the first bit shifted out) and the sticky bit (whether
    any later bit was set). *)
Definition shifted (m : Z) (n : Z) (mrs : shr_record) : Prop :=
  0 <= shr_m mrs
  /\ exists lo,
       m = shr_m mrs * 2 ^ n + (if shr_r mrs then 2 ^ (n - 1) else 0) + lo
       /\ 0 <= lo < 2 ^ (n - 1)
       /\ (shr_s mrs = false -> lo = 0).

(** * Notions of the specification *)

(** ** Search *)

(** The rule as the specification words it: a query shorter than two
    characters after trimming is refused, and nothing outside the function
    is touched. *)
Definition short_after_trim_refused (w : World) (url : URL) (s : St) : Prop :=
  (String.length (js_trim (search_query url)) < 2)%nat ->
  handleVehicleSearch w url s
  = (errorResponse "invalid_params" "Search query must be at least 2 characters" None, s).

(** The value of a decimal numeral. *)
Fixpoint decimal_from (acc : Z) (s : string) : Z :=
  match s with
  | EmptyString => acc
  | String c s' => decimal_from (10 * acc + (Z.of_N (code c) - 48)) s'
  end.

Definition decimal_value (s : string) : Z := decimal_from 0 s.

(** A year token in the specification's words: exactly four characters,
    all of them digits, with a value from 1990 to 2030. *)
Definition year_token (token : string) : bool :=
  (String.length token =? 4)%nat && forall_chars is_digit token
  && (1990 <=? decimal_value token) && (decimal_value token <=? 2030).

(** ** Warranty *)

Definition has_spec (w : World) (vehicleId : string) : Prop :=
  exists rows sp,
    vehicle_specs (db w) = Rows rows /\ In sp rows /\ spec_id sp = vehicleId.

Definition no_warranty_rows (w : World) (vehicleId : string) : Prop :=
  exists ws,
    vehicle_warranties (db w) = Rows ws
    /\ forall x, In x ws -> vehicle_spec_id x <> vehicleId.

(** The rule as the specification words it: for a vehicle whose spec
    record exists, no warranty rows is a success with an empty collection. *)
Definition no_warranty_is_empty_success (w : World) (vehicleId : string) (s : St) : Prop :=
  has_spec w vehicleId -> no_warranty_rows w vehicleId ->
  fst (handleWarranty w vehicleId s) = successResponse (PWarranties []).

(** ** Maintenance *)

(** The number a decimal literal denotes: digits, with an optional
    fraction after a point. *)
Definition decimal_number (s : string) : option Q :=
  match split_on "." s with
  | [whole] =>
      if truthy_str whole && forall_chars is_digit whole
      then Some (inject_Z (decimal_value whole))
      else None
  | [whole; fraction] =>
      if truthy_str whole && forall_chars is_digit whole
         && truthy_str fraction && forall_chars is_digit fraction
      then Some (Qmake (decimal_value (whole ++ fraction))
                       (Z.to_pos (10 ^ Z.of_nat (String.length fraction))))
      else None
  | _ => None
  end.

(** The rule as the specification words it: every entry of the schedule
    lies at or above the mileage supplied. *)
Definition upcoming_only (supplied : Q) (schedules : list MaintenanceItem) : Prop :=
  Forall (fun item => Qle supplied (inject_Z (mileage item))) schedules.

(** ** Market values *)

(** The same request with the [mileage] parameter left out. *)
Definition without_mileage (url : URL) : URL :=
  {| searchParams :=
       List.filter (fun kv => negb (String.eqb (fst kv) "mileage")) (searchParams url) |}.

(** The vehicle a market-value or maintenance request is about. *)
Definition spec_of (w : World) (vehicleId : string) : option VehicleSpec :=
  row (single (run_query (vehicle_specs (db w)) (select |> eq "id" (LStr vehicleId)))).

(** The adjustment as the specification writes it, without the factor 100
    that converts dollars to cents. *)
Definition specified_adjustment (currentYear vehicleYear actual : Z) : Z :=
  Math_round (Qmult (inject_Z (actual - (currentYear - vehicleYear) * 12000))
                    (Qopp (10 # 100))).

(** Bounds within which the integers of the embedding are the doubles of
    the code.  A mileage of at most 10^13 and years of at most 10^6 keep
    the mileage difference below 2^46, where
    [Math.round(mileageDiff * -0.10 * 100)] is the exact multiple of ten in
    binary64 too ([mileage_adjustment_binary64_exact]); stored cents of at
    most 10^15 keep every sum below 2^53, where binary64 addition is exact
    ([binary64_add_exact]). *)
Definition mileage_limit : Z := 10 ^ 13.
Definition year_limit : Z := 10 ^ 6.
Definition cents_limit : Z := 10 ^ 15.

(** A value field that is present (a non-zero number, within
    [cents_limit]) has the cents added. *)
Definition field_raised (cents : Z) (before after : option jsnum) : Prop :=
  forall n, n <> 0 -> Z.abs n <= cents_limit ->
    before = Some (Num n) -> after = Some (Num (n + cents)).

Definition condition_raised (cents : Z) (before after : ValueSet) : Prop :=
  condition after = condition before
  /\ field_raised cents (trade_in_cents before) (trade_in_cents after)
  /\ field_raised cents (private_party_cents before) (private_party_cents after)
  /\ field_raised cents (dealer_retail_cents before) (dealer_retail_cents after).

(** ** Resolution of a decoded VIN *)

(** Characters that mean themselves in an [ilike] operand. *)
Definition plain_char (c : ascii) : bool :=
  negb (Ascii.eqb c "%" || Ascii.eqb c "_" || Ascii.eqb c "\" || Ascii.eqb c "*").

(** Year, make and model of a row agree with the decoded vehicle. *)
Definition same_vehicle (y : Z) (mk md : string) (sp : VehicleSpec) : bool :=
  ilike_match mk (spec_make sp)
  && ilike_match (replace_hyphens md) (spec_model sp)
  && (spec_year sp =? y).

(** The row has a trim and it matches the primary trim followed by [%]. *)
Definition trim_matches (primaryTrim : string) (sp : VehicleSpec) : bool :=
  match spec_trim sp with
  | Some x => ilike_match (primaryTrim ++ "%") x
  | None => false
  end.

(** The first slash-separated segment, as the specification words the
    primary trim. *)
Definition first_segment (trim : string) : string := hd EmptyString (split_on "/" trim).

(** The outcome of a lookup that succeeded with the given spec. *)
Definition resolves (out : Response * St) (sp : option VehicleSpec) : Prop :=
  exists r, fst out = successResponse (PVinLookup r) /\ specs r = sp.

(** The outcome of the two-step resolution when [primary] is used as the
    primary trim. *)
Definition resolution (primary : string) (y : Z) (mk md : string)
    (rows : list VehicleSpec) : option VehicleSpec :=
  match List.find (fun sp => same_vehicle y mk md sp && trim_matches primary sp) rows with
  | Some sp => Some sp
  | None => List.find (same_vehicle y mk md) rows
  end.

(** * Sample data *)

(** A database whose aggregate views are present and empty. *)
Definition catalog (specs : list VehicleSpec) (values : list MarketValueRecord)
    (schedules : list MaintenanceItem) : Database :=
  {| vehicle_specs := Rows specs;
     vehicle_warranties := Rows [];
     vehicle_market_values := Rows values;
     vehicle_maintenance_schedules := Rows schedules;
     vehicle_years := Rows [];
     vehicle_makes := Rows [];
     vehicle_models := Rows [];
     vehicle_autocomplete := Rows [] |}.

Definition with_views (makes : relation MakeRow)
    (autocomplete : relation AutocompleteRecord) (d : Database) : Database :=
  {| vehicle_specs := vehicle_specs d;
     vehicle_warranties := vehicle_warranties d;
     vehicle_market_values := vehicle_market_values d;
     vehicle_maintenance_schedules := vehicle_maintenance_schedules d;
     vehicle_years := vehicle_years d;
     vehicle_makes := makes;
     vehicle_models := vehicle_models d;
     vehicle_autocomplete := autocomplete |}.

Definition no_rows : Database := catalog [] [] [].

Definition world_of (d : Database) (service : string -> option (list NHTSAResult)) : World :=
  {| db := d; nhtsa := service; redis_up := true; current_year := 2026 |}.

Definition offline : string -> option (list NHTSAResult) := fun _ => None.

Definition fresh : St := {| redis := ∅; trace := [] |}.

Definition url_of (params : list (string * string)) : URL := {| searchParams := params |}.

Definition accord : VehicleSpec :=
  {| spec_id := "3f2504e0-4f89-11d3-9a0c-0305e82c3301"; spec_year := 2020;
     spec_make := "Honda"; spec_model := "Accord"; spec_trim := Some "EX-L";
     spec_sample_vin := Some "1HGCV1F34LA000001" |}.

Definition accord_lx : VehicleSpec :=
  {| spec_id := "7d444840-9dc0-11d1-b245-5ffdce74fad2"; spec_year := 2020;
     spec_make := "Honda"; spec_model := "Accord"; spec_trim := Some "LX";
     spec_sample_vin := None |}.

Definition accord_navi : VehicleSpec :=
  {| spec_id := "6ba7b810-9dad-11d1-80b4-00c04fd430c8"; spec_year := 2020;
     spec_make := "Honda"; spec_model := "Accord"; spec_trim := Some "EX-L Navi";
     spec_sample_vin := None |}.

Definition camry : VehicleSpec :=
  {| spec_id := "6ba7b811-9dad-11d1-80b4-00c04fd430c8"; spec_year := 2020;
     spec_make := "Toyota"; spec_model := "Camry"; spec_trim := Some "XSE";
     spec_sample_vin := None |}.

Definition accord_without_warranty : Database := catalog [accord] [] [].
Definition two_accords : Database := catalog [accord_lx; accord] [] [].
Definition accords_with_navi : Database := catalog [accord_lx; accord_navi] [] [].

Definition service_at (k : nat) : MaintenanceItem :=
  {| ms_year := 2020; ms_make := "Honda"; ms_model := "Accord";
     ms_trim := Some "EX-L Sedan"; mileage := 5000 * Z.of_nat k;
     service := "Inspect" |}.

(** Sixty services, every 5000 miles, stored from the last to the first. *)
Definition sixty_services : Database :=
  catalog [accord] [] (rev (List.map service_at (seq 1 60))).

Definition clean_accord : MarketValueRecord :=
  {| mv_year := 2020; mv_make := "Honda"; mv_model := "Accord"; mv_trim := Some "EX-L";
     mv_condition := "Clean"; mv_trade_in_cents := Some 1500000;
     mv_private_party_cents := Some 0; mv_dealer_retail_cents := None |}.

Definition rough_accord : MarketValueRecord :=
  {| mv_year := 2020; mv_make := "Honda"; mv_model := "Accord"; mv_trim := Some "EX-L";
     mv_condition := "Rough"; mv_trade_in_cents := Some 1100000;
     mv_private_party_cents := Some 1250000; mv_dealer_retail_cents := Some 1400000 |}.

Definition valued_accord : Database := catalog [accord] [clean_accord; rough_accord] [].

(** An answer of the NHTSA service with error code 8. *)
Definition recalled : list NHTSAResult :=
  [ {| Variable_ := "Error Code"; Value := Some "8"; VariableId := 143; ValueId := "8" |};
    {| Variable_ := "Error Text"; Value := Some "8 - No detailed data available currently";
       VariableId := 191; ValueId := "" |};
    {| Variable_ := "Make"; Value := Some "HONDA"; VariableId := 26; ValueId := "474" |} ].

(** An answer of the NHTSA service that decodes most of the vehicle and
    carries error code 1 (check digit). *)
Definition check_digit_failed : list NHTSAResult :=
  [ {| Variable_ := "Error Code"; Value := Some "1"; VariableId := 143; ValueId := "1" |};
    {| Variable_ := "Error Text";
       Value := Some "1 - Check Digit (9th position) does not calculate properly";
       VariableId := 191; ValueId := "1" |};
    {| Variable_ := "Make"; Value := Some "HONDA"; VariableId := 26; ValueId := "474" |};
    {| Variable_ := "Model"; Value := Some "Accord"; VariableId := 28; ValueId := "1861" |};
    {| Variable_ := "Model Year"; Value := Some "2020"; VariableId := 29; ValueId := "2020" |};
    {| Variable_ := "Trim"; Value := Some "EX-L"; VariableId := 38; ValueId := EmptyString |};
    {| Variable_ := "Series"; Value := None; VariableId := 34; ValueId := EmptyString |};
    {| Variable_ := "Body Class"; Value := Some "Sedan/Saloon"; VariableId := 5;
       ValueId := "13" |};
    {| Variable_ := "Doors"; Value := Some "4"; VariableId := 14; ValueId := EmptyString |};
    {| Variable_ := "Engine Number of Cylinders"; Value := Some "4"; VariableId := 9;
       ValueId := EmptyString |};
    {| Variable_ := "Displacement (L)"; Value := Some "1.5"; VariableId := 13;
       ValueId := EmptyString |};
    {| Variable_ := "Fuel Type - Primary"; Value := Some "Gasoline"; VariableId := 24;
       ValueId := "4" |};
    {| Variable_ := "Drive Type"; Value := Some EmptyString; VariableId := 15;
       ValueId := EmptyString |};
    {| Variable_ := "Manufacturer Name"; Value := Some "AMERICAN HONDA MOTOR CO., INC.";
       VariableId := 27; ValueId := "988" |};
    {| Variable_ := "Plant Country"; Value := Some "UNITED STATES (USA)"; VariableId := 75;
       ValueId := "6" |};
    {| Variable_ := "Plant City"; Value := Some "MARYSVILLE"; VariableId := 31;
       ValueId := EmptyString |} ].

(** A clean answer of the NHTSA service for a 2020 Honda Accord. *)
Definition decoded_accord (trim : string) : list NHTSAResult :=
  [ {| Variable_ := "Error Code"; Value := Some "0"; VariableId := 143; ValueId := "0" |};
    {| Variable_ := "Make"; Value := Some "HONDA"; VariableId := 26; ValueId := "474" |};
    {| Variable_ := "Model"; Value := Some "Accord"; VariableId := 28; ValueId := "1861" |};
    {| Variable_ := "Model Year"; Value := Some "2020"; VariableId := 29; ValueId := "" |};
    {| Variable_ := "Trim"; Value := Some trim; VariableId := 38; ValueId := "" |} ].

(** The view of makes exists but its query is cancelled (SQLSTATE 57014,
    statement timeout); the table of specs answers. *)
Definition makes_view_timing_out : Database :=
  with_views (Failing "57014") (Rows []) (catalog [camry; accord_lx; accord] [] []).

(** The same failure on the view of the search. *)
Definition search_view_timing_out : Database :=
  with_views (Rows []) (Failing "57014") (catalog [camry; accord_lx; accord] [] []).

(** The view of the search does not exist. *)
Definition search_view_missing : Database :=
  with_views (Rows []) (Failing "42P01") (catalog [camry; accord_lx; accord] [] []).

(** * Tactics *)

(** Rule out a literal character by computation. *)
Ltac not_that_char c k :=
  let E := fresh "E" in
  destruct (Ascii.eqb c k) eqn:E;
  [apply Ascii.eqb_eq in E; subst c; discriminate | clear E].

(** Decide comparisons with literal characters from the code of the left
    operand. *)
Ltac code_differs Hcode :=
  repeat match goal with
  | |- context [Ascii.eqb ?a ?b] =>
      let E := fresh in
      destruct (Ascii.eqb a b) eqn:E;
      [ apply Ascii.eqb_eq in E; apply (f_equal code) in E; rewrite Hcode in E;
        let v := eval vm_compute in (code b) in change (code b) with v in E; lia
      | ]
  end.

(** * Notions of the router, the cache and the handlers *)

Definition is_cache_event (e : Event) : bool :=
  match e with
  | ECacheGet _ | ECacheSet _ _ => true
  | _ => false
  end.

(** A computation that leaves the Redis store as it is and makes no call
    to Redis. *)
Definition cache_free {A} (m : M A) : Prop :=
  forall s,
    redis (snd (m s)) = redis s
    /\ exists events,
         trace (snd (m s)) = trace s ++ events
         /\ forallb (fun e => negb (is_cache_event e)) events = true.

(** The address [decodeVinWithNHTSA] fetches. *)
Definition nhtsa_url (vin : string) : string :=
  ("https://vpic.nhtsa.dot.gov/api/vehicles/decodevin/" ++ vin ++ "?format=json")%string.

(** The state after one more external call. *)
Definition after_event (s : St) (e : Event) : St :=
  {| redis := redis s; trace := trace s ++ [e] |}.

(** The decoded record lacks what a lookup needs: a non-zero year, a make
    and a model. *)
Definition undecodable (results : list NHTSAResult) : Prop :=
  getNumericValue results "Model Year" = None
  \/ getNumericValue results "Model Year" = Some 0
  \/ getValue results "Make" = None
  \/ getValue results "Model" = None.

(** An answer of the NHTSA service for a VIN it cannot resolve. *)
Definition unknown_vehicle : list NHTSAResult :=
  [ {| Variable_ := "Error Code"; Value := Some "11"; VariableId := 143; ValueId := "11" |};
    {| Variable_ := "Make"; Value := None; VariableId := 26; ValueId := EmptyString |};
    {| Variable_ := "Model Year"; Value := Some "2020"; VariableId := 29; ValueId := EmptyString |} ].

(** A request that passes the CORS check, authentication and the rate
    limit. *)
Definition accepted (c : Collaborators) (req : Request) : Prop :=
  handleCors c req = false
  /\ isValid (authenticateRequest c req) = true
  /\ allowed (checkRateLimit c (organizationId (authenticateRequest c req))
                (rateLimit (authenticateRequest c req))) = true.

(** The endpoint names the router assigns. *)
Definition endpoint_labels : list string :=
  [ "/vehicles/years"; "/vehicles/search"; "/vehicles/vin/:vin"; "/vehicles/decode/:vin";
    "/vehicles/lookup"; "/vehicles/specs"; "/makes"; "/makes/:make/models";
    "/makes/:make/models/:model/trims"; "/vehicles/:id/specs"; "/vehicles/:id/warranty";
    "/vehicles/:id/market-value"; "/vehicles/:id/maintenance" ].

(** The answers the router gives without calling a handler. *)
Definition router_refusal (r : Reply) : Prop :=
  r = Plain (errorResponse "method_not_allowed" "Only GET requests are supported" (Some 405))
  \/ r = Plain (notFoundResponse "Unknown endpoint")
  \/ r = Plain (notFoundResponse "Unknown makes endpoint").

(** The answers given before the router is reached. *)
Definition turned_away (r : Reply) : Prop :=
  match r with
  | corsResponse | unauthorizedResponse _ | rateLimitResponse _ => True
  | _ => False
  end.

(** A path segment: not empty, without a slash. *)
Definition segment (s : string) : bool :=
  truthy_str s && forall_chars (fun c => negb (Ascii.eqb c "/")) s.

(** The path with the given segments. *)
Fixpoint path_of (parts : list string) : string :=
  match parts with
  | [] => EmptyString
  | p :: ps => ("/" ++ p ++ path_of ps)%string
  end.

(** The second segments the router recognises before it looks at the
    third. *)
Definition reserved (id : string) : bool :=
  existsb (String.eqb id) ["years"; "search"; "vin"; "decode"; "lookup"; "makes"].

(** The endpoint that was logged. *)
Definition logged_endpoint (served : Served) : option string :=
  usage_endpoint <$> usage served.

Definition key_holder : AuthResult :=
  {| isValid := true; auth_error := None; apiKeyId := "key-1";
     organizationId := "org-1"; rateLimit := 60 |}.

Definition stranger : AuthResult :=
  {| isValid := false; auth_error := Some "Invalid API key"; apiKeyId := EmptyString;
     organizationId := EmptyString; rateLimit := 0 |}.

Definition open_house : Collaborators :=
  {| handleCors := fun req => String.eqb (method req) "OPTIONS";
     authenticateRequest := fun _ => key_holder;
     checkRateLimit := fun _ _ => {| allowed := true; retryAfter := 0 |} |}.

Definition closed_house : Collaborators :=
  {| handleCors := fun req => String.eqb (method req) "OPTIONS";
     authenticateRequest := fun _ => stranger;
     checkRateLimit := fun _ _ => {| allowed := true; retryAfter := 0 |} |}.

Definition request_of (verb path : string) (params : list (string * string)) : Request :=
  {| method := verb; pathname := path; req_url := url_of params; X_Client_Source := None |}.

(** The cache keys of the list handlers and of the search, as the handlers
    build them. *)
Definition makes_key (url : URL) : string :=
  let year := searchParams_get url "year" in
  if truthy_ostr year
  then ("vehicles:makes:" ++ default EmptyString year)%string
  else "vehicles:makes:all".

Definition models_key (make : string) (url : URL) : string :=
  let year := searchParams_get url "year" in
  if truthy_ostr year
  then ("vehicles:models:" ++ default EmptyString year ++ ":" ++ toLowerCase make)%string
  else ("vehicles:models:all:" ++ toLowerCase make)%string.

Definition trims_key (make model : string) (url : URL) : string :=
  let year := searchParams_get url "year" in
  if truthy_ostr year
  then ("vehicles:trims:" ++ default EmptyString year ++ ":"
        ++ toLowerCase make ++ ":" ++ toLowerCase model)%string
  else ("vehicles:trims:all:" ++ toLowerCase make ++ ":" ++ toLowerCase model)%string.

Definition search_limit (url : URL) : jsnum :=
  Math_min (parseInt (default "20" (or_else (searchParams_get url "limit") (Some "20")))) 50.

Definition search_key (url : URL) : string :=
  ("vehicles:search:" ++ toLowerCase (js_trim (search_query url)) ++ ":"
   ++ string_of_jsnum (search_limit url))%string.

(** The same world with Redis answering or not. *)
Definition with_redis (up : bool) (w : World) : World :=
  {| db := db w; nhtsa := nhtsa w; redis_up := up; current_year := current_year w |}.

(** The same trace over an empty store. *)
Definition cold (s : St) : St := {| redis := ∅; trace := trace s |}.

(** A store that holds the list of years. *)
Definition warm : St :=
  {| redis := {[ "vehicles:years" := PYears [2021; 2020] ]}; trace := [] |}.

(** The view of the years does not exist. *)
Definition years_view_missing : Database :=
  {| vehicle_specs := Rows [camry; accord_lx; accord];
     vehicle_warranties := Rows [];
     vehicle_market_values := Rows [];
     vehicle_maintenance_schedules := Rows [];
     vehicle_years := Failing "42P01";
     vehicle_makes := Rows [];
     vehicle_models := Rows [];
     vehicle_autocomplete := Rows [] |}.

(** Every query on [vehicle_specs] fails. *)
Definition specs_unreachable : Database :=
  {| vehicle_specs := Failing "57014";
     vehicle_warranties := Rows [];
     vehicle_market_values := Rows [clean_accord; rough_accord];
     vehicle_maintenance_schedules := Rows [];
     vehicle_years := Rows [];
     vehicle_makes := Rows [];
     vehicle_models := Rows [];
     vehicle_autocomplete := Rows [] |}.

(** A row [handleLookup] asks for: make, model (hyphens as wildcards) and
    year as requested and, when a trim is given, a trim that starts with
    it. *)
Definition lookup_candidate (url : URL) (y : Z) (mk md : string) (sp : VehicleSpec) : bool :=
  same_vehicle y mk md sp
  && match searchParams_get url "trim" with
     | Some t => if truthy_str t then trim_matches t sp else true
     | None => true
     end.

(** The query [handleLookup] sends for the spec, as the handler builds
    it. *)
Definition lookup_spec_query (url : URL) (yearInt : Z) : query :=
  let make := default EmptyString (searchParams_get url "make") in
  let model := default EmptyString (searchParams_get url "model") in
  let trim := searchParams_get url "trim" in
  let modelPattern := replace_hyphens model in
  let base := select |> ilike "make" make |> ilike "model" modelPattern
                     |> eq "year" (LNum (Num yearInt)) in
  match trim with
  | Some t => if truthy_str t then base |> ilike "trim" (t ++ "%")%string else base
  | None => base
  end |> limit (Num 1).

(** The key under which the search fallback remembers a vehicle, read from
    a result. *)
Definition result_key (a : AutocompleteRecord) : string :=
  (string_of_Z (ac_year a) ++ "-" ++ ac_make a ++ "-" ++ ac_model a)%string.

(** * Properties *)

(** ** Sanity checks of the JavaScript and SQL primitives *)

Example parseInt_2024 : parseInt "2024" = Num 2024.
Proof. reflexivity. Qed.
Example parseInt_trailing : parseInt "45000km" = Num 45000.
Proof. reflexivity. Qed.
Example parseInt_hex : parseInt "0x7e8" = Num 2024.
Proof. reflexivity. Qed.
Example parseInt_word : parseInt "accord" = NaN.
Proof. reflexivity. Qed.
Example split_ws_ex : split_ws "2024  honda accord" = ["2024"; "honda"; "accord"].
Proof. reflexivity. Qed.
Example split_ws_edges : split_ws " a " = [""; "a"; ""].
Proof. reflexivity. Qed.
Example js_trim_ex : js_trim "  EX-L  " = "EX-L".
Proof. reflexivity. Qed.

Example uuid_ok : uuid_regex "3f2504e0-4f89-11d3-9a0c-0305e82c3301" = true.
Proof. reflexivity. Qed.
Example uuid_short : uuid_regex "3f2504e0-4f89-11d3-9a0c-0305e82c330" = false.
Proof. reflexivity. Qed.
Example vin_ok : vin_regex "1HGCV1F34LA000001" = true.
Proof. reflexivity. Qed.
Example vin_with_O : vin_regex "1HGCV1F34LAO00001" = false.
Proof. reflexivity. Qed.

Example ilike_crv : ilike_match (replace_hyphens "CR-V") "cr v" = true.
Proof. reflexivity. Qed.
Example ilike_prefix : ilike_match ("EX-L" ++ "%") "EX-L Navi" = true.
Proof. reflexivity. Qed.
Example ilike_exact : ilike_match "EX-L" "EX-L Navi" = false.
Proof. reflexivity. Qed.

(** ** VIN validation and decoding *)

Lemma map_string_length (f : ascii -> ascii) (s : string) :
  String.length (map_string f s) = String.length s.
Proof. induction s as [|c s IH]; simpl; [reflexivity | now rewrite IH]. Qed.

Lemma vin_regex_length (s : string) : vin_regex s = true -> String.length s = 17%nat.
Proof.
  unfold vin_regex. intros H. apply andb_prop in H as [H _].
  now apply Nat.eqb_eq in H.
Qed.

(** The first test of the handler passes exactly on 17 code units. *)
Lemma length_gate (s : string) :
  negb (truthy_str s) || negb (String.length s =? 17)%nat = false <->
  String.length s = 17%nat.
Proof.
  split.
  - intros H. apply orb_false_elim in H as [_ H].
    apply negb_false_iff in H. now apply Nat.eqb_eq.
  - intros H. destruct s as [|c s]; [discriminate|]. simpl truthy_str.
    rewrite H. reflexivity.
Qed.

(** C4. A string that does not match [A-HJ-NPR-Z0-9]{17} once put in upper
    case, in particular any string whose length is not 17, is answered with
    [invalid_vin]; the state is returned as it was, so the trace has no new
    event and the NHTSA service was not called. *)
Theorem C4_invalid_vin_without_fetch (w : World) (vin : string) (s : St) :
  vin_regex (toUpperCase vin) = false \/ String.length vin <> 17%nat ->
  exists message,
    handleVinDecode w vin s = (errorResponse "invalid_vin" message None, s).
Proof.
  intros H. unfold handleVinDecode.
  destruct (negb (truthy_str vin) || negb (String.length vin =? 17)%nat) eqn:Hlen.
  - eexists. reflexivity.
  - apply length_gate in Hlen.
    destruct H as [H | H]; [| contradiction].
    rewrite H. simpl. eexists. reflexivity.
Qed.

Lemma C4_witness :
  exists message,
    handleVinDecode (world_of no_rows offline) "1HGCV1F34LAO00001" fresh
    = (errorResponse "invalid_vin" message None, fresh).
Proof. apply C4_invalid_vin_without_fetch. left. reflexivity. Defined.

Lemma getValue_truthy (results : list NHTSAResult) (name c : string) :
  getValue results name = Some c -> truthy_str c = true.
Proof.
  unfold getValue. destruct (List.find _ results) as [r|]; [|discriminate].
  destruct (truthy_ostr (Value r)) eqn:E; [|discriminate].
  intros Hv. rewrite Hv in E. exact E.
Qed.

(** C5. When the NHTSA service answers and the decoded error code is
    present and is not "0", the handler still succeeds: the body is the
    decoded record, each field read from the service's answer by
    [getValue] or [getNumericValue] under the variable named, with a
    [warning] field holding the service's error text. *)
Theorem C5_error_code_becomes_warning
    (w : World) (vin : string) (s : St) (results : list NHTSAResult) (c : string) :
  vin_regex (toUpperCase vin) = true ->
  nhtsa w (toUpperCase vin) = Some results ->
  getValue results "Error Code" = Some c ->
  c <> "0" ->
  fst (handleVinDecode w vin s)
  = successResponse
      (PDecodedWarning
         {| vin := toUpperCase vin;
            year := getNumericValue results "Model Year";
            make := getValue results "Make";
            model := getValue results "Model";
            trim := getValue results "Trim";
            body_type := getValue results "Body Class";
            vehicle_type := getValue results "Vehicle Type";
            doors := getNumericValue results "Doors";
            engine :=
              {| cylinders := getNumericValue results "Engine Number of Cylinders";
                 displacement := getValue results "Displacement (L)";
                 horsepower := getNumericValue results "Engine Brake (hp) From";
                 fuel_type := getValue results "Fuel Type - Primary" |};
            drivetrain := getValue results "Drive Type";
            transmission := getValue results "Transmission Style";
            manufacturer := getValue results "Manufacturer Name";
            plant_country := getValue results "Plant Country";
            plant_city := getValue results "Plant City";
            error_code := Some c;
            error_text := getValue results "Error Text" |}
         (getValue results "Error Text")).
Proof.
  intros Hre Hsvc Hcode Hne. unfold handleVinDecode.
  assert (Hlen : String.length vin = 17%nat).
  { rewrite <- (map_string_length upper_char). now apply vin_regex_length. }
  apply length_gate in Hlen. rewrite Hlen, Hre. simpl negb. cbv iota.
  unfold decodeVinWithNHTSA, bind, emit, ret. rewrite Hsvc. simpl.
  rewrite Hcode. rewrite (getValue_truthy _ _ _ Hcode).
  destruct (String.eqb c "0") eqn:E; [apply String.eqb_eq in E; contradiction|].
  unfold decoded_of. rewrite Hcode. reflexivity.
Qed.

Lemma C5_witness :
  fst (handleVinDecode (world_of no_rows (fun _ => Some check_digit_failed))
         "1hgcv1f34la000001" fresh)
  = successResponse
      (PDecodedWarning
         {| vin := "1HGCV1F34LA000001";
            year := Some 2020;
            make := Some "HONDA";
            model := Some "Accord";
            trim := Some "EX-L";
            body_type := Some "Sedan/Saloon";
            vehicle_type := None;
            doors := Some 4;
            engine :=
              {| cylinders := Some 4;
                 displacement := Some "1.5";
                 horsepower := None;
                 fuel_type := Some "Gasoline" |};
            drivetrain := None;
            transmission := None;
            manufacturer := Some "AMERICAN HONDA MOTOR CO., INC.";
            plant_country := Some "UNITED STATES (USA)";
            plant_city := Some "MARYSVILLE";
            error_code := Some "1";
            error_text :=
              Some "1 - Check Digit (9th position) does not calculate properly" |}
         (Some "1 - Check Digit (9th position) does not calculate properly")).
Proof.
  apply (C5_error_code_becomes_warning _ "1hgcv1f34la000001" fresh check_digit_failed "1");
    [reflexivity | reflexivity | reflexivity | discriminate].
Defined.

(** ** Search: validation of the query *)

(** C6, counterexample. The query "a " has two code units and one after
    trimming: it is not refused; the cache is read, the view is queried and
    the (empty) result is cached. *)
Lemma C6_counterexample :
  (String.length (js_trim (search_query (url_of [("q", "a ")]))) < 2)%nat
  /\ handleVehicleSearch (world_of no_rows offline) (url_of [("q", "a ")]) fresh
     = (successResponse (PSearch []),
        {| redis := {[ "vehicles:search:a:20" := PSearch [] ]};
           trace := [ECacheGet "vehicles:search:a:20";
                     EQuery "vehicle_autocomplete";
                     ECacheSet "vehicles:search:a:20" 3600] |})
  /\ ~ short_after_trim_refused (world_of no_rows offline) (url_of [("q", "a ")]) fresh.
Proof.
  assert (E : handleVehicleSearch (world_of no_rows offline) (url_of [("q", "a ")]) fresh
     = (successResponse (PSearch []),
        {| redis := {[ "vehicles:search:a:20" := PSearch [] ]};
           trace := [ECacheGet "vehicles:search:a:20";
                     EQuery "vehicle_autocomplete";
                     ECacheSet "vehicles:search:a:20" 3600] |})).
  { vm_compute. reflexivity. }
  split; [vm_compute; lia|]. split; [exact E|].
  intros C. unfold short_after_trim_refused in C. rewrite E in C.
  assert (L : (String.length (js_trim (search_query (url_of [("q", "a ")]))) < 2)%nat)
    by (vm_compute; lia).
  specialize (C L). discriminate C.
Qed.

(** C6, as the code has it. The length test is made on the query as
    received, before it is trimmed: a query of fewer than two code units is
    refused with [invalid_params] and the state is untouched (no cache read,
    no database query). *)
Theorem C6_short_query_refused (w : World) (url : URL) (s : St) :
  (String.length (search_query url) < 2)%nat ->
  handleVehicleSearch w url s
  = (errorResponse "invalid_params" "Search query must be at least 2 characters" None, s).
Proof.
  intros H. unfold handleVehicleSearch.
  destruct (String.length (search_query url) <? 2)%nat eqn:E.
  - rewrite orb_true_r. reflexivity.
  - apply Nat.ltb_ge in E. lia.
Qed.

Lemma C6_witness :
  handleVehicleSearch (world_of no_rows offline) (url_of [("q", "a")]) fresh
  = (errorResponse "invalid_params" "Search query must be at least 2 characters" None, fresh).
Proof. apply C6_short_query_refused. vm_compute. lia. Defined.

(** ** Search: the tokenizer *)

Lemma in_range_spec (lo hi c : ascii) :
  in_range lo hi c = true <-> (code lo <= code c <= code hi)%N.
Proof.
  unfold in_range. rewrite andb_true_iff, !N.leb_le. tauto.
Qed.

Lemma digit_val_bound (radix : Z) (c : ascii) (d : Z) :
  digit_val radix c = Some d -> 0 <= d < radix.
Proof.
  unfold digit_val.
  destruct (is_digit c) eqn:Hd.
  - apply in_range_spec in Hd. change (code "0") with 48%N in Hd.
    destruct (_ <? radix) eqn:E; [|discriminate]. intros [= <-].
    apply Z.ltb_lt in E. lia.
  - destruct (is_lower c) eqn:Hl.
    + apply in_range_spec in Hl. change (code "a") with 97%N in Hl.
      destruct (_ <? radix) eqn:E; [|discriminate]. intros [= <-].
      apply Z.ltb_lt in E. lia.
    + destruct (is_upper c) eqn:Hu; [|discriminate].
      apply in_range_spec in Hu. change (code "A") with 65%N in Hu.
      destruct (_ <? radix) eqn:E; [|discriminate]. intros [= <-].
      apply Z.ltb_lt in E. lia.
Qed.

(** In radix 10 the digits are the characters 0 to 9. *)
Lemma digit_val_10 (c : ascii) :
  digit_val 10 c = if is_digit c then Some (Z.of_N (code c) - 48) else None.
Proof.
  unfold digit_val.
  destruct (is_digit c) eqn:Hd.
  - apply in_range_spec in Hd. change (code "0") with 48%N in Hd.
    change (code "9") with 57%N in Hd.
    destruct (_ <? 10) eqn:E; [reflexivity|]. apply Z.ltb_ge in E. lia.
  - destruct (is_lower c) eqn:Hl.
    + apply in_range_spec in Hl. change (code "a") with 97%N in Hl.
      destruct (_ <? 10) eqn:E; [|reflexivity]. apply Z.ltb_lt in E. lia.
    + destruct (is_upper c) eqn:Hu; [|reflexivity].
      apply in_range_spec in Hu. change (code "A") with 65%N in Hu.
      destruct (_ <? 10) eqn:E; [|reflexivity]. apply Z.ltb_lt in E. lia.
Qed.

(** What the digit loop can reach from an accumulator. *)
Lemma parse_digits_from (radix : Z) (s : string) (a n : Z) :
  2 <= radix -> 0 <= a ->
  parse_digits radix s (Some a) = Some n ->
  0 <= n < (a + 1) * radix ^ Z.of_nat (String.length s).
Proof.
  intros Hr. revert a. induction s as [|c s IH]; intros a Ha; simpl parse_digits.
  - intros [= <-]. simpl. lia.
  - destruct (digit_val radix c) as [d|] eqn:Hd.
    + apply digit_val_bound in Hd. intros Hp.
      apply IH in Hp; [|simpl; nia].
      simpl default in Hp. cbn [String.length].
      rewrite Nat2Z.inj_succ, Z.pow_succ_r by lia.
      assert (0 < radix ^ Z.of_nat (String.length s)) by (apply Z.pow_pos_nonneg; lia).
      nia.
    + intros [= <-]. cbn [String.length].
      assert (0 < radix ^ Z.of_nat (S (String.length s))) by (apply Z.pow_pos_nonneg; lia).
      nia.
Qed.

Lemma parse_digits_bound (radix : Z) (s : string) (n : Z) :
  2 <= radix ->
  parse_digits radix s None = Some n ->
  0 <= n < radix ^ Z.of_nat (String.length s).
Proof.
  intros Hr. destruct s as [|c s]; simpl parse_digits; [discriminate|].
  destruct (digit_val radix c) as [d|] eqn:Hd; [|discriminate].
  apply digit_val_bound in Hd. intros Hp. simpl default in Hp.
  apply parse_digits_from in Hp; [|lia|lia].
  cbn [String.length]. rewrite Nat2Z.inj_succ, Z.pow_succ_r by lia.
  assert (0 < radix ^ Z.of_nat (String.length s)) by (apply Z.pow_pos_nonneg; lia).
  nia.
Qed.

Lemma trimStart_length (s : string) :
  (String.length (trimStart s) <= String.length s)%nat.
Proof.
  induction s as [|c s IH]; simpl; [lia|].
  destruct (is_ws c); simpl; lia.
Qed.

Lemma trimStart_cons (c : ascii) (s : string) :
  trimStart (String c s) = if is_ws c then trimStart s else String c s.
Proof. reflexivity. Qed.

Lemma strip_sign_spec (s s2 : string) (sign : Z) :
  strip_sign s = (sign, s2) ->
  (sign = 1 /\ s2 = s)
  \/ ((sign = 1 \/ sign = -1) /\ (String.length s2 < String.length s)%nat).
Proof.
  unfold strip_sign. destruct s as [|c r].
  - intros [= <- <-]. left. split; reflexivity.
  - destruct (Ascii.eqb c "-"); [|destruct (Ascii.eqb c "+")]; intros [= <- <-];
      simpl; [right | right | left]; (split; [auto | try reflexivity; lia]).
Qed.

Lemma strip_radix_spec (s s3 : string) (radix : Z) :
  strip_radix s = (radix, s3) ->
  (radix = 10 /\ s3 = s)
  \/ (radix = 16 /\ (String.length s3 + 2 = String.length s)%nat).
Proof.
  unfold strip_radix. destruct s as [|c [|x r]]; try (intros [= <- <-]; left; split; reflexivity).
  destruct (_ && _); intros [= <- <-]; [right | left]; split; simpl; auto; lia.
Qed.

(** After the sign: at most three characters cannot reach 1000, and a
    four-character numeral with a radix prefix cannot reach 256. *)
Lemma unsigned_bound (s s3 : string) (radix n : Z) :
  strip_radix s = (radix, s3) ->
  parse_digits radix s3 None = Some n ->
  (String.length s <= 3)%nat ->
  0 <= n < 1000.
Proof.
  intros Hr Hp Hlen. apply strip_radix_spec in Hr as [[-> ->] | [-> Hl]];
    apply parse_digits_bound in Hp; try lia.
  - assert (10 ^ Z.of_nat (String.length s) <= 10 ^ 3) by (apply Z.pow_le_mono_r; lia).
    lia.
  - assert (16 ^ Z.of_nat (String.length s3) <= 16 ^ 1) by (apply Z.pow_le_mono_r; lia).
    lia.
Qed.

Lemma parseInt_short (s : string) (n : Z) :
  (String.length s <= 3)%nat -> parseInt s = Num n -> n < 1000.
Proof.
  intros Hlen. unfold parseInt.
  pose proof (trimStart_length s) as Ht.
  destruct (strip_sign (trimStart s)) as [sign s2] eqn:Es.
  destruct (strip_radix s2) as [radix s3] eqn:Er.
  destruct (parse_digits radix s3 None) as [m|] eqn:Hp; [|discriminate].
  intros [= <-].
  assert (Hs2 : (String.length s2 <= 3)%nat).
  { apply strip_sign_spec in Es as [[_ ->] | [_ Hl]]; lia. }
  pose proof (unsigned_bound _ _ _ _ Er Hp Hs2) as Hm.
  apply strip_sign_spec in Es as [[-> _] | [[-> | ->] _]]; lia.
Qed.

Lemma digit_not_ws (c : ascii) : is_digit c = true -> is_ws c = false.
Proof.
  intros H. apply in_range_spec in H. change (code "0") with 48%N in H.
  change (code "9") with 57%N in H. unfold is_ws.
  destruct (code c <=? 13)%N eqn:E1; [apply N.leb_le in E1; lia|].
  destruct (code c =? 32)%N eqn:E2; [apply N.eqb_eq in E2; lia|].
  destruct (code c =? 160)%N eqn:E3; [apply N.eqb_eq in E3; lia|].
  now rewrite andb_false_r.
Qed.

(** A four-digit numeral is read in full, in radix 10. *)
Lemma parseInt_four_digits (c1 c2 c3 c4 : ascii) :
  let token := String c1 (String c2 (String c3 (String c4 EmptyString))) in
  forall_chars is_digit token = true ->
  parseInt token = Num (decimal_value token).
Proof.
  intros token H. subst token. simpl in H.
  apply andb_prop in H as [H1 H]. apply andb_prop in H as [H2 H].
  apply andb_prop in H as [H3 H]. apply andb_prop in H as [H4 _].
  unfold parseInt. rewrite trimStart_cons, (digit_not_ws _ H1).
  unfold strip_sign. not_that_char c1 "-"%char. not_that_char c1 "+"%char.
  unfold strip_radix.
  replace (Ascii.eqb c2 "x" || Ascii.eqb c2 "X") with false
    by (not_that_char c2 "x"%char; not_that_char c2 "X"%char; reflexivity).
  rewrite andb_false_r. simpl parse_digits.
  rewrite !digit_val_10, H1. simpl. rewrite H2. simpl. rewrite H3. simpl.
  rewrite H4. simpl. unfold decimal_value. simpl. f_equal. lia.
Qed.

(** A four-character token that is not a numeral stays below 1000 (or is
    not a number at all). *)
Lemma parseInt_four_mixed (c1 c2 c3 c4 : ascii) (n : Z) :
  let token := String c1 (String c2 (String c3 (String c4 EmptyString))) in
  forall_chars is_digit token = false ->
  parseInt token = Num n ->
  n < 1000.
Proof.
  intros token Hmix. subst token. unfold parseInt.
  rewrite trimStart_cons. destruct (is_ws c1) eqn:Hws.
  - (* leading whitespace: at most three characters are left *)
    intros Hp.
    apply (parseInt_short (String c2 (String c3 (String c4 EmptyString))));
      [simpl; lia | exact Hp].
  - destruct (strip_sign _) as [sign s2] eqn:Es.
    destruct (strip_radix s2) as [radix s3] eqn:Er.
    destruct (parse_digits radix s3 None) as [m|] eqn:Hp; [|discriminate].
    intros [= <-].
    apply strip_sign_spec in Es as [[-> ->] | [Hsign Hl]].
    + (* no sign *)
      apply strip_radix_spec in Er as [[-> ->] | [-> Hl]].
      * (* radix 10: the digit loop stops at the first other character *)
        simpl in Hmix. simpl parse_digits in Hp. rewrite !digit_val_10 in Hp.
        destruct (is_digit c1) eqn:H1; [|discriminate]. simpl in Hp, Hmix.
        apply in_range_spec in H1. change (code "0") with 48%N in H1.
        change (code "9") with 57%N in H1.
        destruct (is_digit c2) eqn:H2; [|injection Hp as <-; lia]. simpl in Hp, Hmix.
        apply in_range_spec in H2. change (code "0") with 48%N in H2.
        change (code "9") with 57%N in H2.
        destruct (is_digit c3) eqn:H3; [|injection Hp as <-; lia]. simpl in Hp, Hmix.
        apply in_range_spec in H3. change (code "0") with 48%N in H3.
        change (code "9") with 57%N in H3.
        destruct (is_digit c4) eqn:H4; [discriminate|]. injection Hp as <-. lia.
      * apply parse_digits_bound in Hp; [|lia]. simpl in Hl.
        assert (16 ^ Z.of_nat (String.length s3) <= 16 ^ 2) by (apply Z.pow_le_mono_r; lia).
        lia.
    + simpl in Hl.
      assert (Hs2 : (String.length s2 <= 3)%nat) by lia.
      pose proof (unsigned_bound _ _ _ _ Er Hp Hs2). destruct Hsign as [-> | ->]; lia.
Qed.


(** ** The query engine *)

Section SortFacts.
Context {T : Type} (leb : T -> T -> bool).

Lemma insert_sorted_Forall (P : T -> Prop) (x : T) (l : list T) :
  P x -> Forall P l -> Forall P (insert_sorted leb x l).
Proof.
  intros Hx Hl. induction Hl as [|y l Hy Hl IH]; simpl.
  - constructor; [exact Hx | constructor].
  - destruct (leb x y); constructor; auto.
Qed.

Lemma sort_by_Forall (P : T -> Prop) (l : list T) :
  Forall P l -> Forall P (sort_by leb l).
Proof.
  intros Hl. induction Hl as [|x l Hx Hl IH]; simpl.
  - constructor.
  - now apply insert_sorted_Forall.
Qed.

Hypothesis leb_total : forall a b, leb a b = true \/ leb b a = true.
Hypothesis leb_trans : forall a b c, leb a b = true -> leb b c = true -> leb a c = true.

Lemma insert_sorted_sorted (x : T) (l : list T) :
  StronglySorted (fun a b => leb a b = true) l ->
  StronglySorted (fun a b => leb a b = true) (insert_sorted leb x l).
Proof.
  intros Hl. induction Hl as [|y l Hl IH Hy]; simpl.
  - constructor; constructor.
  - destruct (leb x y) eqn:E.
    + constructor; [constructor; assumption|].
      constructor; [exact E|].
      eapply List.Forall_impl; [|exact Hy]. intros z Hz. simpl in Hz. eauto.
    + constructor; [exact IH|].
      apply insert_sorted_Forall; [|exact Hy].
      destruct (leb_total x y) as [H|H]; [congruence | exact H].
Qed.

Lemma sort_by_sorted (l : list T) :
  StronglySorted (fun a b => leb a b = true) (sort_by leb l).
Proof.
  induction l as [|x l IH]; simpl; [constructor | now apply insert_sorted_sorted].
Qed.
End SortFacts.

Lemma StronglySorted_firstn {T} (R : T -> T -> Prop) (n : nat) (l : list T) :
  StronglySorted R l -> StronglySorted R (firstn n l).
Proof.
  intros Hl. revert n. induction Hl as [|x l Hl IH Hx]; intros [|n]; simpl;
    try constructor.
  - apply IH.
  - apply List.Forall_forall. intros y Hy. rewrite List.Forall_forall in Hx. apply Hx.
    revert Hy. clear. revert n. induction l as [|z l IH]; intros [|n]; simpl; try tauto.
    intros [->|H]; [now left | right; eauto].
Qed.

Lemma In_firstn {T} (n : nat) (l : list T) (x : T) : In x (firstn n l) -> In x l.
Proof.
  revert n. induction l as [|z l IH]; intros [|n]; simpl; try tauto.
  intros [->|H]; [now left | right; eauto].
Qed.

(** Without ORDER BY keys the rows keep the order of the table. *)
Lemma order_rows_no_keys {T} `{Table T} (l : list T) : order_rows [] l = l.
Proof.
  unfold order_rows. induction l as [|x l IH]; simpl; [reflexivity|].
  rewrite IH. destruct l; reflexivity.
Qed.

(** A query that succeeds ran on a table, with well-typed filters, and its
    rows are the selected ones, ordered and cut. *)
Lemma run_query_success {T} `{Table T} (rel : relation T) (q : query) :
  error (run_query rel q) = None ->
  exists rows,
    rel = Rows rows
    /\ forallb well_typed (q_filters q) = true
    /\ exists l, data (run_query rel q) = Some l
       /\ (forall x, In x l -> In x rows /\ matches (q_filters q) x = true)
       /\ (forall n, q_limit q = Some (Num n) -> (length l <= Z.to_nat n)%nat)
       /\ exists k, l = firstn k (order_rows (q_order q)
                                    (List.filter (matches (q_filters q)) rows)).
Proof.
  unfold run_query. destruct rel as [rows|c]; [|discriminate].
  destruct (forallb well_typed (q_filters q)) eqn:Hwt; simpl; [|discriminate].
  set (sel := order_rows (q_order q) (List.filter (matches (q_filters q)) rows)).
  assert (Hsel : forall x, In x sel -> In x rows /\ matches (q_filters q) x = true).
  { intros x Hx. apply List.filter_In. revert x Hx. apply List.Forall_forall.
    apply sort_by_Forall. apply List.Forall_forall. auto. }
  intros He. exists rows. split; [reflexivity|]. split; [reflexivity|].
  destruct (q_limit q) as [[n|]|].
  - destruct (n <? 0); [discriminate|]. eexists. split; [reflexivity|].
    split; [|split].
    + intros x Hx. apply Hsel. eapply In_firstn, Hx.
    + intros n' [= <-]. apply firstn_le_length.
    + eexists. reflexivity.
  - exists sel. split; [reflexivity|]. split; [exact Hsel|]. split; [discriminate|].
    exists (length sel). symmetry. apply firstn_all.
  - exists sel. split; [reflexivity|]. split; [exact Hsel|]. split; [discriminate|].
    exists (length sel). symmetry. apply firstn_all.
Qed.

(** [limit(1).single()] without ORDER BY returns the first matching row of
    the table. *)
Lemma first_match {T} `{Table T} (rows : list T) (q : query) :
  q_order q = [] ->
  forallb well_typed (q_filters q) = true ->
  row (single (run_query (Rows rows) (q |> limit (Num 1))))
  = List.find (matches (q_filters q)) rows.
Proof.
  intros Ho Hwt. unfold run_query, limit. simpl. rewrite Hwt, Ho. simpl.
  rewrite order_rows_no_keys. unfold single. simpl.
  induction rows as [|x rows IH]; simpl; [reflexivity|].
  destruct (matches (q_filters q) x); [|exact IH].
  simpl. reflexivity.
Qed.

(** ** Maintenance schedule *)

(** ORDER BY mileage ascending compares the mileage columns. *)
Lemma row_leb_mileage (a b : MaintenanceItem) :
  row_leb [("mileage", true)] a b = (mileage a <=? mileage b).
Proof.
  unfold row_leb, Z.leb. simpl.
  destruct (mileage a ?= mileage b); reflexivity.
Qed.

Lemma StronglySorted_weaken {T} (R R' : T -> T -> Prop) (l : list T) :
  (forall a b, R a b -> R' a b) -> StronglySorted R l -> StronglySorted R' l.
Proof.
  intros HR Hl. induction Hl as [|x l Hl IH Hx]; constructor; [exact IH|].
  eapply List.Forall_impl; [|exact Hx]. intros y. apply HR.
Qed.

Lemma order_by_mileage_sorted (l : list MaintenanceItem) :
  StronglySorted (fun a b => mileage a <= mileage b)
                 (order_rows [("mileage", true)] l).
Proof.
  unfold order_rows.
  pose proof (sort_by_sorted (T := MaintenanceItem) (row_leb [("mileage", true)])) as Hs.
  eapply StronglySorted_weaken; [|apply Hs].
  - intros a b Hab. apply Z.leb_le. rewrite <- row_leb_mileage. exact Hab.
  - intros a b. rewrite !row_leb_mileage, !Z.leb_le. lia.
  - intros a b c. rewrite !row_leb_mileage, !Z.leb_le. lia.
Qed.

(** The filters of the maintenance query are well typed exactly when the
    mileage bound, if any, is a number. *)
Lemma eval_gte_mileage (n : Z) (item : MaintenanceItem) :
  eval_filter (FGte "mileage" (Num n)) item = (n <=? mileage item).
Proof. reflexivity. Qed.

(** C8. A maintenance response that carries a schedule carries it sorted
    by ascending mileage, with at most 50 entries, and, when a non-empty
    [current_mileage] is supplied, [parseInt] reads it as a number and every
    entry has at least that mileage. *)
Theorem C8_maintenance_schedule
    (w : World) (vehicleId : string) (url : URL) (s : St)
    (schedules : list MaintenanceItem) :
  fst (handleMaintenance w vehicleId url s) = successResponse (PSchedules schedules) ->
  StronglySorted (fun a b => mileage a <= mileage b) schedules
  /\ (length schedules <= 50)%nat
  /\ (forall currentMileage,
        searchParams_get url "current_mileage" = Some currentMileage ->
        currentMileage <> EmptyString ->
        exists n, parseInt currentMileage = Num n
                  /\ Forall (fun item => n <= mileage item) schedules).
Proof.
  unfold handleMaintenance, from, bind, emit, ret. simpl.
  destruct (row (single _)) as [specs|]; [|discriminate].
  set (q0 := select |> eq "year" (LNum (Num (spec_year specs)))
                    |> ilike "make" (spec_make specs)
                    |> ilike "model" (spec_model specs)
                    |> order "mileage" true).
  set (q1 := match spec_trim specs with
             | Some t => if truthy_str t then q0 |> ilike "trim" (t ++ "%")%string else q0
             | None => q0
             end).
  set (q2 := match searchParams_get url "current_mileage" with
             | Some m => if truthy_str m then q1 |> gte "mileage" (parseInt m) else q1
             | None => q1
             end).
  assert (Ho : q_order q2 = [("mileage", true)]).
  { subst q2 q1 q0. destruct (spec_trim specs) as [t|]; [destruct (truthy_str t)|];
      (destruct (searchParams_get url "current_mileage") as [m|];
       [destruct (truthy_str m)|]); reflexivity. }
  assert (Hf : forall m, searchParams_get url "current_mileage" = Some m ->
                         m <> EmptyString -> In (FGte "mileage" (parseInt m)) (q_filters q2)).
  { intros m Hm Hne. subst q2. rewrite Hm.
    destruct m as [|c m]; [contradiction|]. simpl truthy_str. cbv iota.
    unfold gte, add_filter. simpl. apply in_or_app. right. now left. }
  destruct (error (run_query _ (q2 |> limit (Num 50)))) eqn:He; [discriminate|].
  apply run_query_success in He as (rows & _ & Hwt & l & Hd & Hin & Hlen & k & Hl).
  unfold rows_or_empty. rewrite Hd. simpl. intros [= <-].
  change (q_order (q2 |> limit (Num 50))) with (q_order q2) in Hl.
  change (q_filters (q2 |> limit (Num 50))) with (q_filters q2) in *.
  rewrite Ho in Hl. split; [|split].
  - rewrite Hl. apply StronglySorted_firstn, order_by_mileage_sorted.
  - apply (Hlen 50). reflexivity.
  - intros m Hm Hne. specialize (Hf m Hm Hne).
    rewrite forallb_forall in Hwt. pose proof (Hwt _ Hf) as Hty.
    destruct (parseInt m) as [n|]; [|discriminate]. exists n. split; [reflexivity|].
    apply List.Forall_forall. intros item Hitem. apply Hin in Hitem as [_ Hmatch].
    unfold matches in Hmatch. rewrite forallb_forall in Hmatch.
    specialize (Hmatch _ Hf). rewrite eval_gte_mileage in Hmatch. now apply Z.leb_le.
Qed.

Lemma C8_witness :
  StronglySorted (fun a b => mileage a <= mileage b) (List.map service_at (seq 6 50))
  /\ (length (List.map service_at (seq 6 50)) <= 50)%nat
  /\ (forall currentMileage,
        searchParams_get (url_of [("current_mileage", "30000")]) "current_mileage"
        = Some currentMileage ->
        currentMileage <> EmptyString ->
        exists n, parseInt currentMileage = Num n
                  /\ Forall (fun item => n <= mileage item)
                            (List.map service_at (seq 6 50))).
Proof.
  apply (C8_maintenance_schedule (world_of sixty_services offline)
           "3f2504e0-4f89-11d3-9a0c-0305e82c3301"
           (url_of [("current_mileage", "30000")]) fresh).
  vm_compute. reflexivity.
Defined.

(** C8, counterexample. The parameter [current_mileage=50000.9] denotes
    50000.9 miles; [parseInt] reads 50000 from it, and the schedule starts
    with the service at 50000 miles, which lies below the mileage
    supplied. *)
Lemma C8_counterexample :
  decimal_number "50000.9" = Some (500009 # 10)%Q
  /\ parseInt "50000.9" = Num 50000
  /\ fst (handleMaintenance (world_of sixty_services offline) (spec_id accord)
            (url_of [("current_mileage", "50000.9")]) fresh)
     = successResponse (PSchedules (List.map service_at (seq 10 50)))
  /\ In (service_at 10) (List.map service_at (seq 10 50))
  /\ mileage (service_at 10) = 50000
  /\ ~ upcoming_only (500009 # 10)%Q (List.map service_at (seq 10 50)).
Proof.
  split; [reflexivity|]. split; [reflexivity|].
  split; [vm_compute; reflexivity|].
  split; [now left|]. split; [reflexivity|].
  intros H. apply List.Forall_inv in H. vm_compute in H. apply H. reflexivity.
Qed.

(** ** Warranty *)

(** C2, counterexample. The spec record exists, there is no warranty row,
    and the answer is [not_found]. *)
Lemma C2_counterexample :
  has_spec (world_of accord_without_warranty offline) (spec_id accord)
  /\ no_warranty_rows (world_of accord_without_warranty offline) (spec_id accord)
  /\ fst (handleWarranty (world_of accord_without_warranty offline) (spec_id accord) fresh)
     = notFoundResponse "No warranty information found for this vehicle"
  /\ ~ no_warranty_is_empty_success (world_of accord_without_warranty offline)
        (spec_id accord) fresh.
Proof.
  assert (H1 : has_spec (world_of accord_without_warranty offline) (spec_id accord)).
  { exists [accord], accord. repeat split. now left. }
  assert (H2 : no_warranty_rows (world_of accord_without_warranty offline) (spec_id accord)).
  { exists []. split; [reflexivity|]. intros x []. }
  repeat split; try assumption.
  intros C. specialize (C H1 H2). discriminate C.
Qed.

Lemma filter_none {T} (f : T -> bool) (l : list T) :
  (forall x, In x l -> f x = false) -> List.filter f l = [].
Proof.
  induction l as [|x l IH]; simpl; intros H; [reflexivity|].
  rewrite (H x (or_introl Logic.eq_refl)). apply IH. intros y Hy. apply H. now right.
Qed.

(** C2, as the code has it. For a well-formed id with no warranty row the
    answer is [not_found], whether or not the spec record exists: the only
    external call of the handler is the query on [vehicle_warranties]. *)
Theorem C2_no_warranty_is_not_found
    (w : World) (vehicleId : string) (s : St) :
  uuid_regex vehicleId = true ->
  no_warranty_rows w vehicleId ->
  handleWarranty w vehicleId s
  = (notFoundResponse "No warranty information found for this vehicle",
     {| redis := redis s; trace := trace s ++ [EQuery "vehicle_warranties"] |}).
Proof.
  intros Hid (ws & Hws & Hnone). unfold handleWarranty. rewrite Hid. simpl negb. cbv iota.
  unfold from, bind, emit, ret. rewrite Hws. unfold run_query. simpl.
  rewrite order_rows_no_keys, filter_none; [reflexivity|].
  intros x Hx. unfold matches. simpl. rewrite andb_true_r.
  destruct (String.eqb (vehicle_spec_id x) vehicleId) eqn:E; [|reflexivity].
  apply String.eqb_eq in E. now apply Hnone in Hx.
Qed.

Lemma C2_witness :
  handleWarranty (world_of accord_without_warranty offline) (spec_id accord) fresh
  = (notFoundResponse "No warranty information found for this vehicle",
     {| redis := redis fresh; trace := trace fresh ++ [EQuery "vehicle_warranties"] |}).
Proof.
  apply C2_no_warranty_is_not_found; [reflexivity|].
  exists []. split; [reflexivity|]. intros x [].
Defined.

(** ** Market values *)

(** Ten cents per mile: the rounding is exact on integers. *)
Lemma round_ten_cents_per_mile (mileageDiff : Z) :
  Math_round (Qmult (Qmult (inject_Z mileageDiff) (Qopp (10 # 100))) (inject_Z 100))
  = -10 * mileageDiff.
Proof.
  unfold Math_round, Qfloor, Qplus, Qmult, Qopp, inject_Z. simpl.
  symmetry. apply (Z.div_unique _ _ _ 100); lia.
Qed.

(** *** The number of binary digits *)

Lemma digits2_pos_bounds (p : positive) :
  2 ^ (Zpos (digits2_pos p) - 1) <= Zpos p < 2 ^ Zpos (digits2_pos p).
Proof.
  induction p as [p IH|p IH|]; cbn [digits2_pos].
  - rewrite Pos2Z.inj_succ. replace (Z.succ (Zpos (digits2_pos p)) - 1) with (Zpos (digits2_pos p)) by lia.
    rewrite Z.pow_succ_r by lia.
    replace (2 ^ Zpos (digits2_pos p)) with (2 * 2 ^ (Zpos (digits2_pos p) - 1)) in *
      by (rewrite <- Z.pow_succ_r by lia; f_equal; lia).
    lia.
  - rewrite Pos2Z.inj_succ. replace (Z.succ (Zpos (digits2_pos p)) - 1) with (Zpos (digits2_pos p)) by lia.
    rewrite Z.pow_succ_r by lia.
    replace (2 ^ Zpos (digits2_pos p)) with (2 * 2 ^ (Zpos (digits2_pos p) - 1)) in *
      by (rewrite <- Z.pow_succ_r by lia; f_equal; lia).
    lia.
  - cbn. lia.
Qed.

Lemma digits2_pos_unique (p : positive) (j : Z) :
  2 ^ (j - 1) <= Zpos p < 2 ^ j -> Zpos (digits2_pos p) = j.
Proof.
  intros [Hlo Hhi]. pose proof (digits2_pos_bounds p) as [Dlo Dhi].
  set (d := Zpos (digits2_pos p)) in *.
  assert (Hd : 0 < d) by (subst d; lia).
  assert (Hj : 0 < j).
  { destruct (Z_lt_le_dec 0 j) as [H|H]; [exact H|].
    assert (2 ^ j <= 1).
    { destruct (Z.eq_dec j 0) as [->|]; [cbn; lia|].
      rewrite Z.pow_neg_r by lia. lia. }
    lia. }
  destruct (Z_lt_le_dec j d) as [H|H].
  - assert (2 ^ j <= 2 ^ (d - 1)) by (apply Z.pow_le_mono_r; lia). lia.
  - destruct (Z_lt_le_dec d j) as [H'|H']; [|lia].
    assert (2 ^ d <= 2 ^ (j - 1)) by (apply Z.pow_le_mono_r; lia). lia.
Qed.

(** *** Shifting right with round and sticky bits *)

Lemma iter_pos_nat {A} (f : A -> A) (p : positive) (x : A) :
  SpecFloat.iter_pos f p x = Nat.iter (Pos.to_nat p) f x.
Proof.
  revert x. induction p as [p IH|p IH|]; intros x; cbn [SpecFloat.iter_pos].
  - rewrite !IH, Pos2Nat.inj_xI.
    replace (S (2 * Pos.to_nat p)) with (Pos.to_nat p + (Pos.to_nat p + 1))%nat by lia.
    rewrite !Nat.iter_add. reflexivity.
  - rewrite !IH, Pos2Nat.inj_xO.
    replace (2 * Pos.to_nat p)%nat with (Pos.to_nat p + Pos.to_nat p)%nat by lia.
    rewrite Nat.iter_add. reflexivity.
  - reflexivity.
Qed.

Lemma odd_mod2 (a : Z) : Z.odd a = (a mod 2 =? 1).
Proof. rewrite Zmod_odd. now destruct (Z.odd a). Qed.

Lemma shr_1_spec (m : Z) (r s : bool) :
  0 <= m ->
  shr_1 {| shr_m := m; shr_r := r; shr_s := s |}
  = {| shr_m := m / 2; shr_r := Z.odd m; shr_s := r || s |}.
Proof.
  intros Hm. rewrite <- Z.div2_div.
  destruct m as [|[p|p|]|p]; try reflexivity. lia.
Qed.

Lemma shifted_iter (m : Z) (n : nat) :
  0 <= m ->
  shifted m (Z.of_nat (S n))
    (Nat.iter (S n) shr_1 {| shr_m := m; shr_r := false; shr_s := false |}).
Proof.
  intros Hm. induction n as [|n IH].
  - cbn [Nat.iter nat_rect]. rewrite shr_1_spec by exact Hm.
    unfold shifted. cbn [shr_m shr_r shr_s orb]. split; [apply Z.div_pos; lia|].
    exists 0. change (Z.of_nat 1) with 1. change (2 ^ 1) with 2. change (2 ^ (1 - 1)) with 1.
    repeat split; try lia.
    pose proof (Z.div_mod m 2 ltac:(lia)) as Hdm.
    pose proof (Z.mod_pos_bound m 2 ltac:(lia)) as Hb.
    rewrite odd_mod2. destruct (m mod 2 =? 1) eqn:E.
    + apply Z.eqb_eq in E. lia.
    + apply Z.eqb_neq in E. lia.
  - change (Nat.iter (S (S n)) shr_1 ?x) with (shr_1 (Nat.iter (S n) shr_1 x)).
    destruct (Nat.iter (S n) shr_1 _) as [q r s].
    destruct IH as (Hq & lo & Heq & Hlo & Hs). cbn [shr_m shr_r shr_s] in *.
    rewrite shr_1_spec by exact Hq. unfold shifted. cbn [shr_m shr_r shr_s].
    split; [apply Z.div_pos; lia|].
    replace (Z.of_nat (S (S n))) with (Z.succ (Z.of_nat (S n))) by lia.
    replace (Z.succ (Z.of_nat (S n)) - 1) with (Z.of_nat (S n)) by lia.
    rewrite Z.pow_succ_r by lia.
    set (X := 2 ^ Z.of_nat (S n)) in *.
    assert (HX : X = 2 * 2 ^ (Z.of_nat (S n) - 1)).
    { subst X. rewrite <- Z.pow_succ_r by lia. f_equal. lia. }
    set (Y := 2 ^ (Z.of_nat (S n) - 1)) in *.
    exists ((if r then Y else 0) + lo).
    pose proof (Z.div_mod q 2 ltac:(lia)) as Hdm.
    pose proof (Z.mod_pos_bound q 2 ltac:(lia)) as Hb.
    assert (HY : 0 < Y) by (subst Y; apply Z.pow_pos_nonneg; lia).
    rewrite odd_mod2. destruct (q mod 2 =? 1) eqn:E.
    + apply Z.eqb_eq in E. repeat split.
      * rewrite Heq. nia.
      * destruct r; lia.
      * destruct r; lia.
      * destruct r; cbn; [discriminate|]. intros ->. rewrite Hs by reflexivity. lia.
    + apply Z.eqb_neq in E. repeat split.
      * rewrite Heq. nia.
      * destruct r; lia.
      * destruct r; lia.
      * destruct r; cbn; [discriminate|]. intros ->. rewrite Hs by reflexivity. lia.
Qed.

Lemma shifted_shr (m : positive) (n : positive) :
  shifted (Zpos m) (Zpos n)
    (SpecFloat.iter_pos shr_1 n {| shr_m := Zpos m; shr_r := false; shr_s := false |}).
Proof.
  rewrite iter_pos_nat.
  destruct (Pos.to_nat n) as [|k] eqn:E; [lia|].
  replace (Zpos n) with (Z.of_nat (S k)) by lia.
  apply shifted_iter. lia.
Qed.

(** Rounding to nearest even is within half a unit. *)
Lemma round_nearest_even_shifted (m n : Z) (mrs : shr_record) :
  0 < n -> shifted m n mrs ->
  let R := round_nearest_even (shr_m mrs) (loc_of_shr_record mrs) in
  shr_m mrs <= R <= shr_m mrs + 1
  /\ Z.abs (R * 2 ^ n - m) <= 2 ^ (n - 1).
Proof.
  intros Hn (Hq & lo & Heq & Hlo & Hs) R. subst R.
  destruct mrs as [q r s]. cbn [shr_m shr_r shr_s loc_of_shr_record] in *.
  assert (HX : 2 ^ n = 2 * 2 ^ (n - 1)).
  { rewrite <- Z.pow_succ_r by lia. f_equal. lia. }
  set (Y := 2 ^ (n - 1)) in *. rewrite HX.
  destruct r, s; cbn [round_nearest_even].
  - split; [lia|]. nia.
  - rewrite Hs in * by reflexivity. destruct (Z.even q); split; try lia; nia.
  - split; [lia|]. nia.
  - rewrite Hs in * by reflexivity. split; [lia|]. nia.
Qed.

(** *** Rounding a product to binary64 *)

Lemma fexp_normal (x : Z) : -1021 <= x -> fexp 53 1024 x = x - 53.
Proof. intros H. unfold fexp, emin. lia. Qed.

Lemma pow2_split (n : Z) : 0 < n -> 2 ^ n = 2 * 2 ^ (n - 1).
Proof. intros H. rewrite <- Z.pow_succ_r by lia. f_equal. lia. Qed.

Lemma pow2_add (a n : Z) : 0 <= a -> 0 <= n -> 2 ^ (a + n) = 2 ^ a * 2 ^ n.
Proof. intros. apply Z.pow_add_r; lia. Qed.

Lemma binary_round_aux_normal (s : bool) (m : positive) (e n : Z) :
  0 < n ->
  2 ^ (52 + n) <= Zpos m < 2 ^ (53 + n) ->
  -1074 <= e + n -> e + n + 1 <= 971 ->
  exists M E,
    binary_round_aux 53 1024 s (Zpos m) e loc_Exact = S754_finite s M E
    /\ 2 ^ 52 <= Zpos M < 2 ^ 53
    /\ ((E = e + n /\ Z.abs (Zpos M * 2 ^ n - Zpos m) <= 2 ^ (n - 1))
        \/ (E = e + n + 1 /\ Zpos M = 2 ^ 52
            /\ Z.abs (2 ^ 53 * 2 ^ n - Zpos m) <= 2 ^ (n - 1))).
Proof.
  intros Hn Hm Hlo Hhi.
  unfold binary_round_aux, shr_fexp. cbn [Zdigits2].
  rewrite (digits2_pos_unique m (53 + n))
    by (replace (53 + n - 1) with (52 + n) by lia; exact Hm).
  rewrite fexp_normal by lia.
  replace (53 + n + e - 53 - e) with n by lia.
  destruct n as [|pn|pn]; try lia.
  cbn [shr_record_of_loc shr].
  pose proof (shifted_shr m pn) as Hsh.
  pose proof (round_nearest_even_shifted (Zpos m) (Zpos pn) _ Hn Hsh) as [HR Herr].
  set (mrs := SpecFloat.iter_pos shr_1 pn _) in *.
  set (R := round_nearest_even (shr_m mrs) (loc_of_shr_record mrs)) in *.
  assert (HX : 2 ^ Zpos pn = 2 * 2 ^ (Zpos pn - 1)) by (apply pow2_split; lia).
  assert (H52 : 2 ^ (52 + Zpos pn) = 2 ^ 52 * 2 ^ Zpos pn) by (apply pow2_add; lia).
  assert (H53 : 2 ^ (53 + Zpos pn) = 2 ^ 53 * 2 ^ Zpos pn) by (apply pow2_add; lia).
  assert (HY : 0 < 2 ^ (Zpos pn - 1)) by (apply Z.pow_pos_nonneg; lia).
  set (Y := 2 ^ (Zpos pn - 1)) in *.
  rewrite H52, H53, HX in Hm. rewrite HX in Herr.
  change (2 ^ 52) with 4503599627370496 in *.
  change (2 ^ 53) with 9007199254740992 in *.
  assert (HRlo : 4503599627370496 <= R) by nia.
  assert (HRhi : R <= 9007199254740992) by nia.
  destruct R as [|pR|pR] eqn:ER; try lia.
  destruct (Z.eq_dec (Zpos pR) 9007199254740992) as [Heq|Hne].
  - injection Heq as ->.
    change (Zdigits2 9007199254740992) with 54.
    rewrite fexp_normal by lia.
    replace (54 + (e + Zpos pn) - 53 - (e + Zpos pn)) with 1 by lia.
    cbv beta iota zeta delta [shr shr_record_of_loc SpecFloat.iter_pos shr_1 shr_m orb].
    replace (e + Zpos pn + 1 <=? 1024 - 53) with true by (symmetry; apply Z.leb_le; lia).
    eexists _, _. split; [reflexivity|]. split; [cbn; lia|]. right.
    split; [reflexivity|]. split; [reflexivity|]. rewrite HX. exact Herr.
  - cbn [Zdigits2].
    rewrite (digits2_pos_unique pR 53) by (cbn; lia).
    rewrite fexp_normal by lia.
    replace (53 + (e + Zpos pn) - 53 - (e + Zpos pn)) with 0 by lia.
    cbv beta iota zeta delta [shr shr_record_of_loc shr_m].
    replace (e + Zpos pn <=? 1024 - 53) with true by (symmetry; apply Z.leb_le; lia).
    exists pR, (e + Zpos pn). split; [reflexivity|]. split; [lia|]. left.
    split; [reflexivity|]. rewrite HX. exact Herr.
Qed.

(** One product with a normalised constant: the result is normalised, its
    exponent is raised by [t] and it is within half a unit of the product. *)
Lemma product_normal (s sc : bool) (Dm Cm : positive) (e0 ec : Z) :
  2 ^ 52 <= Zpos Dm < 2 ^ 53 ->
  2 ^ 52 <= Zpos Cm < 2 ^ 53 ->
  -1100 <= e0 + ec <= 800 ->
  exists M E t,
    SFmul 53 1024 (S754_finite s Dm e0) (S754_finite sc Cm ec)
    = S754_finite (xorb s sc) M E
    /\ 2 ^ 52 <= Zpos M < 2 ^ 53
    /\ (t = 52 \/ t = 53 \/ t = 54)
    /\ E = e0 + ec + t
    /\ Z.abs (Zpos M * 2 ^ t - Zpos Dm * Zpos Cm) <= 2 ^ (t - 1).
Proof.
  intros HD HC He. cbn [SFmul].
  assert (Hm : 2 ^ 104 <= Zpos (Dm * Cm) < 2 ^ 106).
  { rewrite Pos2Z.inj_mul. change (2 ^ 104) with (2 ^ 52 * 2 ^ 52).
    change (2 ^ 106) with (2 ^ 53 * 2 ^ 53). nia. }
  destruct (Z_lt_le_dec (Zpos (Dm * Cm)) (2 ^ 105)) as [H|H].
  - destruct (binary_round_aux_normal (xorb s sc) (Dm * Cm) (e0 + ec) 52)
      as (M & E & Heq & HM & Hv); try lia.
    rewrite Pos2Z.inj_mul in Hv.
    destruct Hv as [[-> Hv] | [-> [HM' Hv]]].
    + exists M, (e0 + ec + 52), 52.
      split; [exact Heq|]. split; [exact HM|]. split; [now left|].
      split; [reflexivity|]. exact Hv.
    + exists M, (e0 + ec + 53), 53.
      split; [rewrite Heq; f_equal; lia|]. split; [exact HM|]. split; [right; now left|].
      split; [reflexivity|].
      rewrite HM'. change (2 ^ 52 * 2 ^ 53) with (2 ^ 53 * 2 ^ 52).
      change (2 ^ (53 - 1)) with (2 * 2 ^ (52 - 1)). lia.
  - destruct (binary_round_aux_normal (xorb s sc) (Dm * Cm) (e0 + ec) 53)
      as (M & E & Heq & HM & Hv); try lia.
    rewrite Pos2Z.inj_mul in Hv.
    destruct Hv as [[-> Hv] | [-> [HM' Hv]]].
    + exists M, (e0 + ec + 53), 53.
      split; [exact Heq|]. split; [exact HM|]. split; [right; now left|].
      split; [reflexivity|]. exact Hv.
    + exists M, (e0 + ec + 54), 54.
      split; [rewrite Heq; f_equal; lia|]. split; [exact HM|]. split; [right; now right|].
      split; [reflexivity|].
      rewrite HM'. change (2 ^ 52 * 2 ^ 54) with (2 ^ 53 * 2 ^ 53).
      change (2 ^ (54 - 1)) with (2 * 2 ^ (53 - 1)). lia.
Qed.

Lemma hundred_binary64 : binary64_of_Z 100 = S754_finite false 7036874417766400 (-46).
Proof. reflexivity. Qed.

(** The two products of the adjustment, for a normalised factor. *)
Lemma products_normal (s : bool) (Dm : positive) (e0 : Z) :
  2 ^ 52 <= Zpos Dm < 2 ^ 53 ->
  -52 <= e0 <= -7 ->
  exists M2 pe c,
    binary64_mul (binary64_mul (S754_finite s Dm e0) minus_tenth) (binary64_of_Z 100)
    = S754_finite (negb s) M2 (Zneg pe)
    /\ 2 <= c <= 6
    /\ Zneg pe = e0 + c
    /\ Z.abs (2 ^ c * Zpos M2 - 10 * Zpos Dm) <= 50.
Proof.
  intros HD He. rewrite hundred_binary64. unfold binary64_mul, minus_tenth.
  destruct (product_normal s true Dm 7205759403792794 e0 (-56) HD)
    as (M1 & E1 & t1 & Heq1 & HM1 & Ht1 & HE1 & Hv1); [cbn; lia | lia |].
  rewrite Heq1.
  destruct (product_normal (xorb s true) false M1 7036874417766400 E1 (-46) HM1)
    as (M2 & E2 & t2 & Heq2 & HM2 & Ht2 & HE2 & Hv2);
    [cbn; lia | destruct Ht1 as [-> | [-> | ->]]; lia |].
  rewrite Heq2. replace (xorb (xorb s true) false) with (negb s) by (now destruct s).
  destruct E2 as [|pe|pe] eqn:EE2; [destruct Ht1 as [-> | [-> | ->]], Ht2 as [-> | [-> | ->]]; lia..|].
  exists M2, pe, (t1 + t2 - 102). split; [reflexivity|].
  change (2 ^ 52) with 4503599627370496 in *.
  change (2 ^ 53) with 9007199254740992 in *.
  destruct Ht1 as [-> | [-> | ->]], Ht2 as [-> | [-> | ->]];
    (split; [lia|]); (split; [lia|]);
    repeat match goal with
           | H : context [2 ^ ?n] |- _ =>
               is_ground n; let v := eval vm_compute in (2 ^ n) in change (2 ^ n) with v in H
           | |- context [2 ^ ?n] =>
               is_ground n; let v := eval vm_compute in (2 ^ n) in change (2 ^ n) with v
           end;
    lia.
Qed.

(** *** Integers as doubles *)

Lemma binary_round_aux_exact (s : bool) (M : positive) (e : Z) :
  2 ^ 52 <= Zpos M < 2 ^ 53 ->
  -1074 <= e <= 971 ->
  binary_round_aux 53 1024 s (Zpos M) e loc_Exact = S754_finite s M e.
Proof.
  intros HM He. unfold binary_round_aux, shr_fexp. cbn [Zdigits2].
  rewrite (digits2_pos_unique M 53) by exact HM.
  rewrite fexp_normal by lia. replace (53 + e - 53 - e) with 0 by lia.
  cbn [shr_record_of_loc shr shr_m loc_of_shr_record round_nearest_even Zdigits2].
  rewrite (digits2_pos_unique M 53) by exact HM.
  rewrite fexp_normal by lia. replace (53 + e - 53 - e) with 0 by lia.
  cbn [shr_record_of_loc shr shr_m].
  replace (e <=? 1024 - 53) with true by (symmetry; apply Z.leb_le; lia).
  reflexivity.
Qed.

Lemma iter_xO (p q : positive) : Zpos (Pos.iter xO p q) = Zpos p * 2 ^ Zpos q.
Proof.
  induction q as [|q IH] using Pos.peano_ind.
  - cbn. lia.
  - rewrite Pos.iter_succ, Pos2Z.inj_succ, Z.pow_succ_r by lia.
    rewrite Pos2Z.inj_xO, IH. lia.
Qed.

Lemma binary64_of_Z_normal (d : Z) :
  d <> 0 -> Z.abs d < 2 ^ 46 ->
  exists Dm e0,
    binary64_of_Z d = S754_finite (d <? 0) Dm e0
    /\ 2 ^ 52 <= Zpos Dm < 2 ^ 53
    /\ -52 <= e0 <= -7
    /\ Zpos Dm = Z.abs d * 2 ^ (- e0).
Proof.
  intros Hd Hlt. unfold binary64_of_Z.
  assert (Hgen : forall (s : bool) (p : positive), Zpos p < 2 ^ 46 ->
            exists Dm e0,
              binary_round 53 1024 s p 0 = S754_finite s Dm e0
              /\ 2 ^ 52 <= Zpos Dm < 2 ^ 53
              /\ -52 <= e0 <= -7
              /\ Zpos Dm = Zpos p * 2 ^ (- e0)).
  { clear. intros s p Hp. unfold binary_round.
    pose proof (digits2_pos_bounds p) as Hk.
    set (k := Zpos (digits2_pos p)) in *.
    assert (Hk1 : 1 <= k) by (subst k; lia).
    assert (Hk46 : k <= 46).
    { destruct (Z_lt_le_dec 46 k) as [H|H]; [|exact H].
      assert (2 ^ 46 <= 2 ^ (k - 1)) by (apply Z.pow_le_mono_r; lia). lia. }
    rewrite fexp_normal by lia. unfold shl_align.
    replace (k + 0 - 53) with (k - 53) by lia.
    replace (k - 53 - 0) with (k - 53) by lia.
    destruct (k - 53) as [|q|q] eqn:Eq; try lia.
    assert (Hq : Zpos q = 53 - k) by lia.
    assert (Hpow : 2 ^ 53 = 2 ^ k * 2 ^ Zpos q)
      by (rewrite <- Z.pow_add_r by lia; f_equal; lia).
    assert (Hpow' : 2 ^ 52 = 2 ^ (k - 1) * 2 ^ Zpos q)
      by (rewrite <- Z.pow_add_r by lia; f_equal; lia).
    assert (HQ : 0 < 2 ^ Zpos q) by (apply Z.pow_pos_nonneg; lia).
    assert (HM : 2 ^ 52 <= Zpos (Pos.iter xO p q) < 2 ^ 53).
    { rewrite iter_xO, Hpow, Hpow'. nia. }
    exists (Pos.iter xO p q), (Zneg q).
    split; [apply binary_round_aux_exact; [exact HM | lia]|].
    split; [exact HM|]. split; [lia|].
    rewrite iter_xO. reflexivity. }
  destruct d as [|p|p]; [contradiction| |]; cbn [binary_normalize Z.ltb Z.compare Z.abs] in *.
  - apply Hgen. exact Hlt.
  - apply Hgen. exact Hlt.
Qed.

(** *** The adjustment in binary64 is exact below 2^46 *)

Lemma adjustment_binary64_exact (d : Z) :
  Z.abs d < 2 ^ 46 -> adjustment_binary64 d = Some (-10 * d).
Proof.
  intros Hd. destruct (Z.eq_dec d 0) as [-> | Hne]; [reflexivity|].
  destruct (binary64_of_Z_normal d Hne Hd) as (Dm & e0 & Heq & HD & He & HDm).
  destruct (products_normal (d <? 0) Dm e0 HD He) as (M2 & pe & c & Hres & Hc & Hpe & Herr).
  unfold adjustment_binary64. rewrite Heq, Hres. cbn [Q_of_binary64 fmap option_fmap option_map].
  f_equal. unfold Math_round, Qfloor, Qplus. cbn [Qnum Qden].
  rewrite Pos2Z.inj_mul, Pos2Z.inj_pow.
  assert (Hb : 0 < 2 ^ Zpos pe) by (apply Z.pow_pos_nonneg; lia).
  assert (HT : 2 ^ (- e0) = 2 ^ c * 2 ^ Zpos pe)
    by (rewrite <- Z.pow_add_r by lia; f_equal; lia).
  assert (HT128 : 2 ^ 7 <= 2 ^ (- e0)) by (apply Z.pow_le_mono_r; lia).
  set (b := 2 ^ Zpos pe) in *. rewrite HT in HDm, HT128. clear HT.
  change (2 ^ 7) with 128 in HT128.
  assert (HW : Zpos Dm = 2 ^ c * (Z.abs d * b)) by (rewrite HDm; ring).
  assert (Hcases : c = 2 \/ c = 3 \/ c = 4 \/ c = 5 \/ c = 6) by lia.
  clear Heq Hres HDm Hpe He Hc HD Hd.
  destruct d as [|p|p]; [contradiction| |]; cbn [Z.ltb Z.compare negb Z.abs] in *.
  - symmetry. apply (Z.div_unique _ _ _ (Zneg M2 * 2 + b + 20 * (Zpos p * b))).
    + left. set (W := Zpos p * b) in *.
      change (Zneg M2) with (- Zpos M2).
      destruct Hcases as [-> | [-> | [-> | [-> | ->]]]];
        repeat match goal with
               | H : context [2 ^ ?n] |- _ =>
                   is_ground n; let v := eval vm_compute in (2 ^ n) in
                   change (2 ^ n) with v in H
               end; lia.
    + ring.
  - symmetry. apply (Z.div_unique _ _ _ (Zpos M2 * 2 + b - 20 * (Zpos p * b))).
    + left. set (W := Zpos p * b) in *.
      destruct Hcases as [-> | [-> | [-> | [-> | ->]]]];
        repeat match goal with
               | H : context [2 ^ ?n] |- _ =>
                   is_ground n; let v := eval vm_compute in (2 ^ n) in
                   change (2 ^ n) with v in H
               end; lia.
    + change (Zneg p) with (- Zpos p). ring.
Qed.

(** *** Integers below 2^53 are doubles *)

Lemma shl_align_spec (mx : positive) (ex ex' : Z) :
  ex' <= ex ->
  shl_align mx ex ex' = (fst (shl_align mx ex ex'), ex')
  /\ Zpos (fst (shl_align mx ex ex')) = Zpos mx * 2 ^ (ex - ex').
Proof.
  intros H. unfold shl_align. destruct (ex' - ex) as [|d|d] eqn:E; try lia; cbn [fst snd].
  - replace (ex - ex') with 0 by lia. replace ex' with ex by lia. split; [reflexivity|lia].
  - rewrite iter_xO. replace (ex - ex') with (Zpos d) by lia. split; reflexivity.
Qed.

Lemma normal_unique (X a b : Z) :
  0 <= a -> 0 <= b ->
  2 ^ 52 <= X * 2 ^ a < 2 ^ 53 -> 2 ^ 52 <= X * 2 ^ b < 2 ^ 53 -> a = b.
Proof.
  assert (Hlt : forall a b, 0 <= a -> a < b ->
            2 ^ 52 <= X * 2 ^ a < 2 ^ 53 -> 2 ^ 52 <= X * 2 ^ b < 2 ^ 53 -> False).
  { clear. intros a b Ha Hab HA HB.
    replace b with (a + (b - a)) in HB by lia.
    rewrite Z.pow_add_r in HB by lia.
    assert (HK : 2 ^ 1 <= 2 ^ (b - a)) by (apply Z.pow_le_mono_r; lia).
    change (2 ^ 1) with 2 in HK. change (2 ^ 53) with (2 * 2 ^ 52) in *.
    set (A := X * 2 ^ a) in *. set (K := 2 ^ (b - a)) in *.
    replace (X * (2 ^ a * K)) with (A * K) in HB by (subst A; ring).
    set (P := 2 ^ 52) in *. assert (0 < P) by (subst P; reflexivity). nia. }
  intros Ha Hb HA HB.
  destruct (Z.lt_trichotomy a b) as [H | [H | H]]; [|exact H|].
  - exfalso. exact (Hlt a b Ha H HA HB).
  - exfalso. exact (Hlt b a Hb H HB HA).
Qed.

Lemma digits_below_53 (X d : Z) :
  0 < X < 2 ^ 53 -> 2 ^ (d - 1) <= X < 2 ^ d -> 1 <= d <= 53.
Proof.
  intros HX Hd. split.
  - destruct (Z_lt_le_dec d 1) as [H|H]; [|exact H].
    assert (2 ^ d <= 2 ^ 0).
    { destruct (Z_lt_le_dec d 0) as [Hn|Hn].
      - rewrite Z.pow_neg_r by lia. cbn. lia.
      - apply Z.pow_le_mono_r; lia. }
    change (2 ^ 0) with 1 in *. lia.
  - destruct (Z_lt_le_dec 53 d) as [H|H]; [|exact H].
    assert (2 ^ 53 <= 2 ^ (d - 1)) by (apply Z.pow_le_mono_r; lia). lia.
Qed.

Lemma binary_round_integer (s : bool) (p : positive) (k X : Z) :
  0 <= k <= 900 -> 0 < X < 2 ^ 53 -> Zpos p = X * 2 ^ k ->
  exists N E,
    binary_round 53 1024 s p (- k) = S754_finite s N E
    /\ 2 ^ 52 <= Zpos N < 2 ^ 53 /\ -52 <= E <= 0 /\ Zpos N = X * 2 ^ (- E).
Proof.
  intros Hk HX Hp.
  pose proof (Z.log2_spec X ltac:(lia)) as HdX.
  set (dX := Z.succ (Z.log2 X)) in *.
  replace (Z.log2 X) with (dX - 1) in HdX by (subst dX; lia).
  pose proof (digits_below_53 X dX HX HdX) as HdX53.
  assert (HK : 0 < 2 ^ k) by (apply Z.pow_pos_nonneg; lia).
  assert (Hdp : Zpos (digits2_pos p) = dX + k).
  { apply digits2_pos_unique. rewrite Hp.
    replace (dX + k - 1) with (dX - 1 + k) by lia.
    rewrite !Z.pow_add_r by lia. nia. }
  assert (HY : 2 ^ 52 <= X * 2 ^ (53 - dX) < 2 ^ 53).
  { assert (E52 : 2 ^ 52 = 2 ^ (dX - 1) * 2 ^ (53 - dX))
      by (rewrite <- Z.pow_add_r by lia; f_equal; lia).
    assert (E53 : 2 ^ 53 = 2 ^ dX * 2 ^ (53 - dX))
      by (rewrite <- Z.pow_add_r by lia; f_equal; lia).
    rewrite E52, E53.
    assert (0 < 2 ^ (53 - dX)) by (apply Z.pow_pos_nonneg; lia). nia. }
  unfold binary_round. rewrite Hdp. rewrite fexp_normal by lia.
  unfold shl_align.
  destruct (dX + k + - k - 53 - - k) as [|n|d] eqn:En.
  - exists p, (- k). split; [apply binary_round_aux_exact; [|lia]|].
    + replace k with (53 - dX) in Hp by lia. rewrite Hp. exact HY.
    + split; [|split; [lia|]].
      * replace k with (53 - dX) in Hp by lia. rewrite Hp. exact HY.
      * rewrite Hp. f_equal. f_equal. lia.
  - assert (Hn : Zpos n = dX + k - 53) by lia.
    destruct (binary_round_aux_normal s p (- k) (Zpos n)) as (M & E & Heq & HM & Hcase);
      try lia.
    { replace (52 + Zpos n) with (dX + k - 1) by lia.
      replace (53 + Zpos n) with (dX + k) by lia.
      rewrite Hp. replace (dX + k - 1) with (dX - 1 + k) by lia.
      rewrite !Z.pow_add_r by lia. nia. }
    assert (Hsplit : Zpos p = X * 2 ^ (53 - dX) * 2 ^ Zpos n).
    { rewrite Hp, <- Z.mul_assoc, <- Z.pow_add_r by lia. do 2 f_equal. lia. }
    set (Y := X * 2 ^ (53 - dX)) in *.
    assert (HH : 2 ^ Zpos n = 2 * 2 ^ (Zpos n - 1)) by (apply pow2_split; lia).
    assert (Hh : 0 < 2 ^ (Zpos n - 1)) by (apply Z.pow_pos_nonneg; lia).
    set (H2 := 2 ^ (Zpos n - 1)) in *. rewrite Hsplit, HH in Hcase.
    destruct Hcase as [[HE Herr] | [HE [HM52 Herr]]].
    + assert (HMY : Zpos M = Y) by nia.
      exists M, E. split; [exact Heq|]. split; [exact HM|]. split; [lia|].
      rewrite HMY. subst Y. do 2 f_equal. lia.
    + exfalso. nia.
  - assert (Hd : Zpos d = 53 - dX - k) by lia.
    exists (Pos.iter xO p d), (dX + k + - k - 53).
    assert (HN : Zpos (Pos.iter xO p d) = X * 2 ^ (53 - dX)).
    { rewrite iter_xO, Hp, <- Z.mul_assoc, <- Z.pow_add_r by lia. do 2 f_equal. lia. }
    split; [apply binary_round_aux_exact; [|lia]|].
    + rewrite HN. exact HY.
    + split; [rewrite HN; exact HY|]. split; [lia|].
      rewrite HN. do 2 f_equal. lia.
Qed.

Lemma normal_form_unique (X : Z) (N N' : positive) (E E' : Z) :
  E <= 0 -> E' <= 0 ->
  2 ^ 52 <= Zpos N < 2 ^ 53 -> 2 ^ 52 <= Zpos N' < 2 ^ 53 ->
  Zpos N = X * 2 ^ (- E) -> Zpos N' = X * 2 ^ (- E') ->
  N = N' /\ E = E'.
Proof.
  intros HE HE' HN HN' HX HX'.
  assert (HEE : - E = - E').
  { apply (normal_unique X);
      [lia | lia | rewrite <- HX; exact HN | rewrite <- HX'; exact HN']. }
  assert (E = E') by lia. subst E'. split; [|reflexivity].
  assert (Zpos N = Zpos N') by lia. congruence.
Qed.

Lemma binary_round_scaled (s : bool) (p : positive) (k X : Z) :
  0 <= k <= 900 -> 0 < X < 2 ^ 53 -> Zpos p = X * 2 ^ k ->
  binary_round 53 1024 s p (- k) = binary_round 53 1024 s (Z.to_pos X) 0.
Proof.
  intros Hk HX Hp.
  destruct (binary_round_integer s p k X Hk HX Hp) as (N & E & -> & HN & HE & HNX).
  destruct (binary_round_integer s (Z.to_pos X) 0 X) as (N' & E' & Heq & HN' & HE' & HNX');
    [lia | exact HX | rewrite Z2Pos.id by lia; change (2 ^ 0) with 1; lia |].
  change (- 0) with 0 in Heq. rewrite Heq.
  destruct (normal_form_unique X N N' E E') as [-> ->]; try assumption; try lia.
  reflexivity.
Qed.

Lemma binary64_of_Z_zero : binary64_of_Z 0 = S754_zero false.
Proof. reflexivity. Qed.

Lemma binary64_of_Z_finite (z : Z) :
  z <> 0 -> Z.abs z < 2 ^ 53 ->
  exists N E,
    binary64_of_Z z = S754_finite (z <? 0) N E
    /\ 2 ^ 52 <= Zpos N < 2 ^ 53 /\ -52 <= E <= 0 /\ Zpos N = Z.abs z * 2 ^ (- E).
Proof.
  intros Hz Hlt. unfold binary64_of_Z.
  destruct z as [|p|p]; [contradiction| |]; cbn [binary_normalize Z.ltb Z.compare Z.abs] in *.
  - apply (binary_round_integer false p 0 (Zpos p)); [lia | lia |].
    change (2 ^ 0) with 1. lia.
  - apply (binary_round_integer true p 0 (Zpos p)); [lia | lia |].
    change (2 ^ 0) with 1. lia.
Qed.

(** Rounding [z * 2^k] at exponent [-k] gives the double of [z]. *)
Lemma binary_normalize_scaled (z k : Z) :
  0 <= k <= 900 -> Z.abs z < 2 ^ 53 ->
  binary_normalize 53 1024 (z * 2 ^ k) (- k) false = binary64_of_Z z.
Proof.
  intros Hk Hz. unfold binary64_of_Z.
  assert (HK : 0 < 2 ^ k) by (apply Z.pow_pos_nonneg; lia).
  destruct z as [|q|q].
  - reflexivity.
  - destruct (Zpos q * 2 ^ k) as [|p|p] eqn:Ep; try lia.
    cbn [binary_normalize].
    apply (binary_round_scaled false p k (Zpos q)); [exact Hk | lia | lia].
  - destruct (Zneg q * 2 ^ k) as [|p|p] eqn:Ep; try lia.
    cbn [binary_normalize].
    apply (binary_round_scaled true p k (Zpos q)); [exact Hk | cbn [Z.abs] in Hz; lia | lia].
Qed.

Lemma aligned_mantissa (z : Z) (N : positive) (E ez : Z) :
  ez <= E -> E <= 0 ->
  Zpos N = Z.abs z * 2 ^ (- E) ->
  cond_Zopp (z <? 0) (Zpos (fst (shl_align N E ez))) = z * 2 ^ (- ez).
Proof.
  intros Hez HE HN.
  destruct (shl_align_spec N E ez Hez) as [_ ->]. rewrite HN.
  rewrite <- Z.mul_assoc, <- Z.pow_add_r by lia.
  replace (- E + (E - ez)) with (- ez) by lia.
  assert (0 < 2 ^ (- ez)) by (apply Z.pow_pos_nonneg; lia).
  unfold cond_Zopp. destruct (z <? 0) eqn:Ez.
  - apply Z.ltb_lt in Ez. rewrite Z.abs_neq by lia. ring.
  - apply Z.ltb_ge in Ez. rewrite Z.abs_eq by lia. ring.
Qed.

(** Addition and subtraction of integers are exact while operands and
    result stay below 2^53. *)
Lemma binary64_add_exact (a b : Z) :
  Z.abs a < 2 ^ 53 -> Z.abs b < 2 ^ 53 -> Z.abs (a + b) < 2 ^ 53 ->
  binary64_add (binary64_of_Z a) (binary64_of_Z b) = binary64_of_Z (a + b).
Proof.
  intros Ha Hb Hab. unfold binary64_add.
  destruct (Z.eq_dec a 0) as [-> | Hane]; destruct (Z.eq_dec b 0) as [-> | Hbne].
  - reflexivity.
  - destruct (binary64_of_Z_finite b Hbne Hb) as (Nb & Eb & Heq & _).
    rewrite Z.add_0_l, binary64_of_Z_zero, Heq. reflexivity.
  - destruct (binary64_of_Z_finite a Hane Ha) as (Na & Ea & Heq & _).
    rewrite Z.add_0_r, binary64_of_Z_zero, Heq. reflexivity.
  - destruct (binary64_of_Z_finite a Hane Ha) as (Na & Ea & -> & _ & HEa & HNa).
    destruct (binary64_of_Z_finite b Hbne Hb) as (Nb & Eb & -> & _ & HEb & HNb).
    cbn [SFadd].
    rewrite (aligned_mantissa a Na Ea (Z.min Ea Eb)) by (try exact HNa; lia).
    rewrite (aligned_mantissa b Nb Eb (Z.min Ea Eb)) by (try exact HNb; lia).
    rewrite <- Z.mul_add_distr_r.
    rewrite <- (Z.opp_involutive (Z.min Ea Eb)) at 2.
    apply binary_normalize_scaled; [lia | exact Hab].
Qed.

Lemma binary64_sub_exact (a b : Z) :
  Z.abs a < 2 ^ 53 -> Z.abs b < 2 ^ 53 -> Z.abs (a - b) < 2 ^ 53 ->
  binary64_sub (binary64_of_Z a) (binary64_of_Z b) = binary64_of_Z (a - b).
Proof.
  intros Ha Hb Hab. unfold binary64_sub.
  destruct (Z.eq_dec a 0) as [-> | Hane]; destruct (Z.eq_dec b 0) as [-> | Hbne].
  - reflexivity.
  - destruct (binary64_of_Z_finite b Hbne Hb) as (Nb & Eb & Heq & HRb & HEb & HNb).
    destruct (binary64_of_Z_finite (0 - b)) as (Nb' & Eb' & Heq' & HRb' & HEb' & HNb');
      [lia | exact Hab |].
    rewrite Heq, Heq'. cbn [binary64_of_Z binary_normalize SFsub].
    replace (Z.abs (0 - b)) with (Z.abs b) in HNb' by lia.
    destruct (normal_form_unique (Z.abs b) Nb Nb' Eb Eb') as [-> ->];
      try assumption; try lia.
    f_equal. destruct (Z.ltb_spec b 0), (Z.ltb_spec (0 - b) 0); try reflexivity; lia.
  - destruct (binary64_of_Z_finite a Hane Ha) as (Na & Ea & Heq & _).
    rewrite Z.sub_0_r, binary64_of_Z_zero, Heq. reflexivity.
  - destruct (binary64_of_Z_finite a Hane Ha) as (Na & Ea & -> & _ & HEa & HNa).
    destruct (binary64_of_Z_finite b Hbne Hb) as (Nb & Eb & -> & _ & HEb & HNb).
    cbn [SFsub].
    rewrite (aligned_mantissa a Na Ea (Z.min Ea Eb)) by (try exact HNa; lia).
    rewrite (aligned_mantissa b Nb Eb (Z.min Ea Eb)) by (try exact HNb; lia).
    rewrite <- Z.mul_sub_distr_r.
    rewrite <- (Z.opp_involutive (Z.min Ea Eb)) at 2.
    apply binary_normalize_scaled; [lia | exact Hab].
Qed.

(** A mantissa of 53 digits or more is rounded as it stands. *)
Lemma binary_round_from_aux (s : bool) (p : positive) (e : Z) :
  2 ^ 52 <= Zpos p -> -1021 <= Zpos (digits2_pos p) + e ->
  binary_round_aux 53 1024 s (Zpos p) e loc_Exact = binary_round 53 1024 s p e.
Proof.
  intros Hp He. unfold binary_round. rewrite fexp_normal by exact He.
  pose proof (digits2_pos_bounds p) as [_ Hhi].
  assert (53 <= Zpos (digits2_pos p)).
  { destruct (Z_lt_le_dec (Zpos (digits2_pos p)) 53) as [H|H]; [|exact H].
    assert (2 ^ Zpos (digits2_pos p) <= 2 ^ 52) by (apply Z.pow_le_mono_r; lia). lia. }
  unfold shl_align.
  destruct (Zpos (digits2_pos p) + e - 53 - e) eqn:E; try lia; reflexivity.
Qed.

(** Multiplication of an integer by a positive integer is exact while the
    product stays below 2^53. *)
Lemma binary64_mul_exact (a b : Z) :
  0 < b -> Z.abs a < 2 ^ 53 -> b < 2 ^ 53 -> Z.abs (a * b) < 2 ^ 53 ->
  binary64_mul (binary64_of_Z a) (binary64_of_Z b) = binary64_of_Z (a * b).
Proof.
  intros Hb0 Ha Hb Hab. unfold binary64_mul.
  destruct (binary64_of_Z_finite b) as (Nb & Eb & -> & HRb & HEb & HNb); [lia | lia |].
  replace (b <? 0) with false by (symmetry; apply Z.ltb_ge; lia).
  destruct (Z.eq_dec a 0) as [-> | Hane]; [reflexivity|].
  destruct (binary64_of_Z_finite a Hane Ha) as (Na & Ea & -> & HRa & HEa & HNa).
  cbn [SFmul]. rewrite xorb_false_r.
  assert (HP : Zpos (Na * Nb) = Z.abs a * b * 2 ^ (- Ea - Eb)).
  { rewrite Pos2Z.inj_mul, HNa, HNb. rewrite (Z.abs_eq b) by lia.
    replace (- Ea - Eb) with (- Ea + - Eb) by lia. rewrite Z.pow_add_r by lia. ring. }
  rewrite binary_round_from_aux.
  - replace (Ea + Eb) with (- (- Ea - Eb)) by lia.
    rewrite <- (binary_normalize_scaled (a * b) (- Ea - Eb)) by lia.
    destruct (Z.ltb_spec a 0) as [Hneg | Hpos].
    + rewrite Z.abs_neq in HP by lia.
      replace (a * b * 2 ^ (- Ea - Eb)) with (Zneg (Na * Nb))
        by (change (Zneg (Na * Nb)) with (- Zpos (Na * Nb)); rewrite HP; ring).
      reflexivity.
    + rewrite Z.abs_eq in HP by lia. rewrite <- HP. reflexivity.
  - rewrite Pos2Z.inj_mul. change (2 ^ 53) with (2 * 2 ^ 52) in *.
    set (P := 2 ^ 52) in *. assert (0 < P) by (subst P; reflexivity). nia.
  - pose proof (Pos2Z.is_pos (digits2_pos (Na * Nb))). lia.
Qed.

(** *** Lines 625 to 630 in binary64 *)

Lemma mileage_adjustment_binary64_exact (currentYear vehicleYear mileageInt : Z) :
  Z.abs currentYear <= year_limit -> Z.abs vehicleYear <= year_limit ->
  Z.abs mileageInt <= mileage_limit ->
  mileage_adjustment_binary64 currentYear vehicleYear mileageInt
  = Some (-10 * (mileageInt - (currentYear - vehicleYear) * 12000)).
Proof.
  unfold year_limit, mileage_limit.
  change (10 ^ 6) with 1000000. change (10 ^ 13) with 10000000000000.
  intros Hc Hv Hm. unfold mileage_adjustment_binary64.
  assert (H53 : 2 ^ 53 = 9007199254740992) by reflexivity.
  rewrite binary64_sub_exact by (rewrite H53; lia).
  rewrite binary64_mul_exact by (rewrite ?H53; lia).
  rewrite binary64_sub_exact by (rewrite H53; lia).
  apply adjustment_binary64_exact.
  change (2 ^ 46) with 70368744177664. lia.
Qed.

(** *** Line 635 in binary64 *)

Lemma raised_binary64_exact (cents currentYear vehicleYear mileageInt : Z) :
  Z.abs cents <= cents_limit ->
  Z.abs currentYear <= year_limit -> Z.abs vehicleYear <= year_limit ->
  Z.abs mileageInt <= mileage_limit ->
  binary64_add (binary64_of_Z cents)
    (binary64_of_Z (-10 * (mileageInt - (currentYear - vehicleYear) * 12000)))
  = binary64_of_Z (cents + -10 * (mileageInt - (currentYear - vehicleYear) * 12000)).
Proof.
  unfold cents_limit, year_limit, mileage_limit.
  change (10 ^ 6) with 1000000. change (10 ^ 13) with 10000000000000.
  change (10 ^ 15) with 1000000000000000.
  intros Hn Hc Hv Hm.
  assert (H53 : 2 ^ 53 = 9007199254740992) by reflexivity.
  apply binary64_add_exact; rewrite H53; lia.
Qed.

Example binary64_three_miles : adjustment_binary64 3 = Some (-30).
Proof. vm_compute. reflexivity. Qed.

Example binary64_thousand_miles : adjustment_binary64 1000 = Some (-10000).
Proof. vm_compute. reflexivity. Qed.

Lemma mileage_adjustment_value (currentYear vehicleYear actual : Z) :
  mileage_adjustment currentYear vehicleYear (Num actual)
  = Num (-10 * (actual - (currentYear - vehicleYear) * 12000)).
Proof.
  unfold mileage_adjustment. simpl. now rewrite round_ten_cents_per_mile.
Qed.

Lemma without_mileage_mileage (url : URL) :
  searchParams_get (without_mileage url) "mileage" = None.
Proof.
  unfold searchParams_get, without_mileage. simpl.
  induction (searchParams url) as [|[k v] l IH]; simpl; [reflexivity|].
  destruct (String.eqb k "mileage") eqn:E; simpl; [exact IH|].
  rewrite E. exact IH.
Qed.

Lemma without_mileage_condition (url : URL) :
  searchParams_get (without_mileage url) "condition" = searchParams_get url "condition".
Proof.
  unfold searchParams_get, without_mileage. simpl.
  induction (searchParams url) as [|[k v] l IH]; simpl; [reflexivity|].
  destruct (String.eqb k "mileage") eqn:E; simpl.
  - apply String.eqb_eq in E. subst k. simpl. exact IH.
  - destruct (String.eqb k "condition"); [reflexivity | exact IH].
Qed.

(** With a mileage and a truthy year, the body is the body of the request
    without mileage, every condition passed through [adjust_condition]. *)
Lemma market_value_with_mileage
    (w : World) (vehicleId : string) (url : URL) (s : St)
    (specs : VehicleSpec) (m : string) (result : gmap string ValueSet) :
  spec_of w vehicleId = Some specs ->
  spec_year specs <> 0 ->
  searchParams_get url "mileage" = Some m ->
  m <> EmptyString ->
  fst (handleMarketValue w vehicleId (without_mileage url) s)
  = successResponse (PMarketValues result) ->
  fst (handleMarketValue w vehicleId url s)
  = successResponse
      (PMarketValues
         (adjust_condition
            (mileage_adjustment (current_year w) (spec_year specs) (parseInt m))
          <$> result)).
Proof.
  unfold spec_of. intros Hspec Hyear Hm Hne.
  unfold handleMarketValue, from, bind, emit, ret. simpl.
  rewrite without_mileage_mileage, without_mileage_condition, Hm, Hspec.
  destruct (error (run_query _ _)); [discriminate|].
  simpl. intros [= <-].
  destruct m as [|c m]; [contradiction|]. simpl truthy_str.
  destruct (spec_year specs =? 0) eqn:E; [apply Z.eqb_eq in E; contradiction|].
  reflexivity.
Qed.

Lemma adjust_field_truthy (adjustment : jsnum) (n : Z) :
  n <> 0 -> adjust_field adjustment (Some (Num n)) = Some (jsnum_add (Num n) adjustment).
Proof.
  intros Hn. unfold adjust_field. simpl.
  destruct (n =? 0) eqn:E; [apply Z.eqb_eq in E; contradiction | reflexivity].
Qed.

Lemma adjust_field_falsy (adjustment : jsnum) (field : option jsnum) :
  field = None \/ field = Some (Num 0) -> adjust_field adjustment field = field.
Proof. intros [-> | ->]; reflexivity. Qed.

(** C1, counterexample. A 2020 vehicle in 2026 is expected at 72000 miles;
    at 73000 miles the specified formula gives -100 cents, the handler
    subtracts 10000 cents from the stored 1500000. *)
Lemma C1_counterexample :
  exists adjusted entry,
    fst (handleMarketValue (world_of valued_accord offline) (spec_id accord)
           (url_of [("mileage", "73000")]) fresh)
    = successResponse (PMarketValues adjusted)
    /\ adjusted !! "Clean" = Some entry
    /\ trade_in_cents entry = Some (Num 1490000)
    /\ specified_adjustment 2026 2020 73000 = -100
    /\ trade_in_cents entry
       <> Some (Num (1500000 + specified_adjustment 2026 2020 73000)).
Proof.
  eexists. eexists. split; [reflexivity|].
  split; [vm_compute; reflexivity|].
  split; [reflexivity|]. split; [reflexivity|]. discriminate.
Qed.

(** C1, as the code has it. With a numeric mileage of at most
    [mileage_limit] and a truthy vehicle year (years of at most
    [year_limit]), the adjustment is
    [round((actual_mileage - expected_mileage) * -0.10 * 100)] cents, in
    binary64 as in exact arithmetic: minus ten cents per mile above
    [expected_mileage = (current_year - vehicle_year) * 12000].  The body
    is that of the request without mileage with this one amount added to the
    present trade-in, private-party and dealer-retail fields (of at most
    [cents_limit], where the sum is the same in binary64) of every
    condition. *)
Theorem C1_mileage_adjustment
    (w : World) (vehicleId : string) (url : URL) (s : St)
    (specs : VehicleSpec) (m : string) (actual_mileage : Z)
    (result : gmap string ValueSet) :
  spec_of w vehicleId = Some specs ->
  spec_year specs <> 0 ->
  searchParams_get url "mileage" = Some m ->
  parseInt m = Num actual_mileage ->
  Z.abs actual_mileage <= mileage_limit ->
  Z.abs (current_year w) <= year_limit ->
  Z.abs (spec_year specs) <= year_limit ->
  fst (handleMarketValue w vehicleId (without_mileage url) s)
  = successResponse (PMarketValues result) ->
  let expected_mileage := (current_year w - spec_year specs) * 12000 in
  let adjustment_cents :=
    Math_round (Qmult (Qmult (inject_Z (actual_mileage - expected_mileage))
                             (Qopp (10 # 100)))
                      (inject_Z 100)) in
  adjustment_cents = -10 * (actual_mileage - expected_mileage)
  /\ mileage_adjustment_binary64 (current_year w) (spec_year specs) actual_mileage
     = Some adjustment_cents
  /\ (forall n, Z.abs n <= cents_limit ->
                binary64_add (binary64_of_Z n) (binary64_of_Z adjustment_cents)
                = binary64_of_Z (n + adjustment_cents))
  /\ exists adjusted,
       fst (handleMarketValue w vehicleId url s) = successResponse (PMarketValues adjusted)
       /\ forall conditionKey before,
            result !! conditionKey = Some before ->
            exists after,
              adjusted !! conditionKey = Some after
              /\ condition_raised adjustment_cents before after.
Proof.
  intros Hspec Hyear Hm Hparse Hmileage Hcurrent Hvehicle Hbase
         expected_mileage adjustment_cents.
  assert (Hne : m <> EmptyString) by (intros ->; discriminate Hparse).
  assert (Hcents : adjustment_cents = -10 * (actual_mileage - expected_mileage))
    by apply round_ten_cents_per_mile.
  split; [exact Hcents|]. split; [|split].
  - rewrite Hcents. now apply mileage_adjustment_binary64_exact.
  - intros n Hn. rewrite Hcents. now apply raised_binary64_exact.
  - eexists. split.
    + apply (market_value_with_mileage w vehicleId url s specs m result); assumption.
    + intros conditionKey before Hk. rewrite lookup_fmap, Hk. simpl.
      eexists. split; [reflexivity|].
      rewrite Hparse. unfold mileage_adjustment. simpl jsnum_sub. cbv iota.
      fold expected_mileage. fold adjustment_cents.
      unfold condition_raised, field_raised. simpl.
      repeat split; intros n Hn Hlimit ->; now rewrite adjust_field_truthy.
Qed.

Lemma C1_witness :
  Math_round (Qmult (Qmult (inject_Z (73000 - (2026 - 2020) * 12000)) (Qopp (10 # 100)))
                    (inject_Z 100))
  = -10 * (73000 - (2026 - 2020) * 12000)
  /\ mileage_adjustment_binary64 2026 2020 73000
     = Some (Math_round (Qmult (Qmult (inject_Z (73000 - (2026 - 2020) * 12000))
                                      (Qopp (10 # 100)))
                               (inject_Z 100)))
  /\ (forall n, Z.abs n <= cents_limit ->
                binary64_add (binary64_of_Z n)
                  (binary64_of_Z
                     (Math_round (Qmult (Qmult (inject_Z (73000 - (2026 - 2020) * 12000))
                                               (Qopp (10 # 100)))
                                        (inject_Z 100))))
                = binary64_of_Z
                    (n + Math_round (Qmult (Qmult (inject_Z (73000 - (2026 - 2020) * 12000))
                                                  (Qopp (10 # 100)))
                                           (inject_Z 100))))
  /\ exists adjusted,
       fst (handleMarketValue (world_of valued_accord offline) (spec_id accord)
              (url_of [("mileage", "73000")]) fresh)
       = successResponse (PMarketValues adjusted)
       /\ forall conditionKey before,
            formatMarketValues [clean_accord; rough_accord] !! conditionKey = Some before ->
            exists after,
              adjusted !! conditionKey = Some after
              /\ condition_raised
                   (Math_round (Qmult (Qmult (inject_Z (73000 - (2026 - 2020) * 12000))
                                             (Qopp (10 # 100)))
                                      (inject_Z 100)))
                   before after.
Proof.
  apply (C1_mileage_adjustment (world_of valued_accord offline) (spec_id accord)
           (url_of [("mileage", "73000")]) fresh accord "73000" 73000
           (formatMarketValues [clean_accord; rough_accord])).
  - reflexivity.
  - discriminate.
  - reflexivity.
  - reflexivity.
  - vm_compute. discriminate.
  - vm_compute. discriminate.
  - vm_compute. discriminate.
  - vm_compute. reflexivity.
Defined.

(** C10. In the mileage adjustment, a field holding 0 or [null] fails the
    truthiness test and is returned as stored, while every non-zero field of
    the same condition has the adjustment added: for a mileage that
    [parseInt] reads as a number the field becomes the stored amount plus
    the adjustment, minus ten cents per mile above the expected mileage
    (within [mileage_limit], [year_limit] and [cents_limit], where
    adjustment and sum are the same in binary64); for a mileage that is not
    a number it becomes [NaN]. *)
Theorem C10_falsy_field_skipped
    (w : World) (vehicleId : string) (url : URL) (s : St)
    (specs : VehicleSpec) (m : string) (result : gmap string ValueSet) :
  spec_of w vehicleId = Some specs ->
  spec_year specs <> 0 ->
  searchParams_get url "mileage" = Some m ->
  m <> EmptyString ->
  fst (handleMarketValue w vehicleId (without_mileage url) s)
  = successResponse (PMarketValues result) ->
  exists adjusted,
    fst (handleMarketValue w vehicleId url s) = successResponse (PMarketValues adjusted)
    /\ forall conditionKey before,
         result !! conditionKey = Some before ->
         exists after,
           adjusted !! conditionKey = Some after
           /\ forall field : ValueSet -> option jsnum,
                field = trade_in_cents \/ field = private_party_cents
                \/ field = dealer_retail_cents ->
                (field before = None \/ field before = Some (Num 0) ->
                 field after = field before)
                /\ (forall n, n <> 0 -> field before = Some (Num n) ->
                    match parseInt m with
                    | Num actual_mileage =>
                        Z.abs actual_mileage <= mileage_limit ->
                        Z.abs (current_year w) <= year_limit ->
                        Z.abs (spec_year specs) <= year_limit ->
                        Z.abs n <= cents_limit ->
                        let adjustment :=
                          -10 * (actual_mileage
                                 - (current_year w - spec_year specs) * 12000) in
                        field after = Some (Num (n + adjustment))
                        /\ mileage_adjustment_binary64 (current_year w) (spec_year specs)
                             actual_mileage
                           = Some adjustment
                        /\ binary64_add (binary64_of_Z n) (binary64_of_Z adjustment)
                           = binary64_of_Z (n + adjustment)
                    | NaN => field after = Some NaN
                    end).
Proof.
  intros Hspec Hyear Hm Hne Hbase.
  eexists. split.
  - apply (market_value_with_mileage w vehicleId url s specs m result); assumption.
  - intros conditionKey before Hk. rewrite lookup_fmap, Hk. simpl.
    eexists. split; [reflexivity|].
    intros field [-> | [-> | ->]]; simpl; split;
      try apply adjust_field_falsy;
      intros n Hn ->; rewrite adjust_field_truthy by exact Hn;
      (destruct (parseInt m) as [actual_mileage|];
       [ intros Hmileage Hcurrent Hvehicle Hcents; cbv zeta;
         split; [rewrite mileage_adjustment_value; reflexivity|];
         split; [now apply mileage_adjustment_binary64_exact
                |now apply raised_binary64_exact]
       | reflexivity ]).
Qed.

Lemma C10_witness :
  (exists adjusted,
     fst (handleMarketValue (world_of valued_accord offline) (spec_id accord)
            (url_of [("mileage", "73000")]) fresh)
     = successResponse (PMarketValues adjusted)
     /\ forall conditionKey before,
          formatMarketValues [clean_accord; rough_accord] !! conditionKey = Some before ->
          exists after,
            adjusted !! conditionKey = Some after
            /\ forall field : ValueSet -> option jsnum,
                 field = trade_in_cents \/ field = private_party_cents
                 \/ field = dealer_retail_cents ->
                 (field before = None \/ field before = Some (Num 0) ->
                  field after = field before)
                 /\ (forall n, n <> 0 -> field before = Some (Num n) ->
                     match parseInt "73000" with
                     | Num actual_mileage =>
                         Z.abs actual_mileage <= mileage_limit ->
                         Z.abs 2026 <= year_limit ->
                         Z.abs 2020 <= year_limit ->
                         Z.abs n <= cents_limit ->
                         let adjustment :=
                           -10 * (actual_mileage - (2026 - 2020) * 12000) in
                         field after = Some (Num (n + adjustment))
                         /\ mileage_adjustment_binary64 2026 2020 actual_mileage
                            = Some adjustment
                         /\ binary64_add (binary64_of_Z n) (binary64_of_Z adjustment)
                            = binary64_of_Z (n + adjustment)
                     | NaN => field after = Some NaN
                     end))
  /\ fst (handleMarketValue (world_of valued_accord offline) (spec_id accord)
            (url_of [("mileage", "73000")]) fresh)
     = successResponse
         (PMarketValues
            (<["Rough" := {| condition := "Rough"; trade_in_cents := Some (Num 1090000);
                             private_party_cents := Some (Num 1240000);
                             dealer_retail_cents := Some (Num 1390000) |}]>
               (<["Clean" := {| condition := "Clean"; trade_in_cents := Some (Num 1490000);
                                private_party_cents := Some (Num 0);
                                dealer_retail_cents := None |}]> ∅))).
Proof.
  split.
  - apply (C10_falsy_field_skipped (world_of valued_accord offline) (spec_id accord)
             (url_of [("mileage", "73000")]) fresh accord "73000"
             (formatMarketValues [clean_accord; rough_accord])).
    + reflexivity.
    + discriminate.
    + reflexivity.
    + discriminate.
    + vm_compute. reflexivity.
  - vm_compute. reflexivity.
Defined.

(** The entry for "Clean" of the sample, after the adjustment of -10000
    cents: the trade-in value is lowered, the private-party value 0 and the
    missing dealer-retail value are as stored. *)
Example clean_accord_adjusted :
  exists adjusted,
    fst (handleMarketValue (world_of valued_accord offline) (spec_id accord)
           (url_of [("mileage", "73000")]) fresh)
    = successResponse (PMarketValues adjusted)
    /\ adjusted !! "Clean"
       = Some {| condition := "Clean"; trade_in_cents := Some (Num 1490000);
                 private_party_cents := Some (Num 0); dealer_retail_cents := None |}
    /\ adjusted !! "Rough"
       = Some {| condition := "Rough"; trade_in_cents := Some (Num 1090000);
                 private_party_cents := Some (Num 1240000);
                 dealer_retail_cents := Some (Num 1390000) |}.
Proof. eexists. split; [reflexivity|]. split; vm_compute; reflexivity. Qed.

(** ** Resolution of a decoded VIN *)

Lemma map_string_app (f : ascii -> ascii) (a b : string) :
  map_string f (a ++ b)%string = (map_string f a ++ map_string f b)%string.
Proof. induction a as [|c a IH]; simpl; [reflexivity | now rewrite IH]. Qed.

Lemma like_percent (s : string) : like "%" s = true.
Proof. induction s as [|c s IH]; simpl; [reflexivity | exact IH]. Qed.

(** A pattern of literal characters followed by [%] is a prefix test. *)
Lemma like_literal_prefix (p s : string) :
  forall_chars (fun c => negb (Ascii.eqb c "%" || Ascii.eqb c "_" || Ascii.eqb c "\")) p = true ->
  like (p ++ "%") s = String.prefix p s.
Proof.
  revert s. induction p as [|c p IH]; intros s Hp.
  - simpl append. rewrite like_percent. destruct s; reflexivity.
  - simpl in Hp. apply andb_prop in Hp as [Hc Hp].
    apply negb_true_iff in Hc. apply orb_false_elim in Hc as [Hc H3].
    apply orb_false_elim in Hc as [H1 H2].
    simpl. rewrite H1, H2, H3. destruct s as [|d s]; [reflexivity|].
    rewrite IH by exact Hp. cbn [String.prefix].
    destruct (ascii_dec c d) as [->|Hne].
    + now rewrite Ascii.eqb_refl.
    + destruct (Ascii.eqb d c) eqn:E; [|reflexivity].
      apply Ascii.eqb_eq in E. congruence.
Qed.

Lemma lower_char_literal (c : ascii) :
  plain_char c = true ->
  (if Ascii.eqb c "*" then "%"%char else c) = c
  /\ negb (Ascii.eqb (lower_char c) "%" || Ascii.eqb (lower_char c) "_"
           || Ascii.eqb (lower_char c) "\") = true.
Proof.
  unfold plain_char. intros H. apply negb_true_iff in H.
  apply orb_false_elim in H as [H H4]. apply orb_false_elim in H as [H H3].
  apply orb_false_elim in H as [H1 H2]. rewrite H4. split; [reflexivity|].
  unfold lower_char.
  destruct (is_upper c) eqn:Hu.
  - apply in_range_spec in Hu. change (code "A") with 65%N in Hu.
    change (code "Z") with 90%N in Hu.
    assert (Hcode : code (shift_code 32 c) = (code c + 32)%N).
    { unfold shift_code, code. rewrite N_ascii_embedding; unfold code in *; lia. }
    code_differs Hcode. reflexivity.
  - destruct ((192 <=? code c)%N && (code c <=? 222)%N && negb (code c =? 215)%N) eqn:Hl.
    + apply andb_prop in Hl as [Hl _]. apply andb_prop in Hl as [Hlo Hhi].
      apply N.leb_le in Hlo, Hhi.
      assert (Hcode : code (shift_code 32 c) = (code c + 32)%N).
      { unfold shift_code, code. rewrite N_ascii_embedding; unfold code in *; lia. }
      code_differs Hcode. reflexivity.
    + now rewrite H1, H2, H3.
Qed.

(** For a primary trim of plain characters, the trim filter is a
    case-insensitive prefix test. *)
Lemma ilike_plain_prefix (p x : string) :
  forall_chars plain_char p = true ->
  ilike_match (p ++ "%") x = String.prefix (toLowerCase p) (toLowerCase x).
Proof.
  intros Hp. unfold ilike_match, postgrest_pattern, toLowerCase.
  rewrite !map_string_app. simpl (map_string _ "%").
  replace (map_string (fun c => if Ascii.eqb c "*" then "%"%char else c) p) with p.
  - apply like_literal_prefix.
    induction p as [|c p IH]; [reflexivity|].
    simpl in Hp. apply andb_prop in Hp as [Hc Hp]. simpl.
    apply lower_char_literal in Hc as [_ ->]. now apply IH.
  - induction p as [|c p IH]; [reflexivity|].
    simpl in Hp. apply andb_prop in Hp as [Hc Hp]. simpl.
    apply lower_char_literal in Hc as [-> _]. f_equal. now apply IH.
Qed.

Lemma bind_eq {A B} (m : M A) (k : A -> M B) (s : St) :
  bind m k s = k (fst (m s)) (snd (m s)).
Proof. unfold bind. destruct (m s). reflexivity. Qed.

Lemma decodeVinWithNHTSA_eq (w : World) (vin : string) (s : St) :
  decodeVinWithNHTSA w vin s
  = (match nhtsa w vin with
     | Some results => Some (decoded_of results vin)
     | None => None
     end,
     {| redis := redis s;
        trace := trace s ++ [EFetch ("https://vpic.nhtsa.dot.gov/api/vehicles/decodevin/"
                                     ++ vin ++ "?format=json")%string] |}).
Proof. reflexivity. Qed.

Lemma from_single {T} `{Table T} (table : string) (rel : relation T) (q : query) (s : St) :
  fst (bind (from table rel q) (fun r => ret (row (single r))) s)
  = row (single (run_query rel q)).
Proof. reflexivity. Qed.

Lemma find_ext {T} (f g : T -> bool) (l : list T) :
  (forall x, f x = g x) -> List.find f l = List.find g l.
Proof.
  intros H. induction l as [|x l IH]; simpl; [reflexivity|].
  rewrite H, IH. reflexivity.
Qed.

Lemma resolves_bind_val {A} (m : M A) (k : A -> M Response) (s : St)
    (sp : option VehicleSpec) :
  resolves (k (fst (m s)) (snd (m s))) sp -> resolves (bind m k s) sp.
Proof. now rewrite bind_eq. Qed.

(** A step whose result does not matter for the spec. *)
Lemma resolves_bind {A} (m : M A) (k : A -> M Response) (s : St)
    (sp : option VehicleSpec) :
  (forall a s', resolves (k a s') sp) -> resolves (bind m k s) sp.
Proof. intros H. apply resolves_bind_val, H. Qed.

Lemma resolves_ret (r : VinLookupResult) (s : St) :
  resolves (ret (successResponse (PVinLookup r)) s) (specs r).
Proof. exists r. split; reflexivity. Qed.

Lemma specs_filters (y : Z) (mk md : string) (sp : VehicleSpec) :
  matches (q_filters (select |> ilike "make" mk |> ilike "model" (replace_hyphens md)
                             |> eq "year" (LNum (Num y)))) sp
  = same_vehicle y mk md sp.
Proof.
  unfold matches, same_vehicle. simpl.
  unfold column, VehicleSpec_table. simpl.
  destruct (ilike_match mk (spec_make sp)), (ilike_match (replace_hyphens md) (spec_model sp)),
    (spec_year sp =? y); reflexivity.
Qed.

Lemma specs_trim_filters (y : Z) (mk md p : string) (sp : VehicleSpec) :
  matches (q_filters (select |> ilike "make" mk |> ilike "model" (replace_hyphens md)
                             |> eq "year" (LNum (Num y))
                             |> ilike "trim" (p ++ "%")%string)) sp
  = same_vehicle y mk md sp && trim_matches p sp.
Proof.
  unfold matches, same_vehicle, trim_matches. simpl.
  unfold column, VehicleSpec_table. simpl.
  destruct (ilike_match mk (spec_make sp)), (ilike_match (replace_hyphens md) (spec_model sp)),
    (spec_year sp =? y), (spec_trim sp) as [x|]; simpl; try reflexivity;
    now rewrite ?andb_true_r.
Qed.

Lemma vin_lookup_specs
    (w : World) (vin : string) (url : URL) (s : St)
    (results : list NHTSAResult) (y : Z) (mk md t : string) (rows : list VehicleSpec) :
  vin_regex (toUpperCase vin) = true ->
  nhtsa w (toUpperCase vin) = Some results ->
  getNumericValue results "Model Year" = Some y ->
  y <> 0 ->
  getValue results "Make" = Some mk ->
  getValue results "Model" = Some md ->
  getValue results "Trim" = Some t ->
  vehicle_specs (db w) = Rows rows ->
  resolves (handleVinLookup w vin url s)
    match List.find (fun sp => same_vehicle y mk md sp && trim_matches (primaryTrimOf t) sp)
                    rows with
    | Some sp => Some sp
    | None => List.find (same_vehicle y mk md) rows
    end.
Proof.
  intros Hre Hsvc Hy Hy0 Hmk Hmd Ht Hrows.
  assert (Hlen : String.length vin = 17%nat).
  { rewrite <- (map_string_length upper_char). now apply vin_regex_length. }
  apply length_gate in Hlen.
  assert (Hty : truthy_num (Num y) = true).
  { simpl. destruct (y =? 0) eqn:E; [apply Z.eqb_eq in E; contradiction | reflexivity]. }
  unfold handleVinLookup. rewrite Hlen, Hre. cbn [negb].
  rewrite bind_eq, decodeVinWithNHTSA_eq, Hsvc. cbn [fst snd].
  cbn [year make model trim decoded_of]. rewrite Hy, Hmk, Hmd, Ht.
  rewrite (getValue_truthy _ _ _ Hmk), (getValue_truthy _ _ _ Hmd), (getValue_truthy _ _ _ Ht).
  rewrite Hty. cbn [negb orb].
  (* the query with the trim *)
  apply resolves_bind_val. rewrite from_single, Hrows, first_match by reflexivity.
  rewrite (find_ext _ _ rows (specs_trim_filters y mk md (primaryTrimOf t))).
  generalize (snd (bind (from "vehicle_specs" (Rows rows)
                  (select |> ilike "make" mk |> ilike "model" (replace_hyphens md)
                          |> eq "year" (LNum (Num y))
                          |> ilike "trim" (primaryTrimOf t ++ "%")%string
                          |> limit (Num 1)))
                (fun r => ret (row (single r)))
                {| redis := redis s;
                   trace := trace s ++ [EFetch ("https://vpic.nhtsa.dot.gov/api/vehicles/decodevin/"
                                                ++ toUpperCase vin ++ "?format=json")%string] |})).
  intros s1.
  (* the query without it, when the first found nothing *)
  apply resolves_bind_val.
  destruct (List.find (fun sp => same_vehicle y mk md sp && trim_matches (primaryTrimOf t) sp) rows)
    as [found|] eqn:Hfound.
  - unfold ret at 1 2. cbn [fst snd].
    do 5 (apply resolves_bind; intros ? ?).
    apply (resolves_ret {| vin_info := _; specs := Some found; warranty := _;
                           market_values := _; maintenance := _ |}).
  - rewrite from_single, first_match by reflexivity.
    rewrite (find_ext _ _ rows (specs_filters y mk md)).
    do 5 (apply resolves_bind; intros ? ?).
    apply (resolves_ret {| vin_info := _; specs := List.find (same_vehicle y mk md) rows;
                           warranty := _; market_values := _; maintenance := _ |}).
Qed.

Lemma resolves_unique (out : Response * St) (a b : option VehicleSpec) :
  resolves out a -> resolves out b -> a = b.
Proof.
  intros (r & Hr & <-) (r' & Hr' & <-). rewrite Hr in Hr'.
  injection Hr' as ->. reflexivity.
Qed.

(** C3, counterexample. For the decoded trim "EX-L / EX-L Navi" the first
    slash-separated segment is "EX-L " with its trailing space; the handler
    strips it and finds the "EX-L" row, while a prefix match against the
    segment itself finds no row and falls back to the first Accord, the
    "LX". *)
Lemma C3_counterexample :
  first_segment "EX-L / EX-L Navi" = "EX-L "
  /\ primaryTrimOf "EX-L / EX-L Navi" = "EX-L"
  /\ resolves (handleVinLookup
                 (world_of two_accords (fun _ => Some (decoded_accord "EX-L / EX-L Navi")))
                 "1HGCV1F34LA000001" (url_of []) fresh)
              (Some accord)
  /\ resolution (first_segment "EX-L / EX-L Navi") 2020 "HONDA" "Accord" [accord_lx; accord]
     = Some accord_lx
  /\ ~ resolves (handleVinLookup
                   (world_of two_accords (fun _ => Some (decoded_accord "EX-L / EX-L Navi")))
                   "1HGCV1F34LA000001" (url_of []) fresh)
                (resolution (first_segment "EX-L / EX-L Navi") 2020 "HONDA" "Accord"
                            [accord_lx; accord]).
Proof.
  assert (H : resolves (handleVinLookup
                 (world_of two_accords (fun _ => Some (decoded_accord "EX-L / EX-L Navi")))
                 "1HGCV1F34LA000001" (url_of []) fresh)
              (Some accord)).
  { eexists. split; [vm_compute; reflexivity | reflexivity]. }
  split; [reflexivity|]. split; [reflexivity|]. split; [exact H|].
  split; [reflexivity|].
  intros C. pose proof (resolves_unique _ _ _ H C) as E. discriminate E.
Qed.

(** C3, as the code has it. For a decoded vehicle with a trim, the primary
    trim is the first slash-separated segment with the surrounding
    whitespace removed ("EX-L" for "EX-L/EX-L Navi"); the spec is the first
    row of the year, make and model whose trim matches the primary trim
    followed by [%] under ILIKE, which for a primary trim of plain characters
    is a case-insensitive prefix test; when no row matches, it is the first
    row of the year, make and model, and when there is none either the
    lookup still succeeds, with no spec. *)
Theorem C3_trim_resolution
    (w : World) (vin : string) (url : URL) (s : St)
    (results : list NHTSAResult) (y : Z) (mk md t : string) (rows : list VehicleSpec) :
  vin_regex (toUpperCase vin) = true ->
  nhtsa w (toUpperCase vin) = Some results ->
  getNumericValue results "Model Year" = Some y ->
  y <> 0 ->
  getValue results "Make" = Some mk ->
  getValue results "Model" = Some md ->
  getValue results "Trim" = Some t ->
  vehicle_specs (db w) = Rows rows ->
  resolves (handleVinLookup w vin url s)
           (resolution (js_trim (first_segment t)) y mk md rows)
  /\ (forall_chars plain_char (js_trim (first_segment t)) = true ->
      forall sp x, spec_trim sp = Some x ->
        trim_matches (js_trim (first_segment t)) sp
        = String.prefix (toLowerCase (js_trim (first_segment t))) (toLowerCase x))
  /\ js_trim (first_segment "EX-L/EX-L Navi") = "EX-L".
Proof.
  intros Hre Hsvc Hy Hy0 Hmk Hmd Ht Hrows. split; [|split; [|reflexivity]].
  - apply (vin_lookup_specs w vin url s results y mk md t rows); assumption.
  - intros Hplain sp x Hx. unfold trim_matches. rewrite Hx.
    now apply ilike_plain_prefix.
Qed.

Lemma C3_witness :
  resolves (handleVinLookup
              (world_of accords_with_navi (fun _ => Some (decoded_accord "EX-L/EX-L Navi")))
              "1HGCV1F34LA000001" (url_of []) fresh)
           (resolution (js_trim (first_segment "EX-L/EX-L Navi")) 2020 "HONDA" "Accord"
                       [accord_lx; accord_navi])
  /\ (forall_chars plain_char (js_trim (first_segment "EX-L/EX-L Navi")) = true ->
      forall sp x, spec_trim sp = Some x ->
        trim_matches (js_trim (first_segment "EX-L/EX-L Navi")) sp
        = String.prefix (toLowerCase (js_trim (first_segment "EX-L/EX-L Navi")))
                        (toLowerCase x))
  /\ js_trim (first_segment "EX-L/EX-L Navi") = "EX-L".
Proof.
  apply (C3_trim_resolution
           (world_of accords_with_navi (fun _ => Some (decoded_accord "EX-L/EX-L Navi")))
           "1HGCV1F34LA000001" (url_of []) fresh
           (decoded_accord "EX-L/EX-L Navi") 2020 "HONDA" "Accord" "EX-L/EX-L Navi"
           [accord_lx; accord_navi]);
    first [reflexivity | discriminate].
Defined.

Example navi_resolved :
  resolution (js_trim (first_segment "EX-L/EX-L Navi")) 2020 "HONDA" "Accord"
             [accord_lx; accord_navi]
  = Some accord_navi.
Proof. reflexivity. Qed.

(** No row of the year, make and model: the lookup succeeds without spec. *)
Example nothing_resolved :
  resolves (handleVinLookup
              (world_of no_rows (fun _ => Some (decoded_accord "EX-L/EX-L Navi")))
              "1HGCV1F34LA000001" (url_of []) fresh)
           None.
Proof. eexists. split; [vm_compute; reflexivity | reflexivity]. Qed.

(** ** Aggregate views and their fallback *)

Lemma from_eq {T} `{Table T} (table : string) (rel : relation T) (q : query) (s : St) :
  from table rel q s
  = (run_query rel q, {| redis := redis s; trace := trace s ++ [EQuery table] |}).
Proof. reflexivity. Qed.

Lemma cache_read_eq (w : World) (key : string) (s : St) :
  cache_read w key s
  = (if redis_up w then redis s !! key else None,
     {| redis := redis s; trace := trace s ++ [ECacheGet key] |}).
Proof. reflexivity. Qed.

Lemma cache_write_eq (w : World) (key : string) (v : payload) (ttl : Z) (s : St) :
  cache_write w key v ttl s
  = (tt, if redis_up w
         then {| redis := <[key := v]> (redis s); trace := trace s ++ [ECacheSet key ttl] |}
         else {| redis := redis s; trace := trace s ++ [ECacheSet key ttl] |}).
Proof. reflexivity. Qed.

(** In the search handler a failure of the view that is not "relation does
    not exist" is an internal error: no fallback query is made. *)
Lemma search_generic_failure_is_error
    (w : World) (url : URL) (s : St) (code : string) :
  vehicle_autocomplete (db w) = Failing code ->
  relation_missing (Some code) = false ->
  (2 <= String.length (search_query url))%nat ->
  redis s = ∅ ->
  exists key,
    handleVehicleSearch w url s
    = (internalErrorResponse,
       {| redis := redis s;
          trace := (trace s ++ [ECacheGet key]) ++ [EQuery "vehicle_autocomplete"] |}).
Proof.
  intros Hview Hcode Hlen Hcache. unfold handleVehicleSearch.
  destruct (search_query url) as [|c q] eqn:Hq; [simpl in Hlen; lia|].
  cbn [truthy_str negb orb].
  destruct (String.length (String c q) <? 2)%nat eqn:E; [apply Nat.ltb_lt in E; lia|].
  eexists.
  rewrite bind_eq, cache_read_eq. cbn [fst snd]. rewrite Hcache, lookup_empty.
  replace (if redis_up w then None else None) with (@None payload) by (now destruct (redis_up w)).
  destruct (tokenize _) as [yearFilter textTokens].
  rewrite bind_eq, from_eq, Hview. cbn [fst snd run_query failed error].
  rewrite Hcode. cbn [negb orb]. unfold ret. reflexivity.
Qed.

Lemma select_all {T} `{Table T} (rows : list T) :
  run_query (Rows rows) select = {| data := Some rows; error := None |}.
Proof.
  unfold run_query. simpl. rewrite order_rows_no_keys. f_equal. f_equal.
  induction rows as [|x rows IH]; simpl; [reflexivity | now rewrite IH].
Qed.

(** The list handlers test only whether the view query returned an error:
    whatever the code, the raw table is queried and its result served. *)
Lemma makes_fall_back_on_any_error
    (w : World) (url : URL) (s : St) (code : string) (rows : list VehicleSpec) :
  vehicle_makes (db w) = Failing code ->
  vehicle_specs (db w) = Rows rows ->
  searchParams_get url "year" = None ->
  redis s = ∅ ->
  fst (handleMakes w url s)
  = successResponse (PStrings (distinct_sorted (List.map spec_make rows))).
Proof.
  intros Hview Hspecs Hyear Hcache. unfold handleMakes. rewrite Hyear.
  cbn [truthy_ostr]. rewrite bind_eq, cache_read_eq. cbn [fst snd].
  rewrite Hcache, lookup_empty.
  replace (if redis_up w then None else None) with (@None payload) by (now destruct (redis_up w)).
  rewrite !bind_eq, !from_eq, Hview, Hspecs. cbn [fst snd run_query failed error].
  rewrite !bind_eq, !from_eq, select_all. cbn [fst snd error data rows_or_empty default].
  unfold ret at 1 2. cbn [fst snd]. rewrite bind_eq. reflexivity.
Qed.

(** C9, at the failing input. The query on the view of makes fails with
    57014, which is not "relation does not exist"; the handler nevertheless
    queries [vehicle_specs], answers 200 with the makes found there and
    caches them. *)
Theorem C9_makes_fall_back_on_timeout :
  relation_missing (Some "57014") = false
  /\ handleMakes (world_of makes_view_timing_out offline) (url_of [("year", "2020")]) fresh
     = (successResponse (PStrings ["Honda"; "Toyota"]),
        {| redis := {[ "vehicles:makes:2020" := PStrings ["Honda"; "Toyota"] ]};
           trace := [ECacheGet "vehicles:makes:2020"; EQuery "vehicle_makes";
                     EQuery "vehicle_specs"; ECacheSet "vehicles:makes:2020" 86400] |}).
Proof. split; [reflexivity | vm_compute; reflexivity]. Qed.

(** The same failure of the search view is reported as an error. *)
Example search_timeout_is_error :
  exists key,
    handleVehicleSearch (world_of search_view_timing_out offline)
      (url_of [("q", "2020 accord")]) fresh
    = (internalErrorResponse,
       {| redis := redis fresh;
          trace := (trace fresh ++ [ECacheGet key]) ++ [EQuery "vehicle_autocomplete"] |}).
Proof.
  apply (search_generic_failure_is_error _ _ _ "57014");
    [reflexivity | reflexivity | simpl; lia | reflexivity].
Qed.

(** When the search view is missing, the search falls back to the table
    and deduplicates what it finds. *)
Example search_missing_view_falls_back :
  fst (handleVehicleSearch (world_of search_view_missing offline)
         (url_of [("q", "2020 accord")]) fresh)
  = successResponse (PSearch [to_autocomplete accord_lx]).
Proof. vm_compute. reflexivity. Qed.

(** * The service as a whole *)

(** ** Handlers that do not use the cache *)

Lemma cache_free_ret {A} (a : A) : cache_free (ret a).
Proof. intros s. split; [reflexivity|]. exists []. split; [now rewrite app_nil_r | reflexivity]. Qed.

Lemma cache_free_bind {A B} (m : M A) (k : A -> M B) :
  cache_free m -> (forall a, cache_free (k a)) -> cache_free (bind m k).
Proof.
  intros Hm Hk s. rewrite bind_eq.
  destruct (Hm s) as (Hr & ev1 & Ht & Hf).
  destruct (Hk (fst (m s)) (snd (m s))) as (Hr' & ev2 & Ht' & Hf').
  split; [congruence|]. exists (ev1 ++ ev2). split.
  - rewrite Ht', Ht. now rewrite app_assoc.
  - rewrite forallb_app, Hf, Hf'. reflexivity.
Qed.

Lemma cache_free_from {T} `{Table T} (table : string) (rel : relation T) (q : query) :
  cache_free (from table rel q).
Proof. intros s. split; [reflexivity|]. exists [EQuery table]. split; reflexivity. Qed.

Lemma cache_free_decode (w : World) (vin : string) : cache_free (decodeVinWithNHTSA w vin).
Proof. intros s. split; [reflexivity|]. eexists [_]. split; reflexivity. Qed.

(** X1. The handlers that answer about one vehicle or one VIN
    (handleVinDecode, handleVinLookup, handleWarranty, handleMarketValue,
    handleMaintenance, handleLookup, handleSpecsSearch, handleSpecsById)
    never touch Redis: on every input the store is left as it was and the
    calls they make are only fetches and database queries, no cache read
    and no cache write. *)
Theorem per_vehicle_handlers_are_cache_free (w : World) (id : string) (url : URL) :
  cache_free (handleVinDecode w id)
  /\ cache_free (handleVinLookup w id url)
  /\ cache_free (handleWarranty w id)
  /\ cache_free (handleMarketValue w id url)
  /\ cache_free (handleMaintenance w id url)
  /\ cache_free (handleLookup w url)
  /\ cache_free (handleSpecsSearch w url)
  /\ cache_free (handleSpecsById w id).
Proof.
  repeat apply conj;
    [ unfold handleVinDecode | unfold handleVinLookup | unfold handleWarranty
    | unfold handleMarketValue | unfold handleMaintenance | unfold handleLookup
    | unfold handleSpecsSearch | unfold handleSpecsById ];
    repeat first
      [ apply cache_free_ret
      | apply cache_free_from
      | apply cache_free_decode
      | apply cache_free_bind; [|intros ?]
      | match goal with
        | |- cache_free (match ?x with _ => _ end) => destruct x
        | |- cache_free (if ?b then _ else _) => destruct b
        end ].
Qed.

(** ** VIN handlers *)

Lemma upper_char_idempotent (c : ascii) : upper_char (upper_char c) = upper_char c.
Proof. destruct c as [[] [] [] [] [] [] [] []]; reflexivity. Qed.

Lemma toUpperCase_idempotent (s : string) : toUpperCase (toUpperCase s) = toUpperCase s.
Proof.
  unfold toUpperCase. induction s as [|c s IH]; simpl; [reflexivity|].
  now rewrite upper_char_idempotent, IH.
Qed.

Lemma truthy_map_string (f : ascii -> ascii) (s : string) :
  truthy_str (map_string f s) = truthy_str s.
Proof. destruct s; reflexivity. Qed.

(** X2. handleVinDecode and handleVinLookup give the same response and make
    the same calls for a VIN and for its upper-case form: the letter case
    of the VIN in the path is never observable. *)
Theorem vin_handlers_ignore_case (w : World) (vin : string) (url : URL) (s : St) :
  handleVinDecode w (toUpperCase vin) s = handleVinDecode w vin s
  /\ handleVinLookup w (toUpperCase vin) url s = handleVinLookup w vin url s.
Proof.
  unfold handleVinDecode, handleVinLookup.
  rewrite toUpperCase_idempotent.
  replace (truthy_str (toUpperCase vin)) with (truthy_str vin)
    by (symmetry; apply truthy_map_string).
  replace (String.length (toUpperCase vin)) with (String.length vin)
    by (symmetry; apply map_string_length).
  split; reflexivity.
Qed.

Lemma valid_vin_gate (vin : string) :
  vin_regex (toUpperCase vin) = true ->
  negb (truthy_str vin) || negb (String.length vin =? 17)%nat = false.
Proof.
  intros H. apply length_gate. rewrite <- (map_string_length upper_char).
  now apply vin_regex_length.
Qed.

(** X3. For a VIN whose upper-case form passes the pattern, handleVinDecode
    makes exactly one external call, the fetch of the NHTSA address built
    from the upper-case VIN, leaves the store unchanged, and answers
    internal_error exactly when that call fails. *)
Theorem vin_decode_fetches_once (w : World) (vin : string) (s : St) :
  vin_regex (toUpperCase vin) = true ->
  snd (handleVinDecode w vin s) = after_event s (EFetch (nhtsa_url (toUpperCase vin)))
  /\ (fst (handleVinDecode w vin s) = internalErrorResponse
      <-> nhtsa w (toUpperCase vin) = None).
Proof.
  intros Hre. unfold handleVinDecode. rewrite (valid_vin_gate vin Hre), Hre.
  cbn [negb]. rewrite bind_eq, decodeVinWithNHTSA_eq. cbn [fst snd].
  destruct (nhtsa w (toUpperCase vin)) as [results|].
  - split.
    + destruct (error_code _) as [c|]; [destruct (_ && _)|]; reflexivity.
    + split; [|discriminate].
      destruct (error_code _) as [c|]; [destruct (_ && _)|]; discriminate.
  - split; [reflexivity|]. split; reflexivity.
Qed.

Lemma vin_decode_fetches_once_witness :
  snd (handleVinDecode (world_of no_rows offline) "1hgcv1f34la000001" fresh)
  = after_event fresh (EFetch (nhtsa_url (toUpperCase "1hgcv1f34la000001")))
  /\ (fst (handleVinDecode (world_of no_rows offline) "1hgcv1f34la000001" fresh)
      = internalErrorResponse
      <-> nhtsa (world_of no_rows offline) (toUpperCase "1hgcv1f34la000001") = None).
Proof. apply vin_decode_fetches_once. reflexivity. Defined.

(** X4. handleVinLookup refuses a VIN that is not 17 characters long, or whose
    upper-case form does not pass the pattern, with invalid_vin and
    without any external call (state unchanged), as handleVinDecode does. *)
Theorem vin_lookup_invalid_vin (w : World) (vin : string) (url : URL) (s : St) :
  vin_regex (toUpperCase vin) = false \/ String.length vin <> 17%nat ->
  exists message,
    handleVinLookup w vin url s = (errorResponse "invalid_vin" message None, s).
Proof.
  intros H. unfold handleVinLookup.
  destruct (negb (truthy_str vin) || negb (String.length vin =? 17)%nat) eqn:Hlen.
  - eexists. reflexivity.
  - apply length_gate in Hlen.
    destruct H as [H | H]; [| contradiction].
    rewrite H. simpl. eexists. reflexivity.
Qed.

Lemma vin_lookup_invalid_vin_witness :
  exists message,
    handleVinLookup (world_of two_accords offline) "1HGCV1F34LA00000Q" (url_of []) fresh
    = (errorResponse "invalid_vin" message None, fresh).
Proof. apply vin_lookup_invalid_vin. left. reflexivity. Defined.

(** X5. For a well-formed VIN, handleVinLookup stops after the single NHTSA
    fetch, without any database query, when the call fails
    (internal_error) or when the decoded record lacks a year (null or 0),
    a make or a model (decode_failed). *)
Theorem vin_lookup_stops_after_decode
    (w : World) (vin : string) (url : URL) (s : St) :
  vin_regex (toUpperCase vin) = true ->
  match nhtsa w (toUpperCase vin) with
  | None =>
      handleVinLookup w vin url s
      = (internalErrorResponse, after_event s (EFetch (nhtsa_url (toUpperCase vin))))
  | Some results =>
      undecodable results ->
      handleVinLookup w vin url s
      = (errorResponse "decode_failed" "Could not decode vehicle information from VIN" None,
         after_event s (EFetch (nhtsa_url (toUpperCase vin))))
  end.
Proof.
  intros Hre. unfold handleVinLookup. rewrite (valid_vin_gate vin Hre), Hre.
  cbn [negb]. rewrite bind_eq, decodeVinWithNHTSA_eq. cbn [fst snd].
  destruct (nhtsa w (toUpperCase vin)) as [results|]; [|reflexivity].
  unfold undecodable. intros Hun. cbn [year make model decoded_of].
  destruct (getNumericValue results "Model Year") as [y|] eqn:Hy; [|reflexivity].
  destruct (getValue results "Make") as [mk|] eqn:Hmk; [|reflexivity].
  destruct (getValue results "Model") as [md|] eqn:Hmd; [|reflexivity].
  destruct Hun as [H | [H | [H | H]]]; try discriminate.
  injection H as ->. reflexivity.
Qed.

Lemma vin_lookup_stops_after_decode_witness :
  match nhtsa (world_of two_accords (fun _ => Some unknown_vehicle))
              (toUpperCase "1HGCV1F34LA000001") with
  | None =>
      handleVinLookup (world_of two_accords (fun _ => Some unknown_vehicle))
        "1HGCV1F34LA000001" (url_of []) fresh
      = (internalErrorResponse,
         after_event fresh (EFetch (nhtsa_url (toUpperCase "1HGCV1F34LA000001"))))
  | Some results =>
      undecodable results ->
      handleVinLookup (world_of two_accords (fun _ => Some unknown_vehicle))
        "1HGCV1F34LA000001" (url_of []) fresh
      = (errorResponse "decode_failed" "Could not decode vehicle information from VIN" None,
         after_event fresh (EFetch (nhtsa_url (toUpperCase "1HGCV1F34LA000001"))))
  end.
Proof. apply vin_lookup_stops_after_decode. reflexivity. Defined.

(** ** The router *)

Lemma serve_accepted (c : Collaborators) (w : World) (req : Request) (s : St) :
  accepted c req ->
  serve c w req s
  = let '(response, endpoint, s') := route w req (pathParts_of (pathname req)) s in
    {| response := response;
       after := s';
       usage := Some {| usage_apiKeyId := apiKeyId (authenticateRequest c req);
                        usage_organizationId := organizationId (authenticateRequest c req);
                        usage_endpoint := endpoint;
                        usage_method := method req;
                        usage_source :=
                          default "api" (or_else (X_Client_Source req) (Some "api"));
                        usage_response := response |} |}.
Proof.
  intros (Hcors & Hauth & Hrate). unfold serve. rewrite Hcors, Hauth. cbn [negb].
  rewrite Hrate. reflexivity.
Qed.

(** X6. A request stopped by the CORS check, by authentication or by the rate
    limit gets the CORS, unauthorized or rate-limit response; no handler
    runs (state unchanged) and nothing is handed to logUsage. *)
Theorem refused_requests_reach_no_handler
    (c : Collaborators) (w : World) (req : Request) (s : St) :
  ~ accepted c req ->
  after (serve c w req s) = s
  /\ usage (serve c w req s) = None
  /\ turned_away (response (serve c w req s)).
Proof.
  intros Hno. unfold serve.
  destruct (handleCors c req) eqn:Hcors; [repeat split|].
  destruct (isValid (authenticateRequest c req)) eqn:Hauth; [|repeat split].
  destruct (allowed _) eqn:Hrate; [|repeat split].
  exfalso. apply Hno. repeat split; assumption.
Qed.

Lemma refused_requests_reach_no_handler_witness :
  after (serve closed_house (world_of two_accords offline)
           (request_of "GET" "/vehicles/years" []) fresh) = fresh
  /\ usage (serve closed_house (world_of two_accords offline)
              (request_of "GET" "/vehicles/years" []) fresh) = None
  /\ turned_away (response (serve closed_house (world_of two_accords offline)
                              (request_of "GET" "/vehicles/years" []) fresh)).
Proof.
  apply refused_requests_reach_no_handler.
  intros (_ & H & _). discriminate H.
Defined.

Lemma labelled_eq {A} (m : M A) (endpoint : string) (s : St) :
  bind m (fun response => ret (response, endpoint)) s = (fst (m s), endpoint, snd (m s)).
Proof. unfold bind, ret. destruct (m s). reflexivity. Qed.

Lemma plain_eq (m : M Response) (s : St) :
  plain m s = (Plain (fst (m s)), snd (m s)).
Proof. unfold plain, bind, ret. destruct (m s). reflexivity. Qed.

Lemma route_label (w : World) (req : Request) (parts : list string) (s : St) :
  In (snd (fst (route w req parts s))) endpoint_labels
  \/ (snd (fst (route w req parts s)) = pathname req
      /\ snd (route w req parts s) = s
      /\ router_refusal (fst (fst (route w req parts s)))).
Proof.
  unfold route, router_refusal.
  repeat match goal with
         | |- context [if ?b then _ else _] => destruct b
         end;
    rewrite ?labelled_eq; cbn [fst snd ret];
    first [ left; unfold endpoint_labels; cbn [In]; tauto
          | right; repeat split; tauto ].
Qed.

(** X7. Every request that passes CORS, authentication and rate limit is
    logged once, with the response it got and its method; the logged
    endpoint is one of the thirteen fixed endpoint names, or else the raw
    path, and in that case no handler ran and the response is 405
    method_not_allowed or one of the two 'unknown endpoint' 404s. *)
Theorem accepted_requests_are_logged
    (c : Collaborators) (w : World) (req : Request) (s : St) :
  accepted c req ->
  exists u,
    usage (serve c w req s) = Some u
    /\ usage_response u = response (serve c w req s)
    /\ usage_method u = method req
    /\ (In (usage_endpoint u) endpoint_labels
        \/ (usage_endpoint u = pathname req
            /\ after (serve c w req s) = s
            /\ router_refusal (response (serve c w req s)))).
Proof.
  intros Hacc. rewrite (serve_accepted c w req s Hacc).
  pose proof (route_label w req (pathParts_of (pathname req)) s) as Hlabel.
  destruct (route w req (pathParts_of (pathname req)) s) as [[r e] s'].
  cbn [fst snd] in Hlabel. eexists. cbn. repeat split. exact Hlabel.
Qed.

Lemma accepted_requests_are_logged_witness :
  exists u,
    usage (serve open_house (world_of two_accords offline)
             (request_of "GET" "/vehicles/years" []) fresh) = Some u
    /\ usage_response u
       = response (serve open_house (world_of two_accords offline)
                     (request_of "GET" "/vehicles/years" []) fresh)
    /\ usage_method u = method (request_of "GET" "/vehicles/years" [])
    /\ (In (usage_endpoint u) endpoint_labels
        \/ (usage_endpoint u = pathname (request_of "GET" "/vehicles/years" [])
            /\ after (serve open_house (world_of two_accords offline)
                        (request_of "GET" "/vehicles/years" []) fresh) = fresh
            /\ router_refusal
                 (response (serve open_house (world_of two_accords offline)
                              (request_of "GET" "/vehicles/years" []) fresh)))).
Proof. apply accepted_requests_are_logged. repeat split. Defined.

(** X8. An accepted request with any method other than GET is answered with
    method_not_allowed (status 405) whatever its path; no handler runs and
    the raw path is logged as endpoint. *)
Theorem only_get_is_served
    (c : Collaborators) (w : World) (req : Request) (s : St) :
  accepted c req ->
  method req <> "GET" ->
  response (serve c w req s)
  = Plain (errorResponse "method_not_allowed" "Only GET requests are supported" (Some 405))
  /\ after (serve c w req s) = s
  /\ logged_endpoint (serve c w req s) = Some (pathname req).
Proof.
  intros Hacc Hverb. rewrite (serve_accepted c w req s Hacc). unfold route.
  apply String.eqb_neq in Hverb. rewrite Hverb. cbn. repeat split.
Qed.

Lemma only_get_is_served_witness :
  response (serve open_house (world_of two_accords offline)
              (request_of "POST" "/vehicles/years" []) fresh)
  = Plain (errorResponse "method_not_allowed" "Only GET requests are supported" (Some 405))
  /\ after (serve open_house (world_of two_accords offline)
              (request_of "POST" "/vehicles/years" []) fresh) = fresh
  /\ logged_endpoint (serve open_house (world_of two_accords offline)
                        (request_of "POST" "/vehicles/years" []) fresh)
     = Some (pathname (request_of "POST" "/vehicles/years" [])).
Proof.
  apply only_get_is_served; [repeat split | discriminate].
Defined.

(** X9. An accepted GET request whose first path segment is not 'vehicles'
    (including the empty path and '/makes', which the route list in the
    comment mentions) is answered with not_found 'Unknown endpoint' and no
    handler runs. *)
Theorem paths_outside_vehicles_are_unknown
    (c : Collaborators) (w : World) (req : Request) (s : St) :
  accepted c req ->
  method req = "GET" ->
  nth_error (pathParts_of (pathname req)) 0 <> Some "vehicles" ->
  response (serve c w req s) = Plain (notFoundResponse "Unknown endpoint")
  /\ after (serve c w req s) = s.
Proof.
  intros Hacc Hverb Hfirst. rewrite (serve_accepted c w req s Hacc). unfold route.
  rewrite Hverb. cbn [String.eqb Ascii.eqb Bool.eqb negb].
  destruct (nth_error (pathParts_of (pathname req)) 0) as [first|] eqn:Hnth.
  - cbn [equals]. destruct (String.eqb first "vehicles") eqn:Heq.
    + apply String.eqb_eq in Heq. subst first. contradiction.
    + cbn. split; reflexivity.
  - cbn. split; reflexivity.
Qed.

Lemma paths_outside_vehicles_are_unknown_witness :
  response (serve open_house (world_of two_accords offline)
              (request_of "GET" "/makes" []) fresh)
  = Plain (notFoundResponse "Unknown endpoint")
  /\ after (serve open_house (world_of two_accords offline)
              (request_of "GET" "/makes" []) fresh) = fresh.
Proof.
  apply paths_outside_vehicles_are_unknown; [repeat split | reflexivity | discriminate].
Defined.

Lemma split_on_not_nil (sep : ascii) (s : string) : split_on sep s <> [].
Proof.
  destruct s as [|c s]; simpl; [discriminate|].
  destruct (Ascii.eqb c sep); [discriminate|].
  destruct (split_on sep s); discriminate.
Qed.

Lemma split_on_whole (sep : ascii) (p : string) :
  forall_chars (fun c => negb (Ascii.eqb c sep)) p = true ->
  split_on sep p = [p].
Proof.
  induction p as [|c p IH]; simpl; [reflexivity|].
  intros H. apply andb_true_iff in H as [Hc Hp].
  apply negb_true_iff in Hc. rewrite Hc, (IH Hp). reflexivity.
Qed.

Lemma split_on_app (sep : ascii) (p r : string) :
  forall_chars (fun c => negb (Ascii.eqb c sep)) p = true ->
  split_on sep (p ++ String sep r) = p :: split_on sep r.
Proof.
  induction p as [|c p IH]; simpl.
  - intros _. now rewrite Ascii.eqb_refl.
  - intros H. apply andb_true_iff in H as [Hc Hp].
    apply negb_true_iff in Hc. rewrite Hc, (IH Hp). reflexivity.
Qed.

Lemma string_app_nil_r (s : string) : (s ++ EmptyString)%string = s.
Proof.
  induction s as [|c s IH]; [reflexivity|].
  change (String c (s ++ EmptyString)%string = String c s). now f_equal.
Qed.

Lemma segments_of_pathname (pathname : string) :
  Forall (fun p => segment p = true) (pathParts_of pathname).
Proof.
  unfold pathParts_of. apply List.Forall_forall. intros p Hin.
  apply List.filter_In in Hin as [Hin Htruthy].
  unfold segment. rewrite Htruthy. simpl. clear Htruthy.
  revert p Hin. induction pathname as [|c rest IH]; simpl; intros p Hin.
  - destruct Hin as [<- | []]. reflexivity.
  - destruct (Ascii.eqb c "/") eqn:Hc.
    + destruct Hin as [<- | Hin]; [reflexivity | now apply IH].
    + destruct (split_on "/" rest) as [|h t] eqn:Hs.
      * destruct Hin as [<- | []]. simpl. now rewrite Hc.
      * destruct Hin as [<- | Hin].
        -- simpl. rewrite Hc. simpl. apply IH. now left.
        -- apply IH. now right.
Qed.

Lemma string_app_assoc (a b c : string) : ((a ++ b) ++ c = a ++ (b ++ c))%string.
Proof.
  induction a as [|x a IH]; [reflexivity|].
  change (String x ((a ++ b) ++ c) = String x (a ++ (b ++ c)))%string. now f_equal.
Qed.

Lemma split_on_prefix (sep : ascii) (p r : string) :
  forall_chars (fun c => negb (Ascii.eqb c sep)) p = true ->
  split_on sep (p ++ r)
  = match split_on sep r with
    | h :: t => (p ++ h)%string :: t
    | [] => [p]
    end.
Proof.
  induction p as [|c p IH]; intros H.
  - change (EmptyString ++ r)%string with r.
    pose proof (split_on_not_nil sep r).
    destruct (split_on sep r); [contradiction | reflexivity].
  - simpl in H. apply andb_true_iff in H as [Hc Hp]. apply negb_true_iff in Hc.
    change (String c p ++ r)%string with (String c (p ++ r)).
    cbn [split_on]. rewrite Hc, (IH Hp).
    destruct (split_on sep r); reflexivity.
Qed.

Lemma path_of_tail_split (ps : list string) (rest : string) :
  rest = EmptyString \/ rest = "/" ->
  exists t, split_on "/" (path_of ps ++ rest) = EmptyString :: t.
Proof.
  intros Hrest. destruct ps as [|q qs].
  - change (path_of [] ++ rest)%string with rest.
    destruct Hrest as [-> | ->]; eexists; reflexivity.
  - change (path_of (q :: qs) ++ rest)%string
      with (String "/" ((q ++ path_of qs) ++ rest)).
    cbn [split_on]. change (Ascii.eqb "/" "/") with true. cbn iota.
    eexists. reflexivity.
Qed.

Lemma path_parts_with_tail (parts : list string) (rest : string) :
  rest = EmptyString \/ rest = "/" ->
  Forall (fun p => segment p = true) parts ->
  pathParts_of (path_of parts ++ rest) = parts.
Proof.
  intros Hrest. unfold pathParts_of.
  induction 1 as [|p ps Hp Hps IH].
  - change (path_of [] ++ rest)%string with rest.
    destruct Hrest as [-> | ->]; reflexivity.
  - unfold segment in Hp. apply andb_true_iff in Hp as [Htruthy Hp].
    change (path_of (p :: ps) ++ rest)%string
      with (String "/" ((p ++ path_of ps) ++ rest)).
    cbn [split_on]. change (Ascii.eqb "/" "/") with true. cbn iota.
    cbn [List.filter truthy_str]. rewrite string_app_assoc.
    rewrite (split_on_prefix _ _ _ Hp).
    destruct (path_of_tail_split ps rest Hrest) as [t Ht].
    rewrite Ht in IH |- *. cbn [List.filter truthy_str] in IH.
    rewrite string_app_nil_r. cbn [List.filter]. rewrite Htruthy.
    now rewrite IH.
Qed.

(** X10. url.pathname.split('/').filter(Boolean) recovers the segments of a
    path: for non-empty segments without a slash, the path '/s1/.../sn'
    and the same path with a trailing slash both give [s1, ..., sn]. *)
Theorem path_parts_round_trip (parts : list string) :
  Forall (fun p => segment p = true) parts ->
  pathParts_of (path_of parts) = parts
  /\ pathParts_of (path_of parts ++ "/")%string = parts.
Proof.
  intros H. split.
  - rewrite <- (string_app_nil_r (path_of parts)).
    now apply path_parts_with_tail; [left|].
  - now apply path_parts_with_tail; [right|].
Qed.

Lemma path_parts_round_trip_witness :
  pathParts_of (path_of ["vehicles"; "makes"; "Honda"; "models"])
  = ["vehicles"; "makes"; "Honda"; "models"]
  /\ pathParts_of (path_of ["vehicles"; "makes"; "Honda"; "models"] ++ "/")%string
     = ["vehicles"; "makes"; "Honda"; "models"].
Proof. apply path_parts_round_trip. repeat constructor. Defined.

Lemma not_reserved (id : string) :
  reserved id = false ->
  String.eqb id "years" = false /\ String.eqb id "search" = false
  /\ String.eqb id "vin" = false /\ String.eqb id "decode" = false
  /\ String.eqb id "lookup" = false /\ String.eqb id "makes" = false.
Proof.
  unfold reserved. cbn [existsb]. intros H.
  repeat (apply orb_false_elim in H as [? H]). repeat split; assumption.
Qed.

(** X11. For an accepted GET request to /vehicles/<id>/specs, /warranty,
    /market-value or /maintenance, where <id> is a path segment other than
    the six words the router tests first (years, search, vin, decode,
    lookup, makes), the response, the state and the logged endpoint are
    those of handleSpecsById, handleWarranty, handleMarketValue and
    handleMaintenance on that id. *)
Theorem vehicle_id_routes
    (c : Collaborators) (w : World) (req : Request) (s : St) (id : string) :
  accepted c req ->
  method req = "GET" ->
  segment id = true ->
  reserved id = false ->
  (pathname req = path_of ["vehicles"; id; "specs"] ->
   response (serve c w req s) = fst (handleSpecsById w id s)
   /\ after (serve c w req s) = snd (handleSpecsById w id s)
   /\ logged_endpoint (serve c w req s) = Some "/vehicles/:id/specs")
  /\ (pathname req = path_of ["vehicles"; id; "warranty"] ->
      response (serve c w req s) = Plain (fst (handleWarranty w id s))
      /\ after (serve c w req s) = snd (handleWarranty w id s)
      /\ logged_endpoint (serve c w req s) = Some "/vehicles/:id/warranty")
  /\ (pathname req = path_of ["vehicles"; id; "market-value"] ->
      response (serve c w req s) = Plain (fst (handleMarketValue w id (req_url req) s))
      /\ after (serve c w req s) = snd (handleMarketValue w id (req_url req) s)
      /\ logged_endpoint (serve c w req s) = Some "/vehicles/:id/market-value")
  /\ (pathname req = path_of ["vehicles"; id; "maintenance"] ->
      response (serve c w req s) = Plain (fst (handleMaintenance w id (req_url req) s))
      /\ after (serve c w req s) = snd (handleMaintenance w id (req_url req) s)
      /\ logged_endpoint (serve c w req s) = Some "/vehicles/:id/maintenance").
Proof.
  intros Hacc Hverb Hseg Hid. unfold logged_endpoint.
  rewrite (serve_accepted c w req s Hacc).
  assert (Hparts : forall sub, segment sub = true ->
            pathParts_of (path_of ["vehicles"; id; sub]) = ["vehicles"; id; sub]).
  { intros sub Hsub. rewrite <- (string_app_nil_r (path_of ["vehicles"; id; sub])).
    apply path_parts_with_tail; [now left|]. repeat constructor; assumption. }
  destruct (not_reserved _ Hid) as (Hy & Hs & Hv & Hd & Hl & Hm).
  repeat apply conj; intros ->; rewrite Hparts by reflexivity;
    unfold route; rewrite Hverb;
    cbn [nth_error equals given truthy_ostr negb]; rewrite Hy, Hs, Hv, Hd, Hl, Hm;
    rewrite ?andb_false_r; cbn;
    rewrite ?labelled_eq, ?plain_eq; cbn [fst snd]; repeat split.
Qed.

Lemma vehicle_id_routes_witness :
  response (serve open_house (world_of two_accords offline)
              (request_of "GET" (path_of ["vehicles"; spec_id accord; "warranty"]) []) fresh)
  = Plain (fst (handleWarranty (world_of two_accords offline) (spec_id accord) fresh))
  /\ after (serve open_house (world_of two_accords offline)
              (request_of "GET" (path_of ["vehicles"; spec_id accord; "warranty"]) []) fresh)
     = snd (handleWarranty (world_of two_accords offline) (spec_id accord) fresh)
  /\ logged_endpoint
       (serve open_house (world_of two_accords offline)
          (request_of "GET" (path_of ["vehicles"; spec_id accord; "warranty"]) []) fresh)
     = Some "/vehicles/:id/warranty".
Proof.
  apply (vehicle_id_routes open_house (world_of two_accords offline)
           (request_of "GET" (path_of ["vehicles"; spec_id accord; "warranty"]) [])
           fresh (spec_id accord));
    repeat split.
Defined.

(** ** The cache *)

Lemma search_guard (url : URL) :
  (2 <= String.length (search_query url))%nat ->
  negb (truthy_str (search_query url)) || (String.length (search_query url) <? 2)%nat = false.
Proof.
  intros H. destruct (search_query url) as [|c q]; [simpl in H; lia|].
  cbn [truthy_str negb orb]. apply Nat.ltb_ge. exact H.
Qed.

(** X12. When Redis answers and holds a body under the handler's cache key,
    handleMakes, handleModels, handleTrims, handleYears and
    handleVehicleSearch (for a query of at least two characters) return
    that body as a success, and the cache read is the only external call:
    no database query is made and nothing is written. *)
Theorem cached_answers_skip_the_database (w : World) (s : St) (body : payload) :
  redis_up w = true ->
  (forall url, redis s !! makes_key url = Some body ->
     handleMakes w url s
     = (successResponse body, after_event s (ECacheGet (makes_key url))))
  /\ (forall make url, redis s !! models_key make url = Some body ->
        handleModels w make url s
        = (successResponse body, after_event s (ECacheGet (models_key make url))))
  /\ (forall make model url, redis s !! trims_key make model url = Some body ->
        handleTrims w make model url s
        = (successResponse body, after_event s (ECacheGet (trims_key make model url))))
  /\ (redis s !! "vehicles:years" = Some body ->
        handleYears w s = (successResponse body, after_event s (ECacheGet "vehicles:years")))
  /\ (forall url, (2 <= String.length (search_query url))%nat ->
        redis s !! search_key url = Some body ->
        handleVehicleSearch w url s
        = (successResponse body, after_event s (ECacheGet (search_key url)))).
Proof.
  intros Hup. repeat apply conj.
  - intros url Hit. unfold handleMakes. fold (makes_key url).
    rewrite bind_eq, cache_read_eq, Hup. cbn [fst snd]. rewrite Hit. reflexivity.
  - intros make url Hit. unfold handleModels. fold (models_key make url).
    rewrite bind_eq, cache_read_eq, Hup. cbn [fst snd]. rewrite Hit. reflexivity.
  - intros make model url Hit. unfold handleTrims. fold (trims_key make model url).
    rewrite bind_eq, cache_read_eq, Hup. cbn [fst snd]. rewrite Hit. reflexivity.
  - intros Hit. unfold handleYears.
    rewrite bind_eq, cache_read_eq, Hup. cbn [fst snd]. rewrite Hit. reflexivity.
  - intros url Hlen Hit. unfold handleVehicleSearch. rewrite (search_guard url Hlen).
    fold (search_limit url). fold (search_key url).
    rewrite bind_eq, cache_read_eq, Hup. cbn [fst snd]. rewrite Hit. reflexivity.
Qed.

Lemma cached_answers_skip_the_database_witness :
  handleYears (world_of no_rows offline) warm
  = (successResponse (PYears [2021; 2020]), after_event warm (ECacheGet "vehicles:years")).
Proof.
  apply (cached_answers_skip_the_database (world_of no_rows offline) warm
           (PYears [2021; 2020])); reflexivity.
Defined.

Lemma lookup_written (w : World) (key : string) (v : payload) (ttl : Z) (s : St) :
  redis_up w = true ->
  redis (snd (cache_write w key v ttl s)) !! key = Some v.
Proof.
  intros Hup. rewrite cache_write_eq, Hup. cbn [snd redis]. apply lookup_insert_eq.
Qed.

Lemma hit_after (w : World) (key : string) (body : payload) (s : St)
    (rest : M Response) :
  redis_up w = true ->
  redis s !! key = Some body ->
  bind (cache_read w key)
       (fun cached => match cached with
                      | Some body => ret (successResponse body)
                      | None => rest
                      end) s
  = (successResponse body, after_event s (ECacheGet key)).
Proof.
  intros Hup Hit. rewrite bind_eq, cache_read_eq, Hup. cbn [fst snd]. now rewrite Hit.
Qed.

(** X13. With Redis answering, whenever handleMakes, handleModels, handleTrims
    or handleVehicleSearch answers with a success, repeating the same
    request on the resulting state returns the same body from the cache,
    with the cache read as its only external call. *)
Theorem successful_answers_are_cached (w : World) (s : St) (body : payload) :
  redis_up w = true ->
  (forall url, fst (handleMakes w url s) = successResponse body ->
     handleMakes w url (snd (handleMakes w url s))
     = (successResponse body,
        after_event (snd (handleMakes w url s)) (ECacheGet (makes_key url))))
  /\ (forall make url, fst (handleModels w make url s) = successResponse body ->
        handleModels w make url (snd (handleModels w make url s))
        = (successResponse body,
           after_event (snd (handleModels w make url s)) (ECacheGet (models_key make url))))
  /\ (forall make model url,
        fst (handleTrims w make model url s) = successResponse body ->
        handleTrims w make model url (snd (handleTrims w make model url s))
        = (successResponse body,
           after_event (snd (handleTrims w make model url s))
             (ECacheGet (trims_key make model url))))
  /\ (forall url, fst (handleVehicleSearch w url s) = successResponse body ->
        handleVehicleSearch w url (snd (handleVehicleSearch w url s))
        = (successResponse body,
           after_event (snd (handleVehicleSearch w url s)) (ECacheGet (search_key url)))).
Proof.
  intros Hup. repeat apply conj.
  - intros url. unfold handleMakes. fold (makes_key url).
    rewrite (bind_eq _ _ s), cache_read_eq, Hup. cbn [fst snd].
    destruct (redis s !! makes_key url) as [hit|] eqn:Hit.
    + intros [= ->]. cbn [snd ret]. now apply hit_after.
    + rewrite bind_eq.
      match goal with |- context [fst (?m ?st)] => destruct (m st) as [[makes|] s1] end;
        cbn [fst snd]; [|discriminate].
      rewrite bind_eq. cbn [ret fst snd]. intros [= <-].
      apply hit_after; [assumption | now apply lookup_written].
  - intros make url. unfold handleModels. fold (models_key make url).
    rewrite (bind_eq _ _ s), cache_read_eq, Hup. cbn [fst snd].
    destruct (redis s !! models_key make url) as [hit|] eqn:Hit.
    + intros [= ->]. cbn [snd ret]. now apply hit_after.
    + rewrite bind_eq.
      match goal with |- context [fst (?m ?st)] => destruct (m st) as [[models|] s1] end;
        cbn [fst snd]; [|discriminate].
      rewrite bind_eq. cbn [ret fst snd]. intros [= <-].
      apply hit_after; [assumption | now apply lookup_written].
  - intros make model url. unfold handleTrims. fold (trims_key make model url).
    rewrite (bind_eq _ _ s), cache_read_eq, Hup. cbn [fst snd].
    destruct (redis s !! trims_key make model url) as [hit|] eqn:Hit.
    + intros [= ->]. cbn [snd ret]. now apply hit_after.
    + rewrite bind_eq, from_eq. cbn [fst snd].
      destruct (error _); [discriminate|].
      rewrite bind_eq. cbn [ret fst snd]. intros [= <-].
      apply hit_after; [assumption | now apply lookup_written].
  - intros url. unfold handleVehicleSearch.
    fold (search_limit url). fold (search_key url).
    destruct (negb (truthy_str (search_query url)) || _); [discriminate|].
    rewrite (bind_eq _ _ s), cache_read_eq, Hup. cbn [fst snd].
    destruct (redis s !! search_key url) as [hit|] eqn:Hit.
    + intros [= ->]. cbn [snd ret]. now apply hit_after.
    + destruct (tokenize _) as [yearFilter textTokens].
      rewrite bind_eq, from_eq. cbn [fst snd].
      destruct (negb (negb (relation_missing _)) || _).
      * rewrite bind_eq, from_eq. cbn [fst snd].
        destruct (error _); [discriminate|].
        rewrite bind_eq. cbn [ret fst snd]. intros [= <-].
        apply hit_after; [assumption | now apply lookup_written].
      * destruct (error _); [discriminate|].
        rewrite bind_eq. cbn [ret fst snd]. intros [= <-].
        apply hit_after; [assumption | now apply lookup_written].
Qed.

Lemma successful_answers_are_cached_witness :
  handleMakes (world_of makes_view_timing_out offline) (url_of [])
    (snd (handleMakes (world_of makes_view_timing_out offline) (url_of []) fresh))
  = (successResponse (PStrings ["Honda"; "Toyota"]),
     after_event (snd (handleMakes (world_of makes_view_timing_out offline) (url_of []) fresh))
       (ECacheGet (makes_key (url_of [])))).
Proof.
  apply (successful_answers_are_cached (world_of makes_view_timing_out offline) fresh
           (PStrings ["Honda"; "Toyota"])); reflexivity.
Defined.

(** X14. When the cache has no years and the query on the view vehicle_years
    fails while the one on vehicle_specs succeeds, handleYears answers
    with a success from vehicle_specs but writes nothing to the cache: its
    calls are the cache read and the two queries, so the next request
    repeats both queries. *)
Theorem years_fallback_is_not_cached (w : World) (s : St) (code : string) :
  (redis_up w = false \/ redis s !! "vehicles:years" = None) ->
  vehicle_years (db w) = Failing code ->
  error (run_query (vehicle_specs (db w)) (select |> order "year" false)) = None ->
  exists years,
    handleYears w s
    = (successResponse (PYears years),
       {| redis := redis s;
          trace := trace s ++ [ECacheGet "vehicles:years"; EQuery "vehicle_years";
                               EQuery "vehicle_specs"] |}).
Proof.
  intros Hmiss Hview Hspecs. unfold handleYears.
  rewrite bind_eq, cache_read_eq. cbn [fst snd].
  assert (Hnone : (if redis_up w then redis s !! "vehicles:years" else None) = None).
  { destruct Hmiss as [-> | ->]; [reflexivity | now destruct (redis_up w)]. }
  rewrite Hnone. rewrite bind_eq, from_eq, Hview. cbn [fst snd run_query error failed].
  rewrite bind_eq, from_eq. cbn [fst snd]. rewrite Hspecs.
  eexists. unfold ret. cbn [trace redis]. rewrite <- !app_assoc. reflexivity.
Qed.

Lemma years_fallback_is_not_cached_witness :
  exists years,
    handleYears (world_of years_view_missing offline) fresh
    = (successResponse (PYears years),
       {| redis := redis fresh;
          trace := trace fresh ++ [ECacheGet "vehicles:years"; EQuery "vehicle_years";
                                   EQuery "vehicle_specs"] |}).
Proof.
  apply (years_fallback_is_not_cached (world_of years_view_missing offline) fresh "42P01");
    [right; reflexivity | reflexivity | reflexivity].
Defined.

(** X15. The cached handlers fail open: when Redis does not answer (reads and
    writes throw), handleMakes, handleModels, handleTrims, handleYears and
    handleVehicleSearch give the response they give on an empty cache with
    Redis up, and the store is left unchanged. *)
Theorem redis_outage_is_a_cache_miss (w : World) (s : St) :
  (forall url,
     fst (handleMakes (with_redis false w) url s)
     = fst (handleMakes (with_redis true w) url (cold s))
     /\ redis (snd (handleMakes (with_redis false w) url s)) = redis s)
  /\ (forall make url,
        fst (handleModels (with_redis false w) make url s)
        = fst (handleModels (with_redis true w) make url (cold s))
        /\ redis (snd (handleModels (with_redis false w) make url s)) = redis s)
  /\ (forall make model url,
        fst (handleTrims (with_redis false w) make model url s)
        = fst (handleTrims (with_redis true w) make model url (cold s))
        /\ redis (snd (handleTrims (with_redis false w) make model url s)) = redis s)
  /\ (fst (handleYears (with_redis false w) s)
      = fst (handleYears (with_redis true w) (cold s))
      /\ redis (snd (handleYears (with_redis false w) s)) = redis s)
  /\ (forall url,
        fst (handleVehicleSearch (with_redis false w) url s)
        = fst (handleVehicleSearch (with_redis true w) url (cold s))
        /\ redis (snd (handleVehicleSearch (with_redis false w) url s)) = redis s).
Proof.
  repeat apply conj; intros; repeat apply conj;
    try unfold handleMakes; try unfold handleModels; try unfold handleTrims;
    try unfold handleYears; try unfold handleVehicleSearch;
    repeat first
      [ progress rewrite ?bind_eq, ?from_eq, ?cache_read_eq, ?cache_write_eq
      | progress cbn [fst snd redis trace redis_up db with_redis cold ret]
      | rewrite lookup_empty
      | reflexivity
      | match goal with
        | |- context [if ?b then _ else _] => destruct b
        | |- context [match ?x with _ => _ end] =>
            lazymatch x with
            | fst _ => fail
            | _ => destruct x
            end
        end ].
Qed.

(** ** Handlers addressed by a vehicle id *)

(** X16. When the query on vehicle_specs fails, handleMarketValue and
    handleMaintenance ignore the error and answer not_found 'Vehicle not
    found', while handleSpecsById answers internal_error (not_found only
    for the code PGRST116); each makes that one query and nothing else. *)
Theorem failing_spec_table (w : World) (id : string) (url : URL) (s : St) (code : string) :
  vehicle_specs (db w) = Failing code ->
  handleMarketValue w id url s
  = (notFoundResponse "Vehicle not found", after_event s (EQuery "vehicle_specs"))
  /\ handleMaintenance w id url s
     = (notFoundResponse "Vehicle not found", after_event s (EQuery "vehicle_specs"))
  /\ handleSpecsById w id s
     = (if String.eqb code "PGRST116"
        then Plain (notFoundResponse "Vehicle not found")
        else Plain internalErrorResponse,
        after_event s (EQuery "vehicle_specs")).
Proof.
  intros Hspecs. unfold handleMarketValue, handleMaintenance, handleSpecsById.
  rewrite !bind_eq, !from_eq, Hspecs. cbn [fst snd run_query single failed error row row_error].
  repeat split. now destruct (String.eqb code "PGRST116").
Qed.

Lemma failing_spec_table_witness :
  handleMarketValue (world_of specs_unreachable offline) (spec_id accord) (url_of []) fresh
  = (notFoundResponse "Vehicle not found", after_event fresh (EQuery "vehicle_specs"))
  /\ handleMaintenance (world_of specs_unreachable offline) (spec_id accord) (url_of []) fresh
     = (notFoundResponse "Vehicle not found", after_event fresh (EQuery "vehicle_specs"))
  /\ handleSpecsById (world_of specs_unreachable offline) (spec_id accord) fresh
     = (if String.eqb "57014" "PGRST116"
        then Plain (notFoundResponse "Vehicle not found")
        else Plain internalErrorResponse,
        after_event fresh (EQuery "vehicle_specs")).
Proof. apply failing_spec_table. reflexivity. Defined.

Lemma by_id_query (rows : list VehicleSpec) (id : string) :
  run_query (Rows rows) (select |> eq "id" (LStr id))
  = {| data := Some (List.filter (fun sp => String.eqb (spec_id sp) id) rows);
       error := None |}.
Proof.
  unfold run_query. cbn. rewrite order_rows_no_keys. f_equal. f_equal.
  apply List.filter_ext. intros sp. unfold matches. cbn.
  unfold column, VehicleSpec_table. cbn. apply andb_true_r.
Qed.

(** X17. handleSpecsById answers with a spec only when the table can be read
    and exactly one of its rows has the requested id; the spec returned is
    that row. *)
Theorem specs_by_id_sound (w : World) (id : string) (s : St) (sp : VehicleSpec) :
  fst (handleSpecsById w id s) = specResponse sp ->
  exists rows,
    vehicle_specs (db w) = Rows rows
    /\ List.filter (fun row => String.eqb (spec_id row) id) rows = [sp]
    /\ spec_id sp = id.
Proof.
  unfold handleSpecsById. rewrite bind_eq, from_eq. cbn [fst snd].
  destruct (vehicle_specs (db w)) as [rows|code].
  - rewrite by_id_query. unfold single. cbn [error data].
    destruct (List.filter _ rows) as [|x [|y l]] eqn:Hf; cbn; try discriminate.
    intros [= ->]. exists rows. split; [reflexivity|]. split; [exact Hf|].
    assert (Hin : In sp (List.filter (fun row => String.eqb (spec_id row) id) rows))
      by (rewrite Hf; now left).
    apply List.filter_In in Hin as [_ Heq]. now apply String.eqb_eq.
  - cbn. destruct (String.eqb code "PGRST116"); discriminate.
Qed.

Lemma specs_by_id_sound_witness :
  exists rows,
    vehicle_specs (db (world_of two_accords offline)) = Rows rows
    /\ List.filter (fun row => String.eqb (spec_id row) (spec_id accord)) rows = [accord]
    /\ spec_id accord = spec_id accord.
Proof.
  apply (specs_by_id_sound (world_of two_accords offline) (spec_id accord) fresh accord).
  reflexivity.
Defined.

(** ** Market values *)

Lemma find_app {A} (f : A -> bool) (l1 l2 : list A) :
  List.find f (l1 ++ l2)
  = match List.find f l1 with Some x => Some x | None => List.find f l2 end.
Proof.
  induction l1 as [|x l1 IH]; simpl; [reflexivity|].
  destruct (f x); [reflexivity | exact IH].
Qed.

Lemma fold_insert_lookup (values : list MarketValueRecord) (acc : gmap string ValueSet)
    (k : string) :
  fold_left (fun result v => <[mv_condition v := new_ValueSet v]> result) values acc !! k
  = match List.find (fun v => String.eqb (mv_condition v) k) (rev values) with
    | Some v => Some (new_ValueSet v)
    | None => acc !! k
    end.
Proof.
  revert acc. induction values as [|v values IH]; intros acc; [reflexivity|].
  cbn [fold_left rev]. rewrite IH, find_app. cbn [List.find].
  destruct (List.find _ (rev values)); [reflexivity|].
  destruct (String.eqb (mv_condition v) k) eqn:E.
  - apply String.eqb_eq in E. subst k. apply lookup_insert_eq.
  - apply String.eqb_neq in E. now apply lookup_insert_ne.
Qed.

Lemma formatMarketValues_lookup (values : list MarketValueRecord) (k : string) :
  formatMarketValues values !! k
  = new_ValueSet <$> List.find (fun v => String.eqb (mv_condition v) k) (rev values).
Proof.
  unfold formatMarketValues. rewrite fold_insert_lookup, lookup_empty.
  now destruct (List.find _ (rev values)).
Qed.

(** X18. formatMarketValues keys the rows by condition and the last row of a
    condition wins: the entry under a key is built from the last row with
    that condition, its condition field equals its key, and a key is
    present only if some row carries it. *)
Theorem formatMarketValues_last_wins (values : list MarketValueRecord) (k : string) :
  formatMarketValues values !! k
  = new_ValueSet <$> List.find (fun v => String.eqb (mv_condition v) k) (rev values)
  /\ (forall v, formatMarketValues values !! k = Some v ->
        condition v = k /\ exists x, In x values /\ v = new_ValueSet x).
Proof.
  split; [apply formatMarketValues_lookup|].
  intros v. rewrite formatMarketValues_lookup.
  destruct (List.find _ (rev values)) as [x|] eqn:Hfind; [|discriminate].
  intros [= <-]. apply List.find_some in Hfind as [Hin Heq].
  split; [now apply String.eqb_eq|]. exists x. split; [now apply List.in_rev | reflexivity].
Qed.

Lemma formatted_entry (values : list MarketValueRecord) (k : string) (v : ValueSet) :
  formatMarketValues values !! k = Some v ->
  exists x, In x values /\ mv_condition x = k /\ v = new_ValueSet x.
Proof.
  rewrite formatMarketValues_lookup.
  destruct (List.find _ (rev values)) as [x|] eqn:Hfind; [|discriminate].
  intros [= <-]. apply List.find_some in Hfind as [Hin Heq].
  exists x. repeat split.
  - now apply List.in_rev.
  - now apply String.eqb_eq.
Qed.

Lemma matches_app {T} `{Table T} (fs gs : list filter) (r : T) :
  matches (fs ++ gs) r = matches fs r && matches gs r.
Proof. unfold matches. apply forallb_app. Qed.

(** X19. In every successful market-value response each entry's condition
    field equals the key it is stored under, also after the mileage
    adjustment, and when a non-empty condition parameter is supplied the
    response has no key other than that condition. *)
Theorem market_values_keyed_by_condition
    (w : World) (vehicleId : string) (url : URL) (s : St) (m : gmap string ValueSet) :
  fst (handleMarketValue w vehicleId url s) = successResponse (PMarketValues m) ->
  forall k v, m !! k = Some v ->
    condition v = k
    /\ (forall c, searchParams_get url "condition" = Some c -> truthy_str c = true -> k = c).
Proof.
  unfold handleMarketValue. rewrite bind_eq, from_eq. cbn [fst snd].
  destruct (row (single _)) as [specs|]; [|discriminate].
  rewrite bind_eq, from_eq. cbn [fst snd].
  match goal with |- context [run_query ?rel ?q] => set (r := run_query rel q) end.
  destruct (error r) eqn:Herr; [discriminate|].
  assert (Hentry : forall k v0, formatMarketValues (rows_or_empty r) !! k = Some v0 ->
            condition v0 = k
            /\ (forall c, searchParams_get url "condition" = Some c ->
                  truthy_str c = true -> k = c)).
  { intros k v0 Hk. apply formatted_entry in Hk as (x & Hin & Hc & ->).
    split; [exact Hc|]. intros c Hparam Htruthy.
    apply run_query_success in Herr as (rows & _ & _ & l & Hdata & Hl & _).
    unfold rows_or_empty in Hin. fold r in Hdata. rewrite Hdata in Hin. cbn in Hin.
    apply Hl in Hin as [_ Hmatch]. rewrite Hparam, Htruthy in Hmatch.
    unfold eq, add_filter in Hmatch. cbn [q_filters] in Hmatch.
    rewrite matches_app in Hmatch. apply andb_true_iff in Hmatch as [_ Hmatch].
    unfold matches in Hmatch. cbn in Hmatch. rewrite andb_true_r in Hmatch.
    unfold column, MarketValueRecord_table in Hmatch. cbn in Hmatch.
    apply String.eqb_eq in Hmatch. congruence. }
  destruct (truthy_ostr _ && _); intros [= <-] k v Hk.
  - rewrite lookup_fmap in Hk.
    destruct (formatMarketValues (rows_or_empty r) !! k) as [v0|] eqn:Hv0; [|discriminate].
    injection Hk as <-. destruct (Hentry k v0 Hv0) as [Hc Hp].
    split; [exact Hc | exact Hp].
  - now apply Hentry.
Qed.

Lemma market_values_keyed_by_condition_witness :
  condition (new_ValueSet clean_accord) = "Clean"
  /\ (forall c, searchParams_get (url_of [("condition", "Clean")]) "condition" = Some c ->
        truthy_str c = true -> "Clean" = c).
Proof.
  apply (market_values_keyed_by_condition (world_of valued_accord offline) (spec_id accord)
           (url_of [("condition", "Clean")]) fresh (formatMarketValues [clean_accord])
           (Logic.eq_refl _) "Clean" (new_ValueSet clean_accord)).
  reflexivity.
Defined.

(** ** Lookup by year, make and model *)

(** X20. handleLookup answers missing_params when year, make or model is
    absent or empty, and invalid_params when the year does not parse as a
    number; in both cases no query is made (state unchanged). *)
Theorem lookup_checks_parameters_first (w : World) (url : URL) (s : St) :
  (truthy_ostr (searchParams_get url "year") = false
   \/ truthy_ostr (searchParams_get url "make") = false
   \/ truthy_ostr (searchParams_get url "model") = false ->
   handleLookup w url s
   = (Plain (errorResponse "missing_params" "year, make, and model are required" None), s))
  /\ (truthy_ostr (searchParams_get url "year") = true ->
      truthy_ostr (searchParams_get url "make") = true ->
      truthy_ostr (searchParams_get url "model") = true ->
      parseInt (default EmptyString (searchParams_get url "year")) = NaN ->
      handleLookup w url s
      = (Plain (errorResponse "invalid_params" "year must be a number" None), s)).
Proof.
  unfold handleLookup. split.
  - intros [H | [H | H]]; rewrite H; cbn [negb orb]; rewrite ?orb_true_r; reflexivity.
  - intros Hy Hmk Hmd Hnan. rewrite Hy, Hmk, Hmd, Hnan. reflexivity.
Qed.

Lemma lookup_checks_parameters_first_witness :
  handleLookup (world_of two_accords offline) (url_of [("year", "2020"); ("model", "Accord")])
    fresh
  = (Plain (errorResponse "missing_params" "year, make, and model are required" None), fresh).
Proof.
  apply (lookup_checks_parameters_first (world_of two_accords offline)
           (url_of [("year", "2020"); ("model", "Accord")]) fresh).
  right. left. reflexivity.
Defined.

(** The engine hands back the first candidate of the table. *)
Lemma lookup_spec_found
    (w : World) (url : URL) (s : St) (body : LookupResult)
    (rows : list VehicleSpec) (ys mk md : string) (y : Z) :
  vehicle_specs (db w) = Rows rows ->
  searchParams_get url "year" = Some ys -> parseInt ys = Num y ->
  searchParams_get url "make" = Some mk ->
  searchParams_get url "model" = Some md ->
  fst (handleLookup w url s) = lookupResponse body ->
  lookup_specs body = List.find (lookup_candidate url y mk md) rows.
Proof.
  intros Hrows Hys Hy Hmk Hmd. unfold lookup_candidate, handleLookup.
  rewrite Hys, Hmk, Hmd.
  change (default EmptyString (Some ys)) with ys.
  change (default EmptyString (Some mk)) with mk.
  change (default EmptyString (Some md)) with md. rewrite Hy.
  destruct (negb _ || _ || _); [discriminate|].
  rewrite bind_eq, from_eq, Hrows. cbn [fst snd].
  match goal with
  | |- context [single (run_query (Rows rows) (?q |> limit (Num 1)))] =>
      set (q0 := q);
      assert (Hfind : row (single (run_query (Rows rows) (q0 |> limit (Num 1))))
                      = List.find (matches (q_filters q0)) rows)
  end.
  { apply first_match; subst q0;
      (destruct (searchParams_get url "trim") as [t|]; [destruct (truthy_str t)|]);
      reflexivity. }
  assert (Hsame : List.find (matches (q_filters q0)) rows
                  = List.find (fun sp =>
                      same_vehicle y mk md sp
                      && match searchParams_get url "trim" with
                         | Some t => if truthy_str t then trim_matches t sp else true
                         | None => true
                         end) rows).
  { apply find_ext. intros sp. subst q0.
    destruct (searchParams_get url "trim") as [t|]; [destruct (truthy_str t)|].
    - apply specs_trim_filters.
    - rewrite andb_true_r. apply specs_filters.
    - rewrite andb_true_r. apply specs_filters. }
  rewrite <- Hsame, <- Hfind. clear Hsame Hfind.
  destruct (match row_error _ with Some _ => _ | None => _ end); [discriminate|].
  rewrite !bind_eq.
  destruct (row (single (run_query (Rows rows) (q0 |> limit (Num 1))))) as [sp|];
    rewrite ?bind_eq, ?from_eq; cbn [fst snd ret].
  - intros [= <-]. reflexivity.
  - repeat match goal with
           | |- context [match ?x with _ => _ end] => destruct x
           end; try discriminate; intros [= <-]; reflexivity.
Qed.

(** X21. When handleLookup succeeds over a readable spec table, the spec it
    returns is a row of the table that matches make, model (hyphens as
    wildcards) and year and, when a trim is supplied, whose trim matches
    the pattern trim%; the spec is null exactly when no row of the table
    does, so, unlike the VIN lookup, there is no second attempt without the
    trim.  Nothing is said about which of several matching rows is
    returned. *)
Theorem lookup_spec_satisfies_the_filters
    (w : World) (url : URL) (s : St) (body : LookupResult)
    (rows : list VehicleSpec) (ys mk md : string) (y : Z) :
  vehicle_specs (db w) = Rows rows ->
  searchParams_get url "year" = Some ys -> parseInt ys = Num y ->
  searchParams_get url "make" = Some mk ->
  searchParams_get url "model" = Some md ->
  fst (handleLookup w url s) = lookupResponse body ->
  (forall sp, lookup_specs body = Some sp ->
              In sp rows /\ lookup_candidate url y mk md sp = true)
  /\ (lookup_specs body = None
      <-> forall sp, In sp rows -> lookup_candidate url y mk md sp = false).
Proof.
  intros Hrows Hys Hy Hmk Hmd Hbody.
  rewrite (lookup_spec_found w url s body rows ys mk md y Hrows Hys Hy Hmk Hmd Hbody).
  split.
  - intros sp Hfind. exact (find_some _ _ Hfind).
  - split.
    + intros Hnone sp Hin. exact (find_none _ _ Hnone sp Hin).
    + intros Hall.
      destruct (List.find (lookup_candidate url y mk md) rows) as [sp|] eqn:Hfind;
        [|reflexivity].
      apply find_some in Hfind. destruct Hfind as [Hin Hcand].
      rewrite (Hall sp Hin) in Hcand. discriminate.
Qed.

Lemma lookup_spec_satisfies_the_filters_witness :
  In accord [accord_lx; accord]
  /\ lookup_candidate
       (url_of [("year", "2020"); ("make", "honda"); ("model", "accord"); ("trim", "ex")])
       2020 "honda" "accord" accord = true.
Proof.
  apply (proj1 (lookup_spec_satisfies_the_filters (world_of two_accords offline)
                  (url_of [("year", "2020"); ("make", "honda"); ("model", "accord");
                           ("trim", "ex")])
                  fresh
                  {| lookup_specs := Some accord; lookup_warranty := [];
                     lookup_market_values := ∅; lookup_maintenance := [] |}
                  [accord_lx; accord] "2020" "honda" "accord" 2020
                  eq_refl eq_refl eq_refl eq_refl eq_refl eq_refl)
               accord eq_refl).
Defined.

Lemma warranty_rows_belong (rel : relation WarrantyRecord) (id : string) (wr : WarrantyRecord) :
  In wr (rows_or_empty (run_query rel (select |> eq "vehicle_spec_id" (LStr id)))) ->
  vehicle_spec_id wr = id.
Proof.
  destruct (error (run_query rel (select |> eq "vehicle_spec_id" (LStr id)))) eqn:Herr.
  - destruct rel as [rows|code]; [|intros []].
    unfold run_query in *. cbn in Herr. discriminate.
  - apply run_query_success in Herr as (rows & _ & _ & l & Hdata & Hl & _).
    unfold rows_or_empty. rewrite Hdata. cbn. intros Hin.
    apply Hl in Hin as [_ Hmatch]. unfold matches in Hmatch. cbn in Hmatch.
    rewrite andb_true_r in Hmatch. unfold column, WarrantyRecord_table in Hmatch.
    cbn in Hmatch. now apply String.eqb_eq.
Qed.

Lemma maintenance_rows_sorted (rel : relation MaintenanceItem) (q : query) :
  q_order q = [("mileage", true)] ->
  StronglySorted (fun a b => mileage a <= mileage b)
    (rows_or_empty (run_query rel (q |> limit (Num 50))))
  /\ (length (rows_or_empty (run_query rel (q |> limit (Num 50)))) <= 50)%nat.
Proof.
  intros Ho.
  destruct (error (run_query rel (q |> limit (Num 50)))) eqn:Herr.
  - assert (Hd : data (run_query rel (q |> limit (Num 50))) = None).
    { unfold run_query in *. destruct rel as [rows|code]; [|reflexivity].
      cbn in *. destruct (negb _); [reflexivity | discriminate]. }
    unfold rows_or_empty. rewrite Hd. cbn. split; [constructor | lia].
  - apply run_query_success in Herr as (rows & _ & _ & l & Hd & _ & Hlen & k & Hl).
    unfold rows_or_empty. rewrite Hd. cbn [default from_option id].
    change (default [] (Some l)) with l. split.
    + rewrite Hl. change (q_order (q |> limit (Num 50))) with (q_order q). rewrite Ho.
      apply StronglySorted_firstn, order_by_mileage_sorted.
    + apply (Hlen 50). reflexivity.
Qed.

Lemma fold_insert_not_empty (values : list MarketValueRecord) (v : MarketValueRecord)
    (acc : gmap string ValueSet) :
  fold_left (fun result x => <[mv_condition x := new_ValueSet x]> result) values
    (<[mv_condition v := new_ValueSet v]> acc) <> ∅.
Proof.
  revert v acc. induction values as [|x values IH]; intros v acc; cbn [fold_left].
  - apply insert_non_empty.
  - apply IH.
Qed.

Lemma formatMarketValues_not_empty (v : MarketValueRecord) (values : list MarketValueRecord) :
  formatMarketValues (v :: values) <> ∅.
Proof. unfold formatMarketValues. cbn [fold_left]. apply fold_insert_not_empty. Qed.

(** X22. A successful handleLookup body is consistent: every warranty row
    belongs to the returned spec (and there is none without a spec), the
    maintenance list is sorted by mileage and has at most 50 entries, and
    the body is never entirely empty. *)
Theorem lookup_answer_is_consistent
    (w : World) (url : URL) (s : St) (body : LookupResult) :
  fst (handleLookup w url s) = lookupResponse body ->
  (forall wr, In wr (lookup_warranty body) ->
     exists sp, lookup_specs body = Some sp /\ vehicle_spec_id wr = spec_id sp)
  /\ StronglySorted (fun a b => mileage a <= mileage b) (lookup_maintenance body)
  /\ (length (lookup_maintenance body) <= 50)%nat
  /\ (lookup_specs body <> None \/ lookup_warranty body <> []
      \/ lookup_market_values body <> ∅ \/ lookup_maintenance body <> []).
Proof.
  unfold handleLookup.
  destruct (negb _ || _ || _); [discriminate|].
  destruct (parseInt _) as [y|]; [|discriminate].
  rewrite bind_eq, from_eq. cbn [fst snd].
  destruct (match row_error _ with Some _ => _ | None => _ end); [discriminate|].
  rewrite !bind_eq.
  match goal with
  | |- context [from _ (vehicle_maintenance_schedules (db w)) (?q |> limit (Num 50))] =>
      assert (Hm := maintenance_rows_sorted (vehicle_maintenance_schedules (db w)) q)
  end.
  destruct Hm as [Hsorted Hlen].
  { destruct (searchParams_get url "trim") as [t|]; [destruct (truthy_str t)|]; reflexivity. }
  destruct (row (single _)) as [sp|];
    rewrite ?bind_eq, ?from_eq; cbn [fst snd ret].
  - intros [= <-]. cbn [lookup_specs lookup_warranty lookup_maintenance lookup_market_values].
    repeat split; try assumption.
    + intros wr Hin. exists sp. split; [reflexivity|]. now apply warranty_rows_belong in Hin.
    + left. discriminate.
  - destruct (rows_or_empty (run_query (vehicle_market_values (db w)) _)) as [|v values] eqn:Hmv.
    + destruct (rows_or_empty (run_query (vehicle_maintenance_schedules (db w)) _))
        as [|item items] eqn:Hms; [discriminate|].
      intros [= <-]. cbn [lookup_specs lookup_warranty lookup_maintenance lookup_market_values].
      repeat split; try assumption.
      * intros wr [].
      * right. right. right. discriminate.
    + intros [= <-]. cbn [lookup_specs lookup_warranty lookup_maintenance lookup_market_values].
      repeat split; try assumption.
      * intros wr [].
      * right. right. left. apply formatMarketValues_not_empty.
Qed.

Lemma lookup_answer_is_consistent_witness :
  (forall wr, In wr [] ->
     exists sp, Some accord = Some sp /\ vehicle_spec_id wr = spec_id sp)
  /\ StronglySorted (fun a b => mileage a <= mileage b) []
  /\ (@length MaintenanceItem [] <= 50)%nat
  /\ (Some accord <> None \/ @nil WarrantyRecord <> []
      \/ (∅ : gmap string ValueSet) <> ∅ \/ @nil MaintenanceItem <> []).
Proof.
  apply (lookup_answer_is_consistent (world_of two_accords offline)
           (url_of [("year", "2020"); ("make", "honda"); ("model", "accord"); ("trim", "ex")])
           fresh
           {| lookup_specs := Some accord; lookup_warranty := [];
              lookup_market_values := ∅; lookup_maintenance := [] |}).
  reflexivity.
Defined.

Lemma lookup_tail_is_no_error (w : World) (specs : option VehicleSpec)
    (q1 q2 : query) (s : St) :
  fst (bind
         match specs with
         | Some sp =>
             bind (from "vehicle_warranties" (vehicle_warranties (db w))
                     (select |> eq "vehicle_spec_id" (LStr (spec_id sp))))
                  (fun r => ret (rows_or_empty r))
         | None => ret []
         end
         (fun warranties =>
            bind (from "vehicle_market_values" (vehicle_market_values (db w)) q1)
              (fun marketValues =>
                 bind (from "vehicle_maintenance_schedules"
                         (vehicle_maintenance_schedules (db w)) q2)
                   (fun maintenance =>
                      match specs, warranties, rows_or_empty marketValues,
                            rows_or_empty maintenance with
                      | None, [], [], [] =>
                          ret (Plain (notFoundResponse
                                 "No vehicle data found for the specified year, make, model"))
                      | _, _, _, _ =>
                          ret (lookupResponse
                                 {| lookup_specs := specs;
                                    lookup_warranty := warranties;
                                    lookup_market_values :=
                                      formatMarketValues (rows_or_empty marketValues);
                                    lookup_maintenance := rows_or_empty maintenance |})
                      end))) s)
  <> Plain internalErrorResponse.
Proof.
  rewrite !bind_eq.
  repeat match goal with
         | |- context [match ?x with _ => _ end] => destruct x
         end; cbn [ret fst]; discriminate.
Qed.

(** X23. With valid parameters, handleLookup answers internal_error exactly
    when the query on vehicle_specs (make, model with hyphens as wildcards,
    year, the trim pattern when a trim is supplied, limit 1, single) comes
    back with an error whose code is not PGRST116; errors of the warranty,
    market-value and maintenance queries are taken as empty results and
    never produce an error response. *)
Theorem lookup_fails_only_with_the_spec_query
    (w : World) (url : URL) (s : St) (y : Z) :
  truthy_ostr (searchParams_get url "year") = true ->
  truthy_ostr (searchParams_get url "make") = true ->
  truthy_ostr (searchParams_get url "model") = true ->
  parseInt (default EmptyString (searchParams_get url "year")) = Num y ->
  fst (handleLookup w url s) = Plain internalErrorResponse
  <-> exists code,
        row_error (single (run_query (vehicle_specs (db w)) (lookup_spec_query url y)))
        = Some code
        /\ code <> "PGRST116".
Proof.
  intros Hy Hmk Hmd Hnum. unfold handleLookup. rewrite Hy, Hmk, Hmd, Hnum.
  cbn [negb orb]. rewrite bind_eq, from_eq. cbn [fst snd].
  match goal with
  | |- context [single (run_query (vehicle_specs (db w)) ?q)] =>
      change q with (lookup_spec_query url y)
  end.
  destruct (row_error (single (run_query (vehicle_specs (db w)) (lookup_spec_query url y))))
    as [code|].
  - destruct (String.eqb code "PGRST116") eqn:E; cbn [negb].
    + split.
      * intros H. exfalso. exact (lookup_tail_is_no_error _ _ _ _ _ H).
      * intros (code' & [= <-] & Hne). apply String.eqb_eq in E. contradiction.
    + split; [|reflexivity]. intros _. exists code. split; [reflexivity|].
      now apply String.eqb_neq.
  - split.
    + intros H. exfalso. exact (lookup_tail_is_no_error _ _ _ _ _ H).
    + intros (code & Hcode & _). discriminate.
Qed.

Lemma lookup_fails_only_with_the_spec_query_witness :
  fst (handleLookup (world_of specs_unreachable offline)
         (url_of [("year", "2020"); ("make", "honda"); ("model", "accord")]) fresh)
  = Plain internalErrorResponse
  <-> exists code,
        row_error (single (run_query
                             (vehicle_specs (db (world_of specs_unreachable offline)))
                             (lookup_spec_query
                                (url_of [("year", "2020"); ("make", "honda");
                                         ("model", "accord")]) 2020)))
        = Some code
        /\ code <> "PGRST116".
Proof.
  apply (lookup_fails_only_with_the_spec_query (world_of specs_unreachable offline)
           (url_of [("year", "2020"); ("make", "honda"); ("model", "accord")]) fresh 2020);
    reflexivity.
Defined.

(** ** Search on the spec table *)

Lemma in_when_given_keep (p : option string) (F : string -> filter) (q : query) (f : filter) :
  In f (q_filters q) ->
  In f (q_filters (when_given p (fun v => add_filter (F v)) q)).
Proof.
  intros Hin. unfold when_given. destruct p as [v|]; [destruct (truthy_str v)|];
    try exact Hin.
  cbn [add_filter q_filters]. apply in_or_app. now left.
Qed.

Lemma in_when_given_new (p : option string) (F : string -> filter) (q : query) (v : string) :
  p = Some v -> truthy_str v = true ->
  In (F v) (q_filters (when_given p (fun v => add_filter (F v)) q)).
Proof.
  intros -> Hv. unfold when_given. rewrite Hv. cbn [add_filter q_filters].
  apply in_or_app. right. now left.
Qed.

(** X24. Every row of a successful handleSpecsSearch response satisfies each
    supplied non-empty filter (year equal to the parsed year, make, model
    and trim matching case-insensitively), and when the limit parses as a
    number the response has at most min(limit, 100) rows, 50 by default. *)
Theorem specs_search_respects_filters_and_limit
    (w : World) (url : URL) (s : St) (rows : list VehicleSpec) :
  fst (handleSpecsSearch w url s) = specsResponse rows ->
  (forall n,
     parseInt (default "50" (or_else (searchParams_get url "limit") (Some "50"))) = Num n ->
     (length rows <= Z.to_nat (Z.min n 100))%nat)
  /\ (forall sp, In sp rows ->
        (forall ys, searchParams_get url "year" = Some ys -> truthy_str ys = true ->
           parseInt ys = Num (spec_year sp))
        /\ (forall mk, searchParams_get url "make" = Some mk -> truthy_str mk = true ->
              ilike_match mk (spec_make sp) = true)
        /\ (forall md, searchParams_get url "model" = Some md -> truthy_str md = true ->
              ilike_match md (spec_model sp) = true)
        /\ (forall t, searchParams_get url "trim" = Some t -> truthy_str t = true ->
              exists x, spec_trim sp = Some x /\ ilike_match t x = true)).
Proof.
  unfold handleSpecsSearch. rewrite bind_eq, from_eq. cbn [fst snd].
  match goal with |- context [run_query ?rel (?q |> limit ?l)] =>
    set (q0 := q); set (r := run_query rel (q0 |> limit l)) end.
  destruct (error r) eqn:Herr; [discriminate|]. intros [= <-].
  apply run_query_success in Herr as (table & _ & _ & l & Hdata & Hl & Hlen & _).
  fold r in Hdata. unfold rows_or_empty. rewrite Hdata.
  change (default [] (Some l)) with l. split.
  - intros n Hn. apply Hlen. cbn [q_limit limit]. now rewrite Hn.
  - intros sp Hin. apply Hl in Hin as [_ Hmatch].
    change (q_filters (q0 |> limit _)) with (q_filters q0) in Hmatch.
    unfold matches in Hmatch. rewrite forallb_forall in Hmatch.
    repeat apply conj.
    + intros ys Hp Hv.
      assert (Hf : In (FEq "year" (LNum (parseInt ys))) (q_filters q0)).
      { subst q0.
        do 3 apply (in_when_given_keep _ (fun v => FIlike _ v)).
        now apply (in_when_given_new _ (fun y => FEq "year" (LNum (parseInt y)))). }
      apply Hmatch in Hf. cbn in Hf. destruct (parseInt ys) as [n|]; [|discriminate].
      unfold column, VehicleSpec_table in Hf. cbn in Hf.
      apply Z.eqb_eq in Hf. now subst.
    + intros mk Hp Hv.
      assert (Hf : In (FIlike "make" mk) (q_filters q0)).
      { subst q0.
        do 2 apply (in_when_given_keep _ (fun v => FIlike _ v)).
        now apply (in_when_given_new _ (fun v => FIlike "make" v)). }
      apply Hmatch in Hf. exact Hf.
    + intros md Hp Hv.
      assert (Hf : In (FIlike "model" md) (q_filters q0)).
      { subst q0.
        apply (in_when_given_keep _ (fun v => FIlike _ v)).
        now apply (in_when_given_new _ (fun v => FIlike "model" v)). }
      apply Hmatch in Hf. exact Hf.
    + intros t Hp Hv.
      assert (Hf : In (FIlike "trim" t) (q_filters q0)).
      { subst q0. now apply (in_when_given_new _ (fun v => FIlike "trim" v)). }
      apply Hmatch in Hf. cbn in Hf. unfold column, VehicleSpec_table in Hf. cbn in Hf.
      destruct (spec_trim sp) as [x|]; [|discriminate]. now exists x.
Qed.

Lemma specs_search_respects_filters_and_limit_witness :
  (forall n,
     parseInt (default "50" (or_else (searchParams_get (url_of [("make", "honda")]) "limit")
                               (Some "50"))) = Num n ->
     (length [accord_lx; accord] <= Z.to_nat (Z.min n 100))%nat)
  /\ (forall sp, In sp [accord_lx; accord] ->
        (forall ys, searchParams_get (url_of [("make", "honda")]) "year" = Some ys ->
           truthy_str ys = true -> parseInt ys = Num (spec_year sp))
        /\ (forall mk, searchParams_get (url_of [("make", "honda")]) "make" = Some mk ->
              truthy_str mk = true -> ilike_match mk (spec_make sp) = true)
        /\ (forall md, searchParams_get (url_of [("make", "honda")]) "model" = Some md ->
              truthy_str md = true -> ilike_match md (spec_model sp) = true)
        /\ (forall t, searchParams_get (url_of [("make", "honda")]) "trim" = Some t ->
              truthy_str t = true ->
              exists x, spec_trim sp = Some x /\ ilike_match t x = true)).
Proof.
  apply (specs_search_respects_filters_and_limit (world_of two_accords offline)
           (url_of [("make", "honda")]) fresh).
  reflexivity.
Defined.

(** ** Lists of distinct names *)

Lemma string_leb_trans (a b c : string) :
  String.leb a b = true -> String.leb b c = true -> String.leb a c = true.
Proof.
  unfold String.leb. revert b c.
  induction a as [|x a IH]; intros [|y b] [|z c]; cbn [String.compare];
    try reflexivity; try discriminate.
  unfold Ascii.compare.
  destruct (N.compare_spec (N_of_ascii x) (N_of_ascii y)) as [Hxy|Hxy|Hxy];
    destruct (N.compare_spec (N_of_ascii y) (N_of_ascii z)) as [Hyz|Hyz|Hyz];
    destruct (N.compare_spec (N_of_ascii x) (N_of_ascii z)) as [Hxz|Hxz|Hxz];
    try discriminate; try reflexivity; try lia.
  apply IH.
Qed.

Lemma insert_sorted_perm {T} (leb : T -> T -> bool) (x : T) (l : list T) :
  Permutation (insert_sorted leb x l) (x :: l).
Proof.
  induction l as [|y l IH]; cbn [insert_sorted]; [reflexivity|].
  destruct (leb x y); [reflexivity|].
  rewrite IH. apply perm_swap.
Qed.

Lemma sort_by_perm {T} (leb : T -> T -> bool) (l : list T) :
  Permutation (sort_by leb l) l.
Proof.
  induction l as [|x l IH]; cbn [sort_by]; [reflexivity|].
  rewrite insert_sorted_perm. now constructor.
Qed.

Lemma existsb_eqb_In (x : string) (seen : list string) :
  existsb (String.eqb x) seen = true <-> In x seen.
Proof.
  rewrite existsb_exists. split.
  - intros (y & Hin & Heq). apply String.eqb_eq in Heq. now subst.
  - intros Hin. exists x. split; [exact Hin | apply String.eqb_refl].
Qed.

Lemma dedupe_In (seen l : list string) (x : string) :
  In x (dedupe String.eqb seen l) <-> In x l /\ ~ In x seen.
Proof.
  revert seen. induction l as [|y l IH]; intros seen; cbn [dedupe].
  - cbn. tauto.
  - destruct (existsb (String.eqb y) seen) eqn:E.
    + apply existsb_eqb_In in E. rewrite IH. cbn [In]. split.
      * intros [Hin Hns]. tauto.
      * intros [[-> | Hin] Hns]; [contradiction | tauto].
    + assert (Hy : ~ In y seen).
      { intros Hin. apply existsb_eqb_In in Hin. congruence. }
      cbn [In]. rewrite IH. cbn [In]. split.
      * intros [<- | [Hin Hns]]; [tauto|]. tauto.
      * intros [[<- | Hin] Hns]; [now left|].
        destruct (string_dec y x) as [->|Hne]; [now left|]. right. tauto.
Qed.

Lemma dedupe_NoDup (seen l : list string) : List.NoDup (dedupe String.eqb seen l).
Proof.
  revert seen. induction l as [|y l IH]; intros seen; cbn [dedupe]; [constructor|].
  destruct (existsb (String.eqb y) seen); [apply IH|].
  constructor; [|apply IH]. rewrite dedupe_In. cbn [In]. tauto.
Qed.

(** X25. [...new Set(l)].sort() on strings, as used for makes, models and
    trims: the result is sorted in code-unit order, has no duplicates and
    has exactly the members of the input. *)
Theorem distinct_sorted_spec (l : list string) :
  StronglySorted (fun a b => String.leb a b = true) (distinct_sorted l)
  /\ List.NoDup (distinct_sorted l)
  /\ (forall x, In x (distinct_sorted l) <-> In x l).
Proof.
  unfold distinct_sorted. repeat apply conj.
  - apply sort_by_sorted; [apply String.leb_total | apply string_leb_trans].
  - eapply Permutation_NoDup; [symmetry; apply sort_by_perm | apply dedupe_NoDup].
  - intros x. split.
    + intros Hin. eapply Permutation_in in Hin; [|apply sort_by_perm].
      now apply dedupe_In in Hin.
    + intros Hin. eapply Permutation_in; [symmetry; apply sort_by_perm|].
      apply dedupe_In. cbn [In]. tauto.
Qed.

Lemma trims_of_In (rows : list VehicleSpec) (t : string) :
  In t (trims_of rows) ->
  t <> EmptyString /\ exists sp, In sp rows /\ spec_trim sp = Some t.
Proof.
  unfold trims_of. rewrite <- list_elem_of_In, list_elem_of_omap.
  intros (sp & Hin & Hsome). apply list_elem_of_In in Hin.
  destruct (spec_trim sp) as [x|] eqn:Htrim; [|discriminate].
  destruct (truthy_str x) eqn:Hx; [|discriminate]. injection Hsome as ->.
  split; [now destruct t | now exists sp].
Qed.

(** X26. On a cache miss, a successful handleTrims response lists trims in
    sorted order without duplicates; every entry is the non-empty trim of
    a vehicle_specs row whose make and model match the requested ones
    case-insensitively. *)
Theorem trims_are_distinct_and_sorted
    (w : World) (make model : string) (url : URL) (s : St) (trims : list string) :
  redis_up w = false \/ redis s !! trims_key make model url = None ->
  fst (handleTrims w make model url s) = successResponse (PStrings trims) ->
  StronglySorted (fun a b => String.leb a b = true) trims
  /\ List.NoDup trims
  /\ (forall t, In t trims ->
        t <> EmptyString
        /\ exists rows sp,
             vehicle_specs (db w) = Rows rows /\ In sp rows /\ spec_trim sp = Some t
             /\ ilike_match make (spec_make sp) = true
             /\ ilike_match model (spec_model sp) = true).
Proof.
  intros Hmiss. unfold handleTrims. fold (trims_key make model url).
  rewrite bind_eq, cache_read_eq. cbn [fst snd].
  assert (Hnone : (if redis_up w then redis s !! trims_key make model url else None) = None).
  { destruct Hmiss as [-> | ->]; [reflexivity | now destruct (redis_up w)]. }
  rewrite Hnone. rewrite bind_eq, from_eq. cbn [fst snd].
  match goal with |- context [run_query ?rel ?q] =>
    set (q0 := q); set (r := run_query rel q0) end.
  destruct (error r) eqn:Herr; [discriminate|].
  rewrite bind_eq. cbn [ret fst]. intros [= <-].
  unfold distinct_sorted. repeat apply conj.
  { apply sort_by_sorted; [apply String.leb_total | apply string_leb_trans]. }
  { eapply Permutation_NoDup; [symmetry; apply sort_by_perm | apply dedupe_NoDup]. }
  intros t Hin. eapply Permutation_in in Hin; [|apply sort_by_perm].
  apply dedupe_In in Hin as [Hin _].
  apply trims_of_In in Hin as (Hne & sp & Hin & Htrim).
  split; [exact Hne|].
  apply run_query_success in Herr as (rows & Hrows & _ & l & Hdata & Hl & _).
  fold r in Hdata. unfold rows_or_empty in Hin. rewrite Hdata in Hin.
  change (default [] (Some l)) with l in Hin.
  apply Hl in Hin as [Hin Hmatch]. fold q0 in Hmatch.
  unfold matches in Hmatch. rewrite forallb_forall in Hmatch.
  exists rows, sp. repeat apply conj; try assumption.
  - assert (Hf : In (FIlike "make" make) (q_filters q0)).
    { subst q0. apply (in_when_given_keep _ (fun y => FEq "year" (LNum (parseInt y)))).
      cbn. tauto. }
    apply Hmatch in Hf. exact Hf.
  - assert (Hf : In (FIlike "model" model) (q_filters q0)).
    { subst q0. apply (in_when_given_keep _ (fun y => FEq "year" (LNum (parseInt y)))).
      cbn. tauto. }
    apply Hmatch in Hf. exact Hf.
Qed.

Lemma trims_are_distinct_and_sorted_witness :
  StronglySorted (fun a b => String.leb a b = true) ["EX-L"; "LX"]
  /\ List.NoDup ["EX-L"; "LX"]
  /\ (forall t, In t ["EX-L"; "LX"] ->
        t <> EmptyString
        /\ exists rows sp,
             vehicle_specs (db (world_of two_accords offline)) = Rows rows
             /\ In sp rows /\ spec_trim sp = Some t
             /\ ilike_match "honda" (spec_make sp) = true
             /\ ilike_match "accord" (spec_model sp) = true).
Proof.
  apply (trims_are_distinct_and_sorted (world_of two_accords offline) "honda" "accord"
           (url_of []) fresh ["EX-L"; "LX"]); [right; reflexivity | reflexivity].
Defined.

(** ** Vehicle search *)

(** X27. handleVehicleSearch depends on the request only through the trimmed,
    lower-cased query and the effective limit: two requests whose raw
    queries have at least two characters and agree after normalisation,
    with the same limit, behave identically (same response, same calls,
    same cache entry), whether the query came as q or as query. *)
Theorem search_depends_on_normalized_query (w : World) (url1 url2 : URL) (s : St) :
  (2 <= String.length (search_query url1))%nat ->
  (2 <= String.length (search_query url2))%nat ->
  toLowerCase (js_trim (search_query url1)) = toLowerCase (js_trim (search_query url2)) ->
  search_limit url1 = search_limit url2 ->
  handleVehicleSearch w url1 s = handleVehicleSearch w url2 s.
Proof.
  intros H1 H2 Hnorm Hlimit. unfold handleVehicleSearch.
  rewrite (search_guard url1 H1), (search_guard url2 H2).
  fold (search_limit url1). fold (search_limit url2).
  rewrite Hnorm, Hlimit. reflexivity.
Qed.

Lemma search_depends_on_normalized_query_witness :
  handleVehicleSearch (world_of search_view_missing offline)
    (url_of [("q", " Honda ACCORD ")]) fresh
  = handleVehicleSearch (world_of search_view_missing offline)
      (url_of [("query", "honda accord"); ("limit", "20")]) fresh.
Proof.
  apply search_depends_on_normalized_query; [cbn; lia | cbn; lia | reflexivity | reflexivity].
Defined.

Lemma dedupe_vehicles_length (n : Z) (seen : gset string)
    (acc : list AutocompleteRecord) (vehicles : list VehicleSpec) :
  Z.of_nat (length acc) < n ->
  Z.of_nat (length (dedupe_vehicles (Num n) seen acc vehicles)) <= n.
Proof.
  revert seen acc. induction vehicles as [|v vehicles IH]; intros seen acc Hacc;
    cbn [dedupe_vehicles]; [lia|].
  destruct (decide _); [now apply IH|].
  unfold reached. rewrite length_app. cbn [length].
  destruct (n <=? Z.of_nat (length acc + 1)) eqn:E.
  - rewrite length_app. cbn [length]. lia.
  - apply Z.leb_gt in E. apply IH. rewrite length_app. cbn [length]. lia.
Qed.

Lemma dedupe_vehicles_keys (limit : jsnum) (seen : gset string)
    (acc : list AutocompleteRecord) (vehicles : list VehicleSpec) :
  (forall a, In a acc -> result_key a ∈ seen) ->
  List.NoDup (List.map result_key acc) ->
  List.NoDup (List.map result_key (dedupe_vehicles limit seen acc vehicles)).
Proof.
  revert seen acc. induction vehicles as [|v vehicles IH]; intros seen acc Hseen Hnodup;
    cbn [dedupe_vehicles]; [exact Hnodup|].
  destruct (decide _) as [Hin|Hnew]; [now apply IH|].
  assert (Hnodup' : List.NoDup (List.map result_key (acc ++ [to_autocomplete v]))).
  { rewrite List.map_app. cbn [List.map].
    apply List.NoDup_app; repeat split; [exact Hnodup | repeat constructor; intros [] |].
    intros k Hk [<- | []]. apply List.in_map_iff in Hk as (a & Hka & Ha).
    apply Hnew. apply Hseen in Ha. rewrite Hka in Ha. exact Ha. }
  destruct (reached _ limit); [exact Hnodup'|].
  apply IH; [|exact Hnodup'].
  intros a Ha. apply in_app_or in Ha as [Ha | [<- | []]].
  - apply elem_of_union_r. now apply Hseen.
  - apply elem_of_union_l, elem_of_singleton. reflexivity.
Qed.

Lemma dedupe_vehicles_origin (limit : jsnum) (seen : gset string)
    (acc : list AutocompleteRecord) (vehicles : list VehicleSpec) (a : AutocompleteRecord) :
  In a (dedupe_vehicles limit seen acc vehicles) ->
  In a acc \/ exists v, In v vehicles /\ a = to_autocomplete v.
Proof.
  revert seen acc. induction vehicles as [|v vehicles IH]; intros seen acc;
    cbn [dedupe_vehicles]; [tauto|].
  assert (Hstep : In a (acc ++ [to_autocomplete v]) ->
            In a acc \/ exists v', In v' (v :: vehicles) /\ a = to_autocomplete v').
  { intros Ha. apply in_app_or in Ha as [Ha | [<- | []]]; [now left|].
    right. exists v. split; [now left | reflexivity]. }
  destruct (decide _).
  - intros Ha. apply IH in Ha as [Ha | (v' & Hv' & ->)]; [now left|].
    right. exists v'. split; [now right | reflexivity].
  - destruct (reached _ limit); [exact Hstep|].
    intros Ha. apply IH in Ha as [Ha | (v' & Hv' & ->)]; [now apply Hstep|].
    right. exists v'. split; [now right | reflexivity].
Qed.

Lemma limited_rows_length {T} `{Table T} (rel : relation T) (q : query) (n : Z) :
  error (run_query rel (q |> limit (Num n))) = None ->
  (length (rows_or_empty (run_query rel (q |> limit (Num n)))) <= Z.to_nat n)%nat
  /\ 0 <= n.
Proof.
  intros Herr. split.
  - apply run_query_success in Herr as (rows & _ & _ & l & Hdata & _ & Hlen & _).
    unfold rows_or_empty. rewrite Hdata. change (default [] (Some l)) with l.
    apply Hlen. reflexivity.
  - unfold run_query in Herr. destruct rel as [rows|code]; [|discriminate].
    cbn [q_filters q_limit limit] in Herr.
    destruct (negb _); [discriminate|].
    destruct (n <? 0) eqn:E; [discriminate|]. now apply Z.ltb_ge.
Qed.

(** X28. On a cache miss with a limit that parses as a number, a successful
    search returns at most min(limit, 50) results, from the view as well
    as from the fallback on vehicle_specs (which reads up to three times
    the limit and stops deduplicating at the limit); a negative limit
    never yields a success. *)
Theorem search_results_are_bounded
    (w : World) (url : URL) (s : St) (results : list AutocompleteRecord) (n : Z) :
  redis_up w = false \/ redis s !! search_key url = None ->
  search_limit url = Num n ->
  fst (handleVehicleSearch w url s) = successResponse (PSearch results) ->
  (length results <= Z.to_nat n)%nat /\ 0 <= n <= 50.
Proof.
  intros Hmiss Hlimit. unfold handleVehicleSearch.
  fold (search_limit url). fold (search_key url). rewrite Hlimit.
  assert (Hn : n <= 50).
  { unfold search_limit, Math_min in Hlimit.
    destruct (parseInt _) as [x|]; [|discriminate]. injection Hlimit as <-. lia. }
  destruct (negb _ || _); [discriminate|].
  rewrite bind_eq, cache_read_eq. cbn [fst snd].
  assert (Hnone : (if redis_up w then redis s !! search_key url else None) = None).
  { destruct Hmiss as [-> | ->]; [reflexivity | now destruct (redis_up w)]. }
  rewrite Hnone.
  destruct (tokenize _) as [yearFilter textTokens].
  rewrite bind_eq, from_eq. cbn [fst snd].
  destruct (negb (negb (relation_missing _)) || _).
  - rewrite bind_eq, from_eq. cbn [fst snd jsnum_times].
    match goal with |- context [error (run_query ?rel (?q |> limit (Num (n * 3))))] =>
      destruct (error (run_query rel (q |> limit (Num (n * 3))))) eqn:Herr;
      [discriminate|];
      destruct (limited_rows_length rel q (n * 3) Herr) as [Hlen Hpos];
      set (rows := rows_or_empty (run_query rel (q |> limit (Num (n * 3))))) in *
    end.
    rewrite bind_eq. cbn [ret fst]. intros [= <-].
    assert (H0 : 0 <= n) by lia. split; [|lia].
    destruct (Z.eq_dec n 0) as [-> | Hne].
    + destruct rows; [cbn; lia | cbn in Hlen; lia].
    + pose proof (dedupe_vehicles_length n ∅ [] rows) as Hd. cbn [length] in Hd. lia.
  - match goal with |- context [error (run_query ?rel (?q |> limit (Num n)))] =>
      destruct (error (run_query rel (q |> limit (Num n)))) eqn:Herr;
      [discriminate|];
      destruct (limited_rows_length rel q n Herr) as [Hlen Hpos]
    end.
    rewrite bind_eq. cbn [ret fst]. intros [= <-]. split; [exact Hlen | lia].
Qed.

(** X29. When the view vehicle_autocomplete does not exist (42P01 or
    PGRST205), the results of a successful search on a cache miss are
    built from rows of vehicle_specs and no two of them have the same
    year-make-model key. *)
Theorem search_fallback_has_no_duplicates
    (w : World) (url : URL) (s : St) (results : list AutocompleteRecord) (code : string) :
  redis_up w = false \/ redis s !! search_key url = None ->
  vehicle_autocomplete (db w) = Failing code ->
  relation_missing (Some code) = true ->
  fst (handleVehicleSearch w url s) = successResponse (PSearch results) ->
  List.NoDup (List.map result_key results)
  /\ (forall a, In a results ->
        exists rows v, vehicle_specs (db w) = Rows rows /\ In v rows /\ a = to_autocomplete v).
Proof.
  intros Hmiss Hview Hgone. unfold handleVehicleSearch.
  fold (search_limit url). fold (search_key url).
  destruct (negb _ || _); [discriminate|].
  rewrite bind_eq, cache_read_eq. cbn [fst snd].
  assert (Hnone : (if redis_up w then redis s !! search_key url else None) = None).
  { destruct Hmiss as [-> | ->]; [reflexivity | now destruct (redis_up w)]. }
  rewrite Hnone.
  destruct (tokenize _) as [yearFilter textTokens].
  rewrite bind_eq, from_eq, Hview. cbn [fst snd run_query failed error]. rewrite Hgone.
  cbn [negb orb]. rewrite bind_eq, from_eq. cbn [fst snd].
  match goal with |- context [error (run_query ?rel ?q)] =>
    set (r := run_query rel q) end.
  destruct (error r) eqn:Herr; [discriminate|].
  rewrite bind_eq. cbn [ret fst]. intros [= <-]. split.
  - apply dedupe_vehicles_keys; [intros a [] | constructor].
  - intros a Ha. apply dedupe_vehicles_origin in Ha as [[] | (v & Hv & ->)].
    apply run_query_success in Herr as (rows & Hrows & _ & l & Hdata & Hl & _).
    fold r in Hdata. unfold rows_or_empty in Hv. rewrite Hdata in Hv.
    change (default [] (Some l)) with l in Hv. apply Hl in Hv as [Hv _].
    now exists rows, v.
Qed.

Lemma search_results_are_bounded_witness :
  (length [to_autocomplete accord_lx] <= Z.to_nat 20)%nat /\ 0 <= 20 <= 50.
Proof.
  apply (search_results_are_bounded (world_of search_view_missing offline)
           (url_of [("q", "honda")]) fresh [to_autocomplete accord_lx] 20);
    [right; reflexivity | reflexivity | reflexivity].
Defined.

Lemma search_fallback_has_no_duplicates_witness :
  List.NoDup (List.map result_key [to_autocomplete accord_lx])
  /\ (forall a, In a [to_autocomplete accord_lx] ->
        exists rows v,
          vehicle_specs (db (world_of search_view_missing offline)) = Rows rows
          /\ In v rows /\ a = to_autocomplete v).
Proof.
  apply (search_fallback_has_no_duplicates (world_of search_view_missing offline)
           (url_of [("q", "honda")]) fresh [to_autocomplete accord_lx] "42P01");
    [right; reflexivity | reflexivity | reflexivity | reflexivity].
Defined.

(** One step of the tokenizer loop, by cases on the token. *)
Lemma tokenize_step_cases (token : string) (yearFilter : option Z)
    (textTokens : list string) :
  tokenize_step (yearFilter, textTokens) token
  = if year_token token then (Some (decimal_value token), textTokens)
    else if (2 <=? String.length token)%nat then (yearFilter, textTokens ++ [token])
    else (yearFilter, textTokens).
Proof.
  unfold tokenize_step, year_token.
  destruct (String.length token =? 4)%nat eqn:Hlen.
  - apply Nat.eqb_eq in Hlen.
    destruct token as [|c1 [|c2 [|c3 [|c4 [|c5 rest]]]]]; try discriminate Hlen.
    set (token := String c1 (String c2 (String c3 (String c4 EmptyString)))).
    destruct (forall_chars is_digit token) eqn:Hd.
    + pose proof (parseInt_four_digits c1 c2 c3 c4 Hd) as Hp. fold token in Hp.
      rewrite Hp. reflexivity.
    + simpl andb. destruct (parseInt token) as [n|] eqn:Hp; [|reflexivity].
      apply (parseInt_four_mixed c1 c2 c3 c4 n Hd) in Hp.
      destruct (1990 <=? n) eqn:E; [apply Z.leb_le in E; lia|]. reflexivity.
  - simpl andb. destruct (parseInt token); reflexivity.
Qed.

Lemma tokenize_fold (tokens : list string) (yearFilter : option Z)
    (textTokens : list string) :
  fold_left tokenize_step tokens (yearFilter, textTokens)
  = (match List.find year_token (rev tokens) with
     | Some t => Some (decimal_value t)
     | None => yearFilter
     end,
     textTokens
     ++ List.filter (fun t => negb (year_token t) && (2 <=? String.length t)%nat) tokens).
Proof.
  revert yearFilter textTokens.
  induction tokens as [|t tokens IH]; intros yearFilter textTokens.
  - cbn. now rewrite app_nil_r.
  - cbn [fold_left rev List.filter]. rewrite tokenize_step_cases, find_app. cbn [List.find].
    destruct (year_token t); cbn [negb andb].
    + rewrite IH. now destruct (List.find year_token (rev tokens)).
    + destruct (2 <=? String.length t)%nat; rewrite IH.
      * rewrite <- app_assoc. now destruct (List.find year_token (rev tokens)).
      * now destruct (List.find year_token (rev tokens)).
Qed.

(** X30. The tokenizer loop of the search as a whole: the year filter is the
    value of the last token that is a year (four digits, 1990 to 2030), so
    it always lies in that range, and the text tokens are the other tokens
    of at least two characters, in order. *)
Theorem tokenize_spec (tokens : list string) :
  tokenize tokens
  = (decimal_value <$> List.find year_token (rev tokens),
     List.filter (fun t => negb (year_token t) && (2 <=? String.length t)%nat) tokens)
  /\ (forall y, fst (tokenize tokens) = Some y -> 1990 <= y <= 2030).
Proof.
  assert (Heq : tokenize tokens
    = (decimal_value <$> List.find year_token (rev tokens),
       List.filter (fun t => negb (year_token t) && (2 <=? String.length t)%nat) tokens)).
  { unfold tokenize. rewrite tokenize_fold. cbn [app].
    now destruct (List.find year_token (rev tokens)). }
  split; [exact Heq|]. rewrite Heq. cbn [fst]. intros y.
  destruct (List.find year_token (rev tokens)) as [t|] eqn:Hfind; [|discriminate].
  intros [= <-]. apply List.find_some in Hfind as [_ Ht]. unfold year_token in Ht.
  apply andb_true_iff in Ht as [Ht Hhi]. apply andb_true_iff in Ht as [_ Hlo].
  apply Z.leb_le in Hhi, Hlo. lia.
Qed.
